(** * Bluetooth codec test bench: a shallow embedding

    The two programs of the repository are embedded side by side:
    [Cli] follows [codec_tester.py] (the menu driven tester) and [Gui]
    follows [codec_tester_gui.py] (the windowed tester with the media
    relay and the bitrate sampler).  Python [bytes] are lists of
    [Byte.byte]; a Python [dict] whose order matters is an association
    list; mutable objects become explicit state records; a call that may
    raise returns in a sum with the exception on the left. *)

From Stdlib Require Import List String Ascii Bool Arith NArith ZArith QArith Lia.
From Stdlib Require Import Strings.Byte DecimalString.
Import ListNotations.

Open Scope string_scope.
Open Scope list_scope.

(** ** Shared vocabulary *)

Definition bytes := list byte.

(** Python exceptions met in the two programs. *)
Inductive exn : Type :=
| IndexError
| KeyError (key : string)
| AttributeError (attr : string)
| ValueError (msg : string)
| OSError (msg : string).

(** [b[i]] on a [bytes] object: the integer value of the byte, or
    [IndexError] out of range. *)
Definition getitem (b : bytes) (i : nat) : exn + N :=
  match nth_error b i with
  | Some x => inr (Byte.to_N x)
  | None => inl IndexError
  end.

(** [m in l] for a list of strings. *)
Definition mem (m : string) (l : list string) : bool :=
  existsb (String.eqb m) l.

(** [d[key]] and [key in d] on a dictionary kept in insertion order. *)
Fixpoint lookup {V : Type} (d : list (string * V)) (key : string) : option V :=
  match d with
  | [] => None
  | (k, v) :: rest => if String.eqb key k then Some v else lookup rest key
  end.

Definition keys {V : Type} (d : list (string * V)) : list string :=
  map fst d.

(** ["HD" in codec_key]: substring test. *)
Definition contains (needle hay : string) : bool :=
  match String.index 0 needle hay with
  | Some _ => true
  | None => false
  end.

(** [struct.unpack('<I', ...)] and ['<H']: little-endian decoding. *)
Fixpoint le_decode (b : bytes) : N :=
  match b with
  | [] => 0%N
  | x :: rest => (Byte.to_N x + 256 * le_decode rest)%N
  end.

(** A catalogue entry: [(display_name, media_codec_type, codec_info_bytes)]. *)
Definition entry : Type := (string * N * bytes)%type.

Definition entry_name (e : entry) : string := fst (fst e).
Definition entry_type (e : entry) : N := snd (fst e).
Definition entry_info (e : entry) : bytes := snd e.

(** Vendor ids, little-endian on four bytes (identical in both files). *)
Definition QUALCOMM : bytes := [xd0; x00; x00; x00].
Definition SONY     : bytes := [x2d; x01; x00; x00].
Definition SAVITECH : bytes := [x3a; x05; x00; x00].

(** [SBC] and [AAC] are always registered (identical in both files). *)
Definition MANDATORY : list string := ["SBC"; "AAC"].

(** The body shared by [resolve] (command line) and [_get_keys] (window):
    [for m in MANDATORY: if m not in result: result.append(m)]. *)
Definition append_mandatory (result : list string) : list string :=
  fold_left
    (fun result m => if negb (mem m result) then result ++ [m] else result)
    MANDATORY result.


(** ** The external stack, as far as the two programs use it

    Bumble is not part of the repository.  What follows fixes the few
    facts about its objects that the programs rely on. *)

(** [str(n)] for a natural number. *)
Definition str_nat (n : nat) : string :=
  NilZero.string_of_uint (Nat.to_uint n).

(** [str(e)]. *)
Definition str_exn (e : exn) : string :=
  match e with
  | IndexError => "index out of range"
  | KeyError k => k
  | AttributeError a => a
  | ValueError m => m
  | OSError m => m
  end.

(** [MediaCodecCapabilities(media_type=..., media_codec_type=...,
    media_codec_information=...)]. *)
Record MediaCodecCapabilities : Type := mkCaps {
  media_type : string;
  media_codec_type : N;
  media_codec_information : bytes
}.

(** A vendor codec information object: the attributes [vendor_id],
    [codec_id] and the remaining parameter bytes [value]. *)
Record VendorMediaCodecInformation : Type := mkVendor {
  vendor_id : N;
  codec_id : N;
  value : bytes
}.

(** How the stack reads such an object off the wire: four bytes of
    vendor id and two bytes of codec id, both little-endian, then the
    parameter tail. *)
Definition vendor_from_bytes (data : bytes) : exn + VendorMediaCodecInformation :=
  if (6 <=? List.length data)%nat then
    inr (mkVendor (le_decode (firstn 4 data))
                  (le_decode (firstn 2 (skipn 4 data)))
                  (skipn 6 data))
  else inl (ValueError "buffer too short").

(** The [config] handed to [check_configuration]: a vendor information
    object, or any object without a [vendor_id] attribute. *)
Inductive configuration : Type :=
| VendorInformation (c : VendorMediaCodecInformation)
| OtherInformation (raw : bytes).

(** A check accepts when it returns and rejects when it raises. *)
Definition accepted (outcome : exn + unit) : bool :=
  match outcome with
  | inr _ => true
  | inl _ => false
  end.

(** The [protocol] object of a connection notification.  Whether
    [add_sink] raises for a capability is the stack's business; a sink
    that is added gets the next stream end point identifier. *)
Record Protocol : Type := mkProtocol {
  add_sink_raises : MediaCodecCapabilities -> option exn
}.

Definition add_sink (protocol : Protocol) (caps : MediaCodecCapabilities)
    (registered : nat) : exn + nat :=
  match add_sink_raises protocol caps with
  | Some e => inl e
  | None => inr (S registered)
  end.

(** [[CODECS[k][0] for k in keys]]: the first unknown key raises. *)
Fixpoint names_of (CODECS : list (string * entry)) (ks : list string)
    : exn + list string :=
  match ks with
  | [] => inr []
  | k :: rest =>
      match lookup CODECS k with
      | None => inl (KeyError k)
      | Some e =>
          match names_of CODECS rest with
          | inl x => inl x
          | inr names => inr (entry_name e :: names)
          end
      end
  end.

(** ** The command line tester, [codec_tester.py] *)
Module Cli.

Definition CODECS : list (string * entry) :=
  [ ("SBC",           ("SBC",           0x00%N, [xff; xff; x02; x35]));
    ("AAC",           ("AAC",           0x02%N, [xf0; x01; x04; x00; xff; xff]));
    ("APTX",          ("aptX",          0xFF%N, QUALCOMM ++ [x01; x00] ++ [xff]));
    ("APTX_HD",       ("aptX-HD",       0xFF%N,
                       QUALCOMM ++ [x24; x00] ++ [xff; x00; x00; x00; x00]));
    ("APTX_ADAPTIVE", ("aptX-Adaptive", 0xFF%N,
                       QUALCOMM ++ [xad; x00]
                         ++ [x00; x00; x00; x01; x00; x00; x00; x00; x00; x00]));
    ("APTX_TWS_PLUS", ("aptX TWS+",     0xFF%N, QUALCOMM ++ [x05; x00] ++ [xff]));
    ("LDAC",          ("LDAC",          0xFF%N, SONY ++ [xaa; x00] ++ [x3c; x07]));
    ("LHDC_V2",       ("LHDC V2",       0xFF%N, SAVITECH ++ [x32; x4c] ++ [x26; xf0; x00]));
    ("LHDC_V3",       ("LHDC V3",       0xFF%N, SAVITECH ++ [x33; x4c] ++ [x3e; xf0; x00]));
    ("LHDC_V4",       ("LHDC V4",       0xFF%N, SAVITECH ++ [x34; x4c] ++ [x4e; xf0; x00]));
    ("LHDC_V5",       ("LHDC V5",       0xFF%N, SAVITECH ++ [x35; x4c] ++ [x5f; xf0; x00])) ].

(** [resolve(keys)]: copy the request, then append the missing
    mandatory keys. *)
Definition resolve (keys : list string) : list string :=
  let result := keys in
  append_mandatory result.

(** *** The replacement for [VendorMediaCodecInformation.check_configuration] *)

Definition _check (self : VendorMediaCodecInformation) (config : configuration)
    : exn + unit :=
  match config with
  | OtherInformation _ => inr tt
  | VendorInformation c =>
      if negb (vendor_id c =? vendor_id self)%N then
        inl (ValueError "vendor_id mismatch")
      else if negb (codec_id c =? codec_id self)%N then
        inl (ValueError "codec_id mismatch")
      else inr tt
  end.

(** *** [make_handler]

    Printed text is kept line by line; the pictographs and the box
    drawing of the banner are left out of the strings. *)

(** A sink end point with the names captured by its ['open'] listeners. *)
Record endpoint : Type := mkEndpoint {
  seid : nat;
  capabilities : MediaCodecCapabilities;
  open_listeners : list string
}.

(** [state['fired']], what was printed, and the sinks added so far. *)
Record handler_state : Type := mkHandler {
  fired : bool;
  stdout : list string;
  sinks : list endpoint
}.

Definition initial : handler_state := mkHandler false [] [].

Definition print (line : string) (st : handler_state) : handler_state :=
  mkHandler (fired st) (stdout st ++ [line]) (sinks st).

(** The [for key in keys] loop with its [try]/[except] per key. *)
Fixpoint register (protocol : Protocol) (ks : list string)
    (seids : list string) (st : handler_state)
    : handler_state * list string * option exn :=
  match ks with
  | [] => (st, seids, None)
  | key :: rest =>
      match lookup CODECS key with
      | None => (st, seids, Some (KeyError key))
      | Some (name, mct, info) =>
          let caps := mkCaps "AUDIO" mct info in
          match add_sink protocol caps (List.length (sinks st)) with
          | inr n =>
              let ep := mkEndpoint n caps [name] in
              let st := mkHandler (fired st) (stdout st) (sinks st ++ [ep]) in
              let seids := seids ++ [(name ++ "(SEID " ++ str_nat n ++ ")")%string] in
              let st := print ("  [+] " ++ name ++ "  ("
                                 ++ str_nat (List.length info)
                                 ++ " bytes)  SEID " ++ str_nat n)%string st in
              register protocol rest seids st
          | inl e =>
              let st := print ("  [!] " ++ name ++ " skipped - " ++ str_exn e)%string st in
              register protocol rest seids st
          end
      end
  end.

(** [next((CODECS[k][0] for k in keys if k not in MANDATORY), "SBC")]. *)
Definition primary (ks : list string) : exn + string :=
  match find (fun k => negb (mem k MANDATORY)) ks with
  | None => inr "SBC"
  | Some k =>
      match lookup CODECS k with
      | Some e => inr (entry_name e)
      | None => inl (KeyError k)
      end
  end.

(** [on_connection(protocol)], the closure returned by
    [make_handler(keys)]; the second component is the exception that
    leaves the handler, if any. *)
Definition on_connection (ks : list string) (protocol : Protocol)
    (st : handler_state) : handler_state * option exn :=
  if fired st then (st, None)
  else
    let st := mkHandler true (stdout st) (sinks st) in
    match names_of CODECS ks with
    | inl e => (st, Some e)
    | inr names =>
        let st := print ("[!] AVDTP connected - registering: "
                           ++ String.concat ", " names)%string st in
        match register protocol ks [] st with
        | (st, _, Some e) => (st, Some e)
        | (st, seids, None) =>
            match primary ks with
            | inl e => (st, Some e)
            | inr p =>
                (print ("  [v] Endpoints: " ++ String.concat ", " seids
                          ++ " / select '" ++ p ++ "'")%string st, None)
            end
        end
    end.

(** The listener called once per ['connection'] notification. *)
Fixpoint notify (ks : list string) (protocols : list Protocol)
    (st : handler_state) : handler_state :=
  match protocols with
  | [] => st
  | p :: rest => notify ks rest (fst (on_connection ks p st))
  end.

(** *** Presets and the menu *)

Definition ALL_LHDC : list string := ["LHDC_V2"; "LHDC_V3"; "LHDC_V4"; "LHDC_V5"].
Definition ALL_APTX : list string :=
  ["APTX"; "APTX_HD"; "APTX_ADAPTIVE"; "APTX_TWS_PLUS"].
Definition STANDARD : list string := ["SBC"; "AAC"].
Definition ALL : list string := keys CODECS.

Definition PRESETS : list (string * list string) :=
  [ ("ALL_LHDC", ALL_LHDC); ("ALL_APTX", ALL_APTX);
    ("STANDARD", STANDARD); ("ALL", ALL) ].

Definition MENU_MAP : list (string * list string) :=
  [ ("1",  ["SBC"]);            ("2",  ["AAC"]);
    ("3",  ["APTX"]);           ("4",  ["APTX_HD"]);
    ("5",  ["APTX_ADAPTIVE"]);  ("6",  ["APTX_TWS_PLUS"]);
    ("7",  ["LDAC"]);
    ("8",  ["LHDC_V2"]);        ("9",  ["LHDC_V3"]);
    ("10", ["LHDC_V4"]);        ("11", ["LHDC_V5"]);
    ("12", ALL_LHDC);
    ("13", ALL_APTX);
    ("14", STANDARD);
    ("15", ALL) ].

(** [s.replace('-', '_')]. *)
Fixpoint replace_dash (s : string) : string :=
  match s with
  | EmptyString => EmptyString
  | String c rest =>
      String (if Ascii.eqb c "-" then "_"%char else c) (replace_dash rest)
  end.

(** The escape character ['\x1b']. *)
Definition ESC : string := String (Ascii.ascii_of_nat 27) EmptyString.

(** What the program does at its top level, in order. *)
Inductive action : Type :=
| Say (line : string)
| Session (keys : list string) (transport : string)
| ResetHci.

Definition DEFAULT_TRANSPORT : string := "hci-socket:0".

Section Menu.

(** Python's [str.strip], [str.lower] and [str.upper]; what they do to
    a line is left to the interpreter. *)
Variable strip : string -> string.
Variable lower : string -> string.
Variable upper : string -> string.

(** The result of [pick_codecs]: the lines printed, the selection
    returned ([None] to leave) or the exception raised, and the lines of
    standard input not read yet. *)
Record picked : Type := mkPicked {
  printed : list string;
  outcome : exn + option (list string);
  unread : list string
}.

(** The [while True] loop of [pick_codecs] over the lines that standard
    input still holds; reading past the last line raises [EOFError],
    which the loop answers with [None].  The prompt written by [input]
    is not recorded. *)
Fixpoint pick_loop (inputs : list string) (out : list string) : picked :=
  match inputs with
  | [] => mkPicked out (inr None) []
  | line :: rest =>
      let raw := strip line in
      if String.eqb raw "" then pick_loop rest out
      else if contains ESC raw || String.prefix "^[" raw then
        pick_loop rest (out ++ ["  [!] Use number keys only."])
      else if mem (lower raw) ["0"; "q"; "exit"; "quit"] then
        mkPicked out (inr None) rest
      else
        match lookup MENU_MAP raw with
        | Some chosen =>
            let ks := resolve chosen in
            match names_of CODECS ks with
            | inl e => mkPicked out (inl e) rest
            | inr names =>
                mkPicked (out ++ [("  -> Registering: "
                                     ++ String.concat ", " names)%string])
                         (inr (Some ks)) rest
            end
        | None =>
            let up := replace_dash (upper raw) in
            match lookup CODECS up with
            | Some _ =>
                let ks := resolve [up] in
                match names_of CODECS ks with
                | inl e => mkPicked out (inl e) rest
                | inr names =>
                    mkPicked (out ++ [("  -> Registering: "
                                         ++ String.concat ", " names)%string])
                             (inr (Some ks)) rest
                end
            | None =>
                pick_loop rest
                  (out ++ ["  [!] Invalid - enter a number from the menu."])
            end
        end
  end.

(** [pick_codecs()]: the banner, then the loop. *)
Definition pick_codecs (inputs : list string) : picked :=
  pick_loop inputs ["MENU"].

(** What the machine does to the sessions of one run of the program:
    the exception that leaves [asyncio.run(_run_async(keys, transport))]
    in the [n]-th session (the transport that cannot be opened, the
    controller that does not power on), and the one that leaves
    [reset_hci()] after it (a [subprocess.run] that times out or does
    not find [sudo]).  A [KeyboardInterrupt], the usual end of a
    session, is caught by [run_session] and counts as no exception; an
    interrupt typed at the prompt of [pick_codecs] is not part of the
    model. *)
Record host : Type := mkHost {
  session_raises : nat -> option exn;
  reset_raises : nat -> option exn
}.

(** [run_session(keys, transport)]: the header, then the session, whose
    exception, if any, leaves [run_session] as well, only
    [KeyboardInterrupt] being caught; [patch_ok] is the module level
    [PATCH_OK]. *)
Definition run_session (patch_ok : bool) (ks : list string) (transport : string)
    (raised : option exn) : list action * option exn :=
  match names_of CODECS ks with
  | inl e => ([], Some e)
  | inr names =>
      let label :=
        if (List.length names <=? 4)%nat then String.concat " + " names
        else (str_nat (List.length names) ++ " codecs")%string in
      ([ Say ("  " ++ label)%string;
         Say ("  Transport : " ++ transport)%string;
         Say (if patch_ok then "  Patch     : active"
              else "  Patch     : failed");
         Session ks transport ],
       raised)
  end.

(** The [while True] loop of [main], from its [n]-th session on: one
    session per selection, until [pick_codecs] returns [None] or an
    exception leaves the session or the reset after it, which nothing
    in [main] catches.  [ResetHci] marks the call of [reset_hci()].
    [fuel] bounds the number of turns; [None] in the first component
    means it ran out. *)
Fixpoint menu_loop (fuel : nat) (h : host) (n : nat) (patch_ok : bool)
    (transport : string) (inputs : list string)
    : option (list action) * option exn :=
  match fuel with
  | O => (None, None)
  | S fuel' =>
      let pk := pick_codecs inputs in
      let said := map Say (printed pk) in
      match outcome pk with
      | inl e => (Some said, Some e)
      | inr None => (Some (said ++ [Say "[!] Exiting. Goodbye!"]), None)
      | inr (Some ks) =>
          match run_session patch_ok ks transport (session_raises h n) with
          | (ran, Some e) => (Some (said ++ ran), Some e)
          | (ran, None) =>
              let this := said ++ ran ++ [Say "  [!] Session ended."; ResetHci] in
              match reset_raises h n with
              | Some e => (Some this, Some e)
              | None =>
                  match menu_loop fuel' h (S n) patch_ok transport (unread pk) with
                  | (Some more, e) => (Some (this ++ more), e)
                  | (None, e) => (None, e)
                  end
              end
          end
      end
  end.

(** [main()] for the command line [argv] and the lines of standard
    input, on the host [h]: the actions taken and the exception that
    ends it, if any. *)
Definition main (h : host) (patch_ok : bool) (argv : list string)
    (inputs : list string) : option (list action) * option exn :=
  let transport := nth 1 argv DEFAULT_TRANSPORT in
  let menu := menu_loop (S (List.length inputs)) h 0 patch_ok transport inputs in
  match argv with
  | _ :: _ :: given :: _ =>
      let arg := replace_dash (upper given) in
      let chosen :=
        match lookup CODECS arg with
        | Some _ => Some (resolve [arg])
        | None =>
            match lookup MENU_MAP arg with
            | Some preset => Some (resolve preset)
            | None => None
            end
        end in
      match chosen with
      | Some (k :: ks) =>
          match run_session patch_ok (k :: ks) transport (session_raises h 0) with
          | (ran, Some e) => (Some ran, Some e)
          | (ran, None) => (Some (ran ++ [ResetHci]), reset_raises h 0)
          end
      | _ =>
          let unknown := Say ("[!] Unknown codec '" ++ given
                                ++ "' - falling to menu.")%string in
          match menu with
          | (Some acts, e) => (Some (unknown :: acts), e)
          | (None, e) => (None, e)
          end
      end
  | _ => menu
  end.

End Menu.

End Cli.

(** ** The windowed tester, [codec_tester_gui.py] *)
Module Gui.

Definition CODECS : list (string * entry) :=
  [ ("SBC",           ("SBC",           0x00%N, [xff; xff; x02; x35]));
    ("AAC",           ("AAC",           0x02%N, [xf0; x01; x04; x00; xff; xff]));
    ("APTX",          ("aptX",          0xFF%N, QUALCOMM ++ [x01; x00; xff]));
    ("APTX_HD",       ("aptX-HD",       0xFF%N,
                       QUALCOMM ++ [x24; x00; xff; x00; x00; x00; x00]));
    ("APTX_ADAPTIVE", ("aptX-Adaptive", 0xFF%N,
                       QUALCOMM ++ [xad; x00] ++ repeat x00 10));
    ("APTX_TWS_PLUS", ("aptX TWS+",     0xFF%N, QUALCOMM ++ [x05; x00; xff]));
    ("LDAC",          ("LDAC",          0xFF%N, SONY ++ [xaa; x00; x3c; x07]));
    ("LHDC_V2",       ("LHDC V2",       0xFF%N, SAVITECH ++ [x32; x4c; x26; xf0; x00]));
    ("LHDC_V3",       ("LHDC V3",       0xFF%N, SAVITECH ++ [x48; x4c; x3e; xf0; x00]));
    ("LHDC_V4",       ("LHDC V4",       0xFF%N, SAVITECH ++ [x34; x4c; x4e; xf0; x00]));
    ("LHDC_V5",       ("LHDC V5",       0xFF%N, SAVITECH ++ [x35; x4c; x5f; xf0; x00])) ].

Definition FAMILIES : list (string * list string) :=
  [ ("Standard",    ["SBC"; "AAC"]);
    ("aptX family", ["APTX"; "APTX_HD"; "APTX_ADAPTIVE"; "APTX_TWS_PLUS"]);
    ("Sony LDAC",   ["LDAC"]);
    ("LHDC family", ["LHDC_V2"; "LHDC_V3"; "LHDC_V4"; "LHDC_V5"]) ].

(** *** [parse_codec_info] *)

(** The dictionary [r]: its three possible keys, each present or not. *)
Record info_dict : Type := mkInfo {
  sample_rate : option N;
  bit_depth   : option N;
  max_kbps    : option N
}.

Definition empty_info : info_dict := mkInfo None None None.

Definition set_sample_rate (hz : N) (r : info_dict) : info_dict :=
  mkInfo (Some hz) (bit_depth r) (max_kbps r).
Definition set_bit_depth (v : N) (r : info_dict) : info_dict :=
  mkInfo (sample_rate r) (Some v) (max_kbps r).
Definition set_max_kbps (v : N) (r : info_dict) : info_dict :=
  mkInfo (sample_rate r) (bit_depth r) (Some v).

(** [for mask, hz in table: if v & mask: r['sample_rate'] = hz; break]. *)
Fixpoint scan_rates (table : list (N * N)) (v : N) (r : info_dict) : info_dict :=
  match table with
  | [] => r
  | (mask, hz) :: rest =>
      if negb (N.land v mask =? 0)%N then set_sample_rate hz r
      else scan_rates rest v r
  end.

Definition SBC_RATES : list (N * N) :=
  [ (0x80, 16000); (0x40, 32000); (0x20, 44100); (0x10, 48000) ]%N.
Definition AAC_RATES : list (N * N) :=
  [ (0x800, 8000); (0x400, 11025); (0x200, 12000);
    (0x100, 16000); (0x080, 22050); (0x040, 24000);
    (0x020, 32000); (0x010, 44100); (0x008, 48000);
    (0x002, 88200); (0x001, 96000) ]%N.
Definition LDAC_RATES : list (N * N) :=
  [ (0x20, 44100); (0x10, 48000); (0x04, 88200); (0x02, 96000) ]%N.
Definition LHDC_RATES : list (N * N) :=
  [ (0x08, 192000); (0x04, 96000); (0x02, 48000); (0x01, 44100) ]%N.
Definition APTX_RATES : list (N * N) :=
  [ (0x80, 44100); (0x40, 48000) ]%N.

(** [{0: 990, 1: 660, 2: 330}.get(q, 990)]. *)
Definition ldac_kbps (q : N) : N :=
  match q with
  | 0 => 990
  | 1 => 660
  | 2 => 330
  | _ => 990
  end%N.

(** The statements inside the [try]: the dictionary as filled so far,
    and the exception that interrupted them, if any. *)
Definition parse_body (codec_key : string) (b : bytes) : info_dict * option exn :=
  let r := empty_info in
  if String.eqb codec_key "SBC" && (4 <=? List.length b)%nat then
    match getitem b 0 with
    | inl e => (r, Some e)
    | inr b0 =>
        let r := scan_rates SBC_RATES b0 r in
        let r := set_bit_depth 16 r in
        let r := set_max_kbps 320 r in
        (r, None)
    end
  else if String.eqb codec_key "AAC" && (2 <=? List.length b)%nat then
    match getitem b 0 with
    | inl e => (r, Some e)
    | inr b0 =>
        match getitem b 1 with
        | inl e => (r, Some e)
        | inr b1 =>
            let sr_bits := N.lor (N.shiftl (N.land b0 0x0F) 8) b1 in
            let r := scan_rates AAC_RATES sr_bits r in
            let r := set_bit_depth 16 r in
            let r := set_max_kbps 320 r in
            (r, None)
        end
    end
  else if String.eqb codec_key "LDAC" && (8 <=? List.length b)%nat then
    match getitem b 6 with
    | inl e => (r, Some e)
    | inr b6 =>
        let r := scan_rates LDAC_RATES b6 r in
        let r := set_bit_depth 24 r in
        match getitem b 7 with
        | inl e => (r, Some e)
        | inr b7 =>
            let q := N.land b7 0x07 in
            let r := set_max_kbps (ldac_kbps q) r in
            (r, None)
        end
    end
  else if String.prefix "LHDC" codec_key && (7 <=? List.length b)%nat then
    match getitem b 6 with
    | inl e => (r, Some e)
    | inr cap0 =>
        let r := scan_rates LHDC_RATES cap0 r in
        let r := set_bit_depth 24 r in
        let r := set_max_kbps 900 r in
        (r, None)
    end
  else if String.prefix "APTX" codec_key && (7 <=? List.length b)%nat then
    match getitem b 6 with
    | inl e => (r, Some e)
    | inr sr_byte =>
        let r := scan_rates APTX_RATES sr_byte r in
        let r := set_bit_depth (if contains "HD" codec_key then 24 else 16) r in
        let r := set_max_kbps (if contains "HD" codec_key then 576 else 352) r in
        (r, None)
    end
  else (r, None).

(** [try: ... except Exception: pass; return r]. *)
Definition parse_codec_info (codec_key : string) (info_bytes : bytes) : info_dict :=
  fst (parse_body codec_key info_bytes).

(** The length each branch of [parse_codec_info] asks for, read off its
    guards in the order they are tried; [None] for a key no branch
    takes. *)
Definition required_length (codec_key : string) : option nat :=
  if String.eqb codec_key "SBC" then Some 4%nat
  else if String.eqb codec_key "AAC" then Some 2%nat
  else if String.eqb codec_key "LDAC" then Some 8%nat
  else if String.prefix "LHDC" codec_key then Some 7%nat
  else if String.prefix "APTX" codec_key then Some 7%nat
  else None.

(** A payload no branch accepts: too short for the key, or an unknown key. *)
Definition too_short (codec_key : string) (b : bytes) : bool :=
  match required_length codec_key with
  | Some n => (List.length b <? n)%nat
  | None => true
  end.

(** *** The replacement for [MediaCodecCapabilities.check_configuration] *)

Section Patch.

Variable Configuration : Type.

(** [orig_check]: the stack's own strict validation. *)
Variable orig_check : MediaCodecCapabilities -> Configuration -> exn + unit.

Definition _permissive_check (self : MediaCodecCapabilities)
    (configuration : Configuration) : exn + unit :=
  if (media_codec_type self =? 0xFF)%N then inr tt
  else orig_check self configuration.

End Patch.

(** *** The check boxes and [_get_keys] *)

(** [_codec_vars] as [_build_sidebar] fills it: one variable per key,
    family by family, ticked for the mandatory keys. *)
Definition initial_vars : list (string * bool) :=
  flat_map (fun family => map (fun key => (key, mem key MANDATORY)) (snd family))
           FAMILIES.

(** [_preset(keys)]: [for k, v in self._codec_vars.items(): v.set(k in keys)]. *)
Definition _preset (ks : list string) (vars : list (string * bool))
    : list (string * bool) :=
  map (fun kv => (fst kv, mem (fst kv) ks)) vars.

Definition _get_keys (_codec_vars : list (string * bool)) : list string :=
  let sel := map fst (filter (fun kv => snd kv) _codec_vars) in
  append_mandatory sel.

(** *** The operating system seen by [AudioPlayer]

    A child process is known by its position in [procs], an open file by
    its position in [files].  Writing to the pipe of a child raises when
    our end is closed, when the reader has gone away or when the child
    has exited.  A file opened with [open(path, 'wb')] is buffered:
    what is written stays in the buffer of the file object while it
    fits, and goes to the device once the buffer has to be emptied or
    the file is closed.  Writing raises when the file is closed, or
    when the buffer has to be emptied onto a full device; closing
    raises when bytes are still waiting and the device is full, and
    closes the file all the same.  Closing the pipe and terminating a
    child do not raise. *)

Record process : Type := mkProcess {
  running : bool;
  stdin_closed : bool;
  reader_gone : bool;
  stdin_data : bytes
}.

(** [contents] is all that the file object has taken, in order; its
    last [pending] bytes are still in the buffer, which holds
    [buffer_size] bytes. *)
Record file : Type := mkFile {
  closed : bool;
  device_full : bool;
  buffer_size : nat;
  pending : nat;
  contents : bytes
}.

(** [io.DEFAULT_BUFFER_SIZE], the size of the buffer that [open] gives a
    file when it does not take the block size of the device. *)
Definition DEFAULT_BUFFER_SIZE : nat := 8 * 1024.

Record os : Type := mkOs {
  can_spawn : bool;
  can_open : bool;
  procs : list process;
  files : list file
}.

Fixpoint alter {A : Type} (f : A -> A) (i : nat) (l : list A) : list A :=
  match l, i with
  | [], _ => []
  | x :: rest, O => f x :: rest
  | x :: rest, S j => x :: alter f j rest
  end.

Definition set_procs (ps : list process) (w : os) : os :=
  mkOs (can_spawn w) (can_open w) ps (files w).
Definition set_files (fs : list file) (w : os) : os :=
  mkOs (can_spawn w) (can_open w) (procs w) fs.

(** [subprocess.Popen(cmd, stdin=PIPE, ...)]. *)
Definition Popen (w : os) : os * (exn + nat) :=
  if can_spawn w then
    (set_procs (procs w ++ [mkProcess true false false []]) w,
     inr (List.length (procs w)))
  else (w, inl (OSError "cannot start ffplay")).

(** [proc.poll() is None]. *)
Definition poll_is_None (w : os) (p : nat) : bool :=
  match nth_error (procs w) p with
  | Some pr => running pr
  | None => false
  end.

(** [proc.stdin.write(data); proc.stdin.flush()]. *)
Definition stdin_write (w : os) (p : nat) (data : bytes) : os * (exn + unit) :=
  match nth_error (procs w) p with
  | None => (w, inl (OSError "no such process"))
  | Some pr =>
      if stdin_closed pr then (w, inl (ValueError "write to closed file"))
      else if reader_gone pr || negb (running pr) then
        (w, inl (OSError "Broken pipe"))
      else
        (set_procs
           (alter (fun pr => mkProcess (running pr) (stdin_closed pr)
                               (reader_gone pr) (stdin_data pr ++ data))
                  p (procs w)) w,
         inr tt)
  end.

(** [proc.stdin.close()]. *)
Definition stdin_close (w : os) (p : nat) : os * (exn + unit) :=
  (set_procs
     (alter (fun pr => mkProcess (running pr) true (reader_gone pr) (stdin_data pr))
            p (procs w)) w,
   inr tt).

(** [proc.terminate()]. *)
Definition terminate (w : os) (p : nat) : os * (exn + unit) :=
  (set_procs
     (alter (fun pr => mkProcess false (stdin_closed pr) (reader_gone pr)
                         (stdin_data pr))
            p (procs w)) w,
   inr tt).

(** [open(dump_path, 'wb')]: a fresh, empty file object. *)
Definition open_wb (w : os) : os * (exn + nat) :=
  if can_open w then
    (set_files (files w ++ [mkFile false false DEFAULT_BUFFER_SIZE 0 []]) w,
     inr (List.length (files w)))
  else (w, inl (OSError "cannot open dump file")).

(** [f.write(data)]: data that fits in what is left of the buffer is
    copied there; otherwise the buffer is emptied first, then data
    longer than the buffer goes straight to the device and shorter data
    into the buffer. *)
Definition file_write (w : os) (f : nat) (data : bytes) : os * (exn + unit) :=
  match nth_error (files w) f with
  | None => (w, inl (OSError "no such file"))
  | Some fl =>
      if closed fl then (w, inl (ValueError "I/O operation on closed file"))
      else if (List.length data <=? buffer_size fl - pending fl)%nat then
        (set_files
           (alter (fun fl => mkFile (closed fl) (device_full fl) (buffer_size fl)
                               (pending fl + List.length data)
                               (contents fl ++ data))
                  f (files w)) w,
         inr tt)
      else if device_full fl then (w, inl (OSError "No space left on device"))
      else
        (set_files
           (alter (fun fl => mkFile (closed fl) (device_full fl) (buffer_size fl)
                               (if (buffer_size fl <? List.length data)%nat
                                then 0%nat else List.length data)
                               (contents fl ++ data))
                  f (files w)) w,
         inr tt)
  end.

(** Whether the bytes waiting in the buffer of [f] can go to the device. *)
Definition flushes (w : os) (f : nat) : bool :=
  match nth_error (files w) f with
  | Some fl => negb (device_full fl && (0 <? pending fl)%nat)
  | None => true
  end.

(** [f.close()]. *)
Definition file_close (w : os) (f : nat) : os * (exn + unit) :=
  (set_files
     (alter (fun fl => mkFile true (device_full fl) (buffer_size fl)
                         (if flushes w f then 0%nat else pending fl)
                         (contents fl))
            f (files w)) w,
   if flushes w f then inr tt else inl (OSError "No space left on device")).

(** *** Events put on the queue *)

Inductive event : Type :=
| LOG (text : string) (level : string)
| DISCOVERABLE
| CONNECTED
| STREAM_OPENED (codec key : string) (info : info_dict) (cfg : bytes)
| STREAM_CLOSED (codec : string)
| BITRATE (kbps : Q)
| DONE.

(** *** The state of one [BenchWorker] and of the objects it owns *)

Record AudioPlayer : Type := mkPlayer {
  _backend : option string;
  _proc : option nat;
  active : bool;
  dump_file : option nat
}.

(** A sink end point of the stack: the negotiated configuration bytes
    once the peer has set them, and the listeners attached with [on]:
    the [(k, n)] of each [_on_open], the [n] of each [_on_close], the
    [k] of each [_on_rtp]. *)
Record endpoint : Type := mkEndpoint {
  seid : nat;
  capabilities : MediaCodecCapabilities;
  configuration : option bytes;
  open_listeners : list (string * string);
  close_listeners : list string;
  rtp_listeners : list string
}.

Record state : Type := mkState {
  _q : list event;
  bytes_recv : Z;
  _audio : AudioPlayer;
  _audio_enabled : bool;
  stop_event : bool;
  fired : bool;
  endpoints : list endpoint;
  prev : Z;
  world : os;
  loop_closed : bool;
  sampler_done : bool
}.

Definition set_q (v : list event) (st : state) : state :=
  mkState v (bytes_recv st) (_audio st) (_audio_enabled st) (stop_event st)
          (fired st) (endpoints st) (prev st) (world st)
          (loop_closed st) (sampler_done st).
Definition set_bytes_recv (v : Z) (st : state) : state :=
  mkState (_q st) v (_audio st) (_audio_enabled st) (stop_event st)
          (fired st) (endpoints st) (prev st) (world st)
          (loop_closed st) (sampler_done st).
Definition set_audio (v : AudioPlayer) (st : state) : state :=
  mkState (_q st) (bytes_recv st) v (_audio_enabled st) (stop_event st)
          (fired st) (endpoints st) (prev st) (world st)
          (loop_closed st) (sampler_done st).
Definition set_stop_event (v : bool) (st : state) : state :=
  mkState (_q st) (bytes_recv st) (_audio st) (_audio_enabled st) v
          (fired st) (endpoints st) (prev st) (world st)
          (loop_closed st) (sampler_done st).
Definition set_fired (v : bool) (st : state) : state :=
  mkState (_q st) (bytes_recv st) (_audio st) (_audio_enabled st) (stop_event st)
          v (endpoints st) (prev st) (world st)
          (loop_closed st) (sampler_done st).
Definition set_endpoints (v : list endpoint) (st : state) : state :=
  mkState (_q st) (bytes_recv st) (_audio st) (_audio_enabled st) (stop_event st)
          (fired st) v (prev st) (world st)
          (loop_closed st) (sampler_done st).
Definition set_prev (v : Z) (st : state) : state :=
  mkState (_q st) (bytes_recv st) (_audio st) (_audio_enabled st) (stop_event st)
          (fired st) (endpoints st) v (world st)
          (loop_closed st) (sampler_done st).
Definition set_world (v : os) (st : state) : state :=
  mkState (_q st) (bytes_recv st) (_audio st) (_audio_enabled st) (stop_event st)
          (fired st) (endpoints st) (prev st) v
          (loop_closed st) (sampler_done st).
Definition set_loop_closed (v : bool) (st : state) : state :=
  mkState (_q st) (bytes_recv st) (_audio st) (_audio_enabled st) (stop_event st)
          (fired st) (endpoints st) (prev st) (world st)
          v (sampler_done st).
Definition set_sampler_done (v : bool) (st : state) : state :=
  mkState (_q st) (bytes_recv st) (_audio st) (_audio_enabled st) (stop_event st)
          (fired st) (endpoints st) (prev st) (world st)
          (loop_closed st) v.

(** [BenchWorker(ev_q, log_fn)] followed by [start(codec_keys, transport,
    audio)], on a machine where [ffplay] is or is not installed: the
    event of [_run] is not set, its loop is not closed, and
    [bitrate_loop] has not come to its end. *)
Definition new_worker (ffplay : bool) (audio : bool) (w : os) : state :=
  mkState [] 0%Z
          (mkPlayer (if ffplay then Some "ffplay" else None) None false None)
          audio false false [] 0%Z w false false.

Definition _emit (ev : event) (st : state) : state :=
  set_q (_q st ++ [ev]) st.

Definition _emit_log (text level : string) (st : state) : state :=
  _emit (LOG text level) st.

(** *** [AudioPlayer] *)

Definition set_proc (v : option nat) (a : AudioPlayer) : AudioPlayer :=
  mkPlayer (_backend a) v (active a) (dump_file a).
Definition set_active (v : bool) (a : AudioPlayer) : AudioPlayer :=
  mkPlayer (_backend a) (_proc a) v (dump_file a).
Definition set_dump_file (v : option nat) (a : AudioPlayer) : AudioPlayer :=
  mkPlayer (_backend a) (_proc a) (active a) v.

(** [start(sample_rate, channels, codec_key)]. *)
Definition start (sample_rate channels : N) (codec_key : string) (st : state)
    : state :=
  match _backend (_audio st) with
  | None =>
      _emit_log "No audio backend found. Install ffmpeg (ffplay)." "warning" st
  | Some _ =>
      if negb (String.eqb codec_key "SBC") then
        _emit_log "Live playback only works for SBC." "warning" st
      else
        match Popen (world st) with
        | (w, inl e) =>
            _emit_log ("Audio failed to start: " ++ str_exn e)%string "error"
                      (set_world w st)
        | (w, inr p) =>
            let st := set_world w st in
            let st := set_audio (set_proc (Some p) (_audio st)) st in
            let st := set_audio (set_active true (_audio st)) st in
            match open_wb (world st) with
            | (w, inl e) =>
                _emit_log ("Audio failed to start: " ++ str_exn e)%string "error"
                          (set_world w st)
            | (w, inr f) =>
                let st := set_world w st in
                let st := set_audio (set_dump_file (Some f) (_audio st)) st in
                let st := _emit_log "Audio playing via ffplay (SBC)" "success" st in
                _emit_log "Saving raw backup stream" "info" st
            end
        end
  end.

(** The [except] branch of [write]. *)
Definition pipe_error (e : exn) (st : state) : state :=
  let st := _emit_log ("Audio pipe error: " ++ str_exn e)%string "error" st in
  set_audio (set_active false (_audio st)) st.

(** [write(data)]. *)
Definition write (data : bytes) (st : state) : state :=
  match _proc (_audio st) with
  | None => st
  | Some p =>
      if active (_audio st) && poll_is_None (world st) p then
        match stdin_write (world st) p data with
        | (w, inl e) => pipe_error e (set_world w st)
        | (w, inr _) =>
            let st := set_world w st in
            match dump_file (_audio st) with
            | None => st
            | Some f =>
                match file_write (world st) f data with
                | (w, inl e) => pipe_error e (set_world w st)
                | (w, inr _) => set_world w st
                end
            end
        end
      else st
  end.

(** [stop()]. *)
Definition stop (st : state) : state :=
  let st := set_audio (set_active false (_audio st)) st in
  let st :=
    match _proc (_audio st) with
    | None => st
    | Some p =>
        let st :=
          match stdin_close (world st) p with
          | (w, inl _) => set_world w st
          | (w, inr _) =>
              let st := set_world w st in
              match terminate (world st) p with
              | (w, _) => set_world w st
              end
          end in
        set_audio (set_proc None (_audio st)) st
    end in
  match dump_file (_audio st) with
  | None => st
  | Some f =>
      let st :=
        match file_close (world st) f with
        | (w, _) => set_world w st
        end in
      set_audio (set_dump_file None (_audio st)) st
  end.

(** *** The listeners of an end point *)

Definition find_endpoint (s : nat) (st : state) : option endpoint :=
  find (fun ep => (seid ep =? s)%nat) (endpoints st).

(** [endpoint.on('rtp_packet', _on_rtp)] for the closure that captured [k]. *)
Definition on_rtp_packet (s : nat) (k : string) (st : state) : state :=
  set_endpoints
    (map (fun ep =>
            if (seid ep =? s)%nat then
              mkEndpoint (seid ep) (capabilities ep) (configuration ep)
                         (open_listeners ep) (close_listeners ep)
                         (rtp_listeners ep ++ [k])
            else ep)
         (endpoints st))
    st.

(** [_on_rtp(pkt)] for a media packet of the stack, which has a
    [payload] attribute and converts to [bytes]; [payload] is
    [pkt.payload].  Nothing in the body raises, [write] catching its
    own exceptions, so the [except] branch is never entered. *)
Definition _on_rtp (k : string) (payload : bytes) (st : state) : state :=
  let st :=
    if String.eqb k "SBC" && (1 <? List.length payload)%nat then
      write (skipn 1 payload) st
    else st in
  set_bytes_recv (bytes_recv st + Z.of_nat (List.length payload))%Z st.

(** [_on_open(k, n, endpoint)]. *)
Definition _on_open (k n : string) (s : nat) (st : state) : state :=
  let cfg_bytes :=
    match find_endpoint s st with
    | Some ep =>
        match configuration ep with
        | Some c => c
        | None => []
        end
    | None => []
    end in
  let codec_info := parse_codec_info k cfg_bytes in
  let st := _emit (STREAM_OPENED n k codec_info cfg_bytes) st in
  if _audio_enabled st then
    let sr :=
      match sample_rate codec_info with
      | Some hz => hz
      | None => 44100%N
      end in
    let st := start sr 2 k st in
    on_rtp_packet s k st
  else st.

(** [_on_close(n)]. *)
Definition _on_close (n : string) (st : state) : state :=
  let st := _emit (STREAM_CLOSED n) st in
  stop st.

(** *** [on_avdtp] *)

(** The [for key in codec_keys] loop with its [try]/[except] per key. *)
Fixpoint register (protocol : Protocol) (ks : list string) (st : state)
    : state * option exn :=
  match ks with
  | [] => (st, None)
  | key :: rest =>
      match lookup CODECS key with
      | None => (st, Some (KeyError key))
      | Some (name, mct, info) =>
          let caps := mkCaps "AUDIO" mct info in
          match add_sink protocol caps (List.length (endpoints st)) with
          | inr n =>
              let st := _emit_log ("  [+] " ++ name ++ "  SEID " ++ str_nat n)%string
                                  "normal" st in
              let ep := mkEndpoint n caps None [(key, name)] [name] [] in
              let st := set_endpoints (endpoints st ++ [ep]) st in
              register protocol rest st
          | inl exc =>
              let st := _emit_log ("  [!] " ++ name ++ " skipped: "
                                     ++ str_exn exc)%string "warning" st in
              register protocol rest st
          end
      end
  end.

(** [on_avdtp(protocol)]; the second component is the exception that
    leaves the handler, if any. *)
Definition on_avdtp (codec_keys : list string) (protocol : Protocol)
    (st : state) : state * option exn :=
  if fired st then (st, None)
  else
    let st := set_fired true st in
    match names_of CODECS codec_keys with
    | inl e => (st, Some e)
    | inr names =>
        let st := _emit_log ("[AVDTP] Connected - registering: "
                               ++ String.concat ", " names)%string "normal" st in
        match register protocol codec_keys st with
        | (st, Some e) => (st, Some e)
        | (st, None) => (_emit CONNECTED st, None)
        end
    end.

(** *** [bitrate_loop] *)

(** [delta * 8 / 1000]: the exact quotient, which Python rounds to the
    nearest double. *)
Definition kbps_of (delta : Z) : Q :=
  (inject_Z (delta * 8) / inject_Z 1000)%Q.

(** One turn of the loop, when [asyncio.sleep(1.0)] returns. *)
Definition bitrate_turn (st : state) : state :=
  let delta := (bytes_recv st - prev st)%Z in
  let st := set_prev (bytes_recv st) st in
  if negb (delta =? 0)%Z then _emit (BITRATE (kbps_of delta)) st
  else st.

(** One turn of [bitrate_loop] as the loop is written: a task that has
    left its [while], or has been cancelled, does nothing; otherwise the
    sample is taken when the sleep returns, and only then is
    [_stop_event] looked at again. *)
Definition bitrate_loop (st : state) : state :=
  if sampler_done st then st
  else
    let st := bitrate_turn st in
    set_sampler_done (stop_event st) st.

(** *** The session *)

(** The end of [_thread_main]: the [except] branch when [_run] has
    raised, then the [finally] block, whether or not a stop was asked
    for. *)
Definition _thread_main (raised : option exn) (st : state) : state :=
  let st :=
    match raised with
    | Some e => _emit_log ("[ERROR] " ++ str_exn e)%string "error" st
    | None => st
    end in
  let st := set_loop_closed true st in
  let st := stop st in
  _emit DONE st.

(** [_run] up to [self._emit('DISCOVERABLE')]; when the transport cannot
    be opened the exception reaches [_thread_main], which logs it, stops
    the player and reports [DONE]. *)
Definition _run (transport : exn + unit) (st : state) : state :=
  match transport with
  | inr _ => _emit DISCOVERABLE st
  | inl e => _thread_main (Some e) st
  end.

(** [BenchWorker.stop()]: the event is set through the loop unless the
    loop is closed.  The call and the [set] that the loop runs for it
    are taken as one step. *)
Definition request_stop (st : state) : state :=
  if loop_closed st then st else set_stop_event true st.

(** What happens to the worker once [_run] has made its listener: the
    notifications of the stack, the return of the sampler's sleep, a
    call of [stop()], [_run] going on after [await
    self._stop_event.wait()] to cancel the sampler, and [_run] coming
    to its end, by returning or by raising. *)
Inductive notification : Type :=
| Connection (protocol : Protocol)
| Configured (s : nat) (cfg : bytes)
| Open (s : nat)
| Close (s : nat)
| RtpPacket (s : nat) (payload : bytes)
| Tick
| Stop
| Cancel
| Ended (raised : option exn).

Definition set_configuration (s : nat) (cfg : bytes) (st : state) : state :=
  set_endpoints
    (map (fun ep =>
            if (seid ep =? s)%nat then
              mkEndpoint (seid ep) (capabilities ep) (Some cfg)
                         (open_listeners ep) (close_listeners ep)
                         (rtp_listeners ep)
            else ep)
         (endpoints st))
    st.

(** The listeners an end point has for each kind of notification. *)
Definition listeners {L : Type} (sel : endpoint -> list L) (s : nat)
    (st : state) : list L :=
  match find_endpoint s st with
  | Some ep => sel ep
  | None => []
  end.

(** The worker's reaction to one notification.  No listener looks at
    [_stop_event]: between the stop request and the end of [_run] the
    stack still calls them.  That nothing but a stop request follows
    the end of [_run], the loop being closed, is a fact about the
    series of notifications ([orderly] below), not of the handlers. *)
Definition handle (codec_keys : list string) (nt : notification) (st : state)
    : state :=
  match nt with
  | Connection protocol => fst (on_avdtp codec_keys protocol st)
  | Configured s cfg => set_configuration s cfg st
  | Open s =>
      fold_left (fun st kn => _on_open (fst kn) (snd kn) s st)
                (listeners open_listeners s st) st
  | Close s =>
      fold_left (fun st n => _on_close n st) (listeners close_listeners s st) st
  | RtpPacket s payload =>
      fold_left (fun st k => _on_rtp k payload st)
                (listeners rtp_listeners s st) st
  | Tick => bitrate_loop st
  | Stop => request_stop st
  | Cancel => set_sampler_done true st
  | Ended raised => _thread_main raised st
  end.

Definition run (codec_keys : list string) (nts : list notification)
    (st : state) : state :=
  fold_left (fun st nt => handle codec_keys nt st) nts st.

(** *** The window's own attributes

    Of [App] the plain attributes are kept: the check box variables,
    the bitrate history with its ceiling, the running flag and the
    worker it started.  The widgets they are shown in are not part of
    the model. *)

Record App : Type := mkApp {
  _codec_vars : list (string * bool);
  _audio_var : bool;
  _running : bool;
  _bitrate_history : list Q;
  _max_kbps : Q;
  _worker : option (list string * string * bool)
}.

(** [App.__init__]. *)
Definition new_app : App := mkApp initial_vars false false [] 1000%Q None.

(** [l[-n:]]. *)
Definition lastn {A : Type} (n : nat) (l : list A) : list A :=
  skipn (List.length l - n) l.

(** [_handle(ev)], as far as the attributes go. *)
Definition _handle (ev : event) (app : App) : App :=
  match ev with
  | STREAM_OPENED _ _ info _ =>
      match max_kbps info with
      | Some mk =>
          if (mk =? 0)%N then app
          else mkApp (_codec_vars app) (_audio_var app) (_running app)
                     (_bitrate_history app) (inject_Z (Z.of_N mk)) (_worker app)
      | None => app
      end
  | BITRATE kbps =>
      let history := _bitrate_history app ++ [kbps] in
      let history :=
        if (200 <? List.length history)%nat then lastn 200 history
        else history in
      mkApp (_codec_vars app) (_audio_var app) (_running app)
            history (_max_kbps app) (_worker app)
  | DONE =>
      mkApp (_codec_vars app) (_audio_var app) false
            (_bitrate_history app) (_max_kbps app) (_worker app)
  | _ => app
  end.

(** [_poll()]: every event waiting in the queue is handled, in order. *)
Definition _poll (queue : list event) (app : App) : App :=
  fold_left (fun app ev => _handle ev app) queue app.

(** [_start()]: the second component tells whether the "No codecs"
    warning was shown instead. *)
Definition _start (app : App) : App * bool :=
  match _get_keys (_codec_vars app) with
  | [] => (app, true)
  | k :: ks =>
      (mkApp (_codec_vars app) (_audio_var app) true [] (_max_kbps app)
             (Some (k :: ks, "hci-socket:0", _audio_var app)),
       false)
  end.

(** *** Observations used to state the properties *)

(** The child [p] has been told to end and our end of its pipe is closed. *)
Definition terminated (w : os) (p : nat) : bool :=
  match nth_error (procs w) p with
  | Some pr => negb (running pr) && stdin_closed pr
  | None => true
  end.

(** The file object [f] has been closed. *)
Definition file_closed (w : os) (f : nat) : bool :=
  match nth_error (files w) f with
  | Some fl => closed fl
  | None => true
  end.

(** What has been appended to the file object [f]. *)
Definition dumped (w : os) (f : nat) : bytes :=
  match nth_error (files w) f with
  | Some fl => contents fl
  | None => []
  end.

Definition is_log (ev : event) : bool :=
  match ev with
  | LOG _ _ => true
  | _ => false
  end.

Definition is_warning (ev : event) : bool :=
  match ev with
  | LOG _ level => String.eqb level "warning"
  | _ => false
  end.

(** What the process [p] has been sent on its pipe. *)
Definition piped (w : os) (p : nat) : bytes :=
  match nth_error (procs w) p with
  | Some pr => stdin_data pr
  | None => []
  end.

(** The bitrates reported on a queue, in order, and their sum. *)
Definition bitrates (queue : list event) : list Q :=
  flat_map (fun ev => match ev with BITRATE kbps => [kbps] | _ => [] end) queue.

Definition Qsum (l : list Q) : Q := fold_right Qplus 0%Q l.

(** The events a listener may put on the queue: anything but a bitrate
    sample and the two marks of the session itself. *)
Definition from_listener (ev : event) : bool :=
  match ev with
  | BITRATE _ | DONE | DISCOVERABLE => false
  | _ => true
  end.

(** The keys captured by the ['open'] listeners of a list of end points. *)
Definition keys_of (eps : list endpoint) : list string :=
  flat_map (fun ep => map fst (open_listeners ep)) eps.

End Gui.

(** ** Observations and fixtures shared by the properties *)

(** Whether the stack raises when asked to add the sink of [key]. *)
Definition refuses (CODECS : list (string * entry)) (protocol : Protocol)
    (key : string) : bool :=
  match lookup CODECS key with
  | Some (_, mct, info) =>
      match add_sink_raises protocol (mkCaps "AUDIO" mct info) with
      | Some _ => true
      | None => false
      end
  | None => false
  end.

(** The capabilities of the sinks that the stack adds when it is asked
    for the keys [ks] of a catalogue, in this order. *)
Definition offered (CODECS : list (string * entry)) (protocol : Protocol)
    (ks : list string) : list MediaCodecCapabilities :=
  flat_map (fun key =>
              match lookup CODECS key with
              | Some (_, mct, info) =>
                  match add_sink_raises protocol (mkCaps "AUDIO" mct info) with
                  | Some _ => []
                  | None => [mkCaps "AUDIO" mct info]
                  end
              | None => []
              end) ks.

(** The line that [on_connection] prints for a key: the sink added,
    with some SEID, or the key skipped, with the text of the exception. *)
Definition cli_reports (protocol : Protocol) (key line : string) : Prop :=
  match lookup Cli.CODECS key with
  | Some (name, mct, info) =>
      match add_sink_raises protocol (mkCaps "AUDIO" mct info) with
      | Some e => line = ("  [!] " ++ name ++ " skipped - " ++ str_exn e)%string
      | None =>
          exists n, line = ("  [+] " ++ name ++ "  ("
                              ++ str_nat (List.length info)
                              ++ " bytes)  SEID " ++ str_nat n)%string
      end
  | None => False
  end.

(** The event that [on_avdtp] puts on the queue for a key. *)
Definition gui_reports (protocol : Protocol) (key : string) (ev : Gui.event)
    : Prop :=
  match lookup Gui.CODECS key with
  | Some (name, mct, info) =>
      match add_sink_raises protocol (mkCaps "AUDIO" mct info) with
      | Some e =>
          ev = Gui.LOG ("  [!] " ++ name ++ " skipped: " ++ str_exn e)%string
                       "warning"
      | None =>
          exists n, ev = Gui.LOG ("  [+] " ++ name ++ "  SEID " ++ str_nat n)%string
                                 "normal"
      end
  | None => False
  end.

(** A step of the worker that the sampler does not see: the previous
    reading, the stop flag and the state of the loop and of the sampler
    are as before, the counter has not gone down, and the queue has
    grown at its end by events of listeners. *)
Definition calm (st st' : Gui.state) : Prop :=
  Gui.prev st' = Gui.prev st
  /\ Gui.stop_event st' = Gui.stop_event st
  /\ Gui.loop_closed st' = Gui.loop_closed st
  /\ Gui.sampler_done st' = Gui.sampler_done st
  /\ (Gui.bytes_recv st <= Gui.bytes_recv st')%Z
  /\ exists added,
       Gui._q st' = Gui._q st ++ added
       /\ forallb Gui.from_listener added = true.

(** The sampler's books balance: the previous reading lies between zero
    and the counter, every bitrate reported is positive, and the
    bitrates reported add up to the previous reading in kilobits. *)
Definition accounted (st : Gui.state) : Prop :=
  (0 <= Gui.prev st <= Gui.bytes_recv st)%Z
  /\ Forall (fun kbps => (0 < kbps)%Q) (Gui.bitrates (Gui._q st))
  /\ (Gui.Qsum (Gui.bitrates (Gui._q st)) == (Gui.prev st * 8) # 1000)%Q.

(** The player holds nothing. *)
Definition released (st : Gui.state) : Prop :=
  Gui.active (Gui._audio st) = false
  /\ Gui._proc (Gui._audio st) = None
  /\ Gui.dump_file (Gui._audio st) = None.

(** No [DONE] on a queue. *)
Definition no_done (queue : list Gui.event) : bool :=
  forallb (fun ev => match ev with Gui.DONE => false | _ => true end) queue.

(** [DONE] is on the queue when the loop of the worker is closed, once
    and last, and the player is released by then. *)
Definition finished_once (st : Gui.state) : Prop :=
  if Gui.loop_closed st then
    released st
    /\ exists before, Gui._q st = before ++ [Gui.DONE] /\ no_done before = true
  else no_done (Gui._q st) = true.

(** The stop requests among a series of notifications, and the ends of
    [_run]. *)
Definition is_stop (nt : Gui.notification) : bool :=
  match nt with
  | Gui.Stop => true
  | _ => false
  end.

Definition is_end (nt : Gui.notification) : bool :=
  match nt with
  | Gui.Ended _ => true
  | _ => false
  end.

(** The calls of listeners by the stack. *)
Definition is_callback (nt : Gui.notification) : bool :=
  match nt with
  | Gui.Connection _ | Gui.Configured _ _ | Gui.Open _ | Gui.Close _
  | Gui.RtpPacket _ _ => true
  | _ => false
  end.

(** What one thread of a worker can live through: [_run] ends at most
    once, and with its loop closed nothing reaches the worker any more
    but calls of [stop()]. *)
Fixpoint orderly (nts : list Gui.notification) : bool :=
  match nts with
  | [] => true
  | Gui.Ended _ :: rest => forallb is_stop rest
  | _ :: rest => orderly rest
  end.

(** The notifications in which the end point [s] is opened. *)
Definition opens (s : nat) (nt : Gui.notification) : bool :=
  match nt with
  | Gui.Open s' => (s' =? s)%nat
  | _ => false
  end.

(** A list of keys without repetition, as a test. *)
Fixpoint distinct (l : list string) : bool :=
  match l with
  | [] => true
  | k :: rest => negb (mem k rest) && distinct rest
  end.

(** A selection the handlers can register: it holds the mandatory keys,
    repeats none and stays within the catalogue. *)
Definition registrable (CODECS : list (string * entry)) (ks : list string)
    : bool :=
  forallb (fun m => mem m ks) MANDATORY
  && distinct ks
  && forallb (fun k => match lookup CODECS k with
                       | Some _ => true
                       | None => false
                       end) ks.

(** A host on which no session and no reset raises. *)
Definition quiet : Cli.host := Cli.mkHost (fun _ => None) (fun _ => None).

(** A host on which the transport of the second session cannot be
    opened. *)
Definition second_fails : Cli.host :=
  Cli.mkHost (fun n => if (n =? 1)%nat then Some (OSError "No such device")
                       else None)
             (fun _ => None).

(** The sessions run by a series of actions, and the number of resets
    of the radio among them. *)
Definition sessions (acts : list Cli.action) : list (list string * string) :=
  flat_map (fun a => match a with
                     | Cli.Session ks t => [(ks, t)]
                     | _ => []
                     end) acts.

Definition resets (acts : list Cli.action) : nat :=
  List.length (filter (fun a => match a with
                                | Cli.ResetHci => true
                                | _ => false
                                end) acts).

(** What the actions of a run and the exception that ends it, if any,
    have to do with the host, when the first session of the run is the
    [n]-th of the program: without an exception every session was
    followed by its reset and nothing was raised; with an exception [x]
    the last session is the first in which something was raised, either
    [x] by the session, which was then not followed by a reset, or [x]
    by its reset. *)
Definition ends_as (h : Cli.host) (n : nat) (acts : list Cli.action)
    (e : option exn) : Prop :=
  match e with
  | None =>
      resets acts = List.length (sessions acts)
      /\ forall i, (i < List.length (sessions acts))%nat ->
           Cli.session_raises h (n + i) = None
           /\ Cli.reset_raises h (n + i) = None
  | Some x =>
      exists m,
        List.length (sessions acts) = S m
        /\ (forall i, (i < m)%nat ->
              Cli.session_raises h (n + i) = None
              /\ Cli.reset_raises h (n + i) = None)
        /\ (Cli.session_raises h (n + m) = Some x /\ resets acts = m
            \/ Cli.session_raises h (n + m) = None
               /\ Cli.reset_raises h (n + m) = Some x /\ resets acts = S m)
  end.

(** Whether every rate of a table of masks and rates lies in a range. *)
Definition every_rate_between (lo hi : N) (table : list (N * N)) : bool :=
  forallb (fun row => (lo <=? snd row)%N && (snd row <=? hi)%N) table.

(** With live playback off no end point ever gets a packet listener. *)
Definition deaf (st : Gui.state) : Prop :=
  Gui._audio_enabled st = false
  /\ Gui.bytes_recv st = 0%Z
  /\ Forall (fun ep => Gui.rtp_listeners ep = []) (Gui.endpoints st).

(** Every end point carries the one ['open'] and the one ['close']
    listener that [on_avdtp] attached to it. *)
Definition wired (st : Gui.state) : Prop :=
  Forall (fun ep => exists k n,
            Gui.open_listeners ep = [(k, n)] /\ Gui.close_listeners ep = [n])
         (Gui.endpoints st).

(** A stack that adds every sink, one that adds none, and one that
    refuses the sink of LDAC only. *)
Definition accepting : Protocol := mkProtocol (fun _ => None).
Definition refusing : Protocol :=
  mkProtocol (fun _ => Some (ValueError "no free end point")).
Definition refusing_ldac : Protocol :=
  mkProtocol (fun caps =>
    if (le_decode (firstn 4 (media_codec_information caps)) =? 0x12D)%N
    then Some (ValueError "unsupported") else None).

(** A machine on which [ffplay] starts and the dump file opens. *)
Definition machine : Gui.os := Gui.mkOs true true [] [].

(** A session with live playback ticked (or not), registered with the
    mandatory keys, whose SBC end point (the first) has been opened. *)
Definition sbc_opened (audio : bool) : Gui.state :=
  Gui.run ["SBC"; "AAC"] [Gui.Connection accepting; Gui.Open 1]
          (Gui.new_worker true audio machine).

(** A worker whose player is playing: one [ffplay] process with an open
    pipe and one open dump file, both still empty. *)
Definition playing : Gui.state :=
  Gui.set_audio
    (Gui.mkPlayer (Some "ffplay") (Some 0%nat) true (Some 0%nat))
    (Gui.new_worker true true
       (Gui.mkOs true true [Gui.mkProcess true false false []]
                 [Gui.mkFile false false Gui.DEFAULT_BUFFER_SIZE 0 []])).

(** A session registered with [ks] on a stack [p], nothing opened yet. *)
Definition registered (p : Protocol) (ks : list string) (audio : bool)
    : Gui.state :=
  Gui.run ks [Gui.Connection p] (Gui.new_worker true audio machine).

(** The same session with playback on, after the player's reader has
    gone away. *)
Definition reader_gone_state : Gui.state :=
  Gui.set_world
    (Gui.mkOs true true [Gui.mkProcess true false true []]
              [Gui.mkFile false false Gui.DEFAULT_BUFFER_SIZE 0 []])
    (sbc_opened true).


(** * Properties *)

Example parse_aptx_hd_scenario :
  Gui.bit_depth
    (Gui.parse_codec_info "APTX_HD"
       (QUALCOMM ++ [x24; x00; x80; x01; x02; x03; x04])) = Some 24%N.
Proof. reflexivity. Qed.

(** ** Selection of codec keys *)

Lemma mem_In : forall m l, mem m l = true <-> In m l.
Proof.
  intros m l. unfold mem. rewrite existsb_exists. split.
  - intros [x [Hin Heq]]. apply String.eqb_eq in Heq. now subst.
  - intros Hin. exists m. split; [assumption | apply String.eqb_refl].
Qed.

Lemma mem_app : forall m l1 l2, mem m (l1 ++ l2) = mem m l1 || mem m l2.
Proof. intros. unfold mem. apply existsb_app. Qed.

Lemma append_mandatory_eq : forall l,
  append_mandatory l = l ++ filter (fun m => negb (mem m l)) MANDATORY.
Proof.
  intros l. unfold append_mandatory, MANDATORY. cbn [fold_left filter].
  destruct (mem "SBC" l) eqn:Hsbc; cbn [negb].
  - destruct (mem "AAC" l); cbn [negb]; [now rewrite app_nil_r | reflexivity].
  - rewrite mem_app.
    assert (Hx : mem "AAC" ["SBC"] = false) by reflexivity.
    rewrite Hx, orb_false_r.
    destruct (mem "AAC" l); cbn [negb]; [reflexivity |].
    now rewrite <- app_assoc.
Qed.

Lemma append_mandatory_incl : forall l, incl MANDATORY (append_mandatory l).
Proof.
  intros l m Hm. rewrite append_mandatory_eq. apply in_or_app.
  destruct (mem m l) eqn:Hmem.
  - left. now apply mem_In.
  - right. apply filter_In. split; [assumption | now rewrite Hmem].
Qed.

(** C3. [resolve] keeps the requested keys as they came and appends, in
    the order of [MANDATORY], the mandatory keys that were not requested;
    every mandatory key is therefore in the result, and a request for
    [APTX_HD] alone resolves to [APTX_HD], [SBC], [AAC].  The window's
    [_get_keys] does the same with the ticked keys. *)
Theorem resolve_appends_missing_mandatory :
  forall (requested : list string) (vars : list (string * bool)),
    Cli.resolve requested
      = requested ++ filter (fun m => negb (mem m requested)) MANDATORY
    /\ incl MANDATORY (Cli.resolve requested)
    /\ Cli.resolve ["APTX_HD"] = ["APTX_HD"; "SBC"; "AAC"]
    /\ Gui._get_keys vars
         = Cli.resolve (map fst (filter (fun kv => snd kv) vars))
    /\ incl MANDATORY (Gui._get_keys vars).
Proof.
  intros requested vars. unfold Cli.resolve, Gui._get_keys.
  repeat split.
  - apply append_mandatory_eq.
  - apply append_mandatory_incl.
  - apply append_mandatory_incl.
Qed.

Example resolve_keeps_duplicates_and_order :
  Cli.resolve ["LDAC"; "AAC"; "LDAC"] = ["LDAC"; "AAC"; "LDAC"; "SBC"].
Proof. reflexivity. Qed.

Example get_keys_after_preset :
  Gui._get_keys (Gui._preset ["LDAC"] Gui.initial_vars) = ["LDAC"; "SBC"; "AAC"].
Proof. reflexivity. Qed.

(** ** The two catalogues *)

(** C9, as stated, fails: the entries for [APTX_ADAPTIVE] differ as well. *)
Lemma catalogues_differ_on_aptx_adaptive :
  ~ (forall key : string, key <> "LHDC_V3" ->
       lookup Cli.CODECS key = lookup Gui.CODECS key).
Proof.
  intros H. specialize (H "APTX_ADAPTIVE").
  assert (Hne : "APTX_ADAPTIVE" <> "LHDC_V3") by discriminate.
  specialize (H Hne). vm_compute in H. discriminate H.
Qed.

(** C9, amended.  The two catalogues list the same keys in the same
    order and hold the same entry for every key other than [LHDC_V3] and
    [APTX_ADAPTIVE].  For [LHDC_V3] name, type, vendor id and parameter
    tail agree and only the two-byte codec id differs ([33 4C] against
    [48 4C]); for [APTX_ADAPTIVE] name, type, vendor id and codec id
    agree and the ten-byte tail differs in its fourth byte ([01] on the
    command line, [00] in the window). *)
Theorem catalogues_agree_except_two :
  forall key : string,
    key <> "LHDC_V3" -> key <> "APTX_ADAPTIVE" ->
    lookup Cli.CODECS key = lookup Gui.CODECS key
    /\ keys Cli.CODECS = keys Gui.CODECS
    /\ lookup Cli.CODECS "LHDC_V3"
         = Some ("LHDC V3", 0xFF%N, SAVITECH ++ [x33; x4c] ++ [x3e; xf0; x00])
    /\ lookup Gui.CODECS "LHDC_V3"
         = Some ("LHDC V3", 0xFF%N, SAVITECH ++ [x48; x4c] ++ [x3e; xf0; x00])
    /\ lookup Cli.CODECS "APTX_ADAPTIVE"
         = Some ("aptX-Adaptive", 0xFF%N,
                 QUALCOMM ++ [xad; x00]
                   ++ [x00; x00; x00; x01; x00; x00; x00; x00; x00; x00])
    /\ lookup Gui.CODECS "APTX_ADAPTIVE"
         = Some ("aptX-Adaptive", 0xFF%N,
                 QUALCOMM ++ [xad; x00]
                   ++ [x00; x00; x00; x00; x00; x00; x00; x00; x00; x00]).
Proof.
  intros key Hv3 Had.
  split; [| repeat split].
  unfold Cli.CODECS, Gui.CODECS. cbn [lookup].
  repeat match goal with
  | |- context [String.eqb key ?k] =>
      destruct (String.eqb_spec key k); [subst; try reflexivity; congruence |]
  end.
  reflexivity.
Qed.

Lemma catalogues_agree_on_sbc :
  lookup Cli.CODECS "SBC" = lookup Gui.CODECS "SBC".
Proof.
  apply (catalogues_agree_except_two "SBC"); discriminate.
Defined.

(** ** Parsing of negotiated configurations *)

Lemma getitem_in_range : forall (b : bytes) (i : nat),
  (i < List.length b)%nat -> exists v, getitem b i = inr v.
Proof.
  intros b i Hlt. unfold getitem.
  destruct (nth_error b i) as [x |] eqn:Hnth.
  - now exists (Byte.to_N x).
  - apply nth_error_None in Hnth. lia.
Qed.

Ltac getitem_ok b i :=
  let v := fresh "v" in
  let Hv := fresh "Hv" in
  destruct (getitem_in_range b i) as [v Hv]; [lia | rewrite Hv].

Lemma parse_body_no_exception : forall codec_key b,
  snd (Gui.parse_body codec_key b) = None.
Proof.
  intros codec_key b. unfold Gui.parse_body.
  destruct (String.eqb codec_key "SBC" && (4 <=? List.length b)%nat) eqn:H1.
  { apply andb_prop in H1 as [_ H1]. apply Nat.leb_le in H1.
    getitem_ok b 0%nat. reflexivity. }
  destruct (String.eqb codec_key "AAC" && (2 <=? List.length b)%nat) eqn:H2.
  { apply andb_prop in H2 as [_ H2]. apply Nat.leb_le in H2.
    getitem_ok b 0%nat. getitem_ok b 1%nat. reflexivity. }
  destruct (String.eqb codec_key "LDAC" && (8 <=? List.length b)%nat) eqn:H3.
  { apply andb_prop in H3 as [_ H3]. apply Nat.leb_le in H3.
    getitem_ok b 6%nat. getitem_ok b 7%nat. reflexivity. }
  destruct (String.prefix "LHDC" codec_key && (7 <=? List.length b)%nat) eqn:H4.
  { apply andb_prop in H4 as [_ H4]. apply Nat.leb_le in H4.
    getitem_ok b 6%nat. reflexivity. }
  destruct (String.prefix "APTX" codec_key && (7 <=? List.length b)%nat) eqn:H5.
  { apply andb_prop in H5 as [_ H5]. apply Nat.leb_le in H5.
    getitem_ok b 6%nat. reflexivity. }
  reflexivity.
Qed.

Lemma scan_rates_keeps_rest : forall table v r,
  Gui.bit_depth (Gui.scan_rates table v r) = Gui.bit_depth r
  /\ Gui.max_kbps (Gui.scan_rates table v r) = Gui.max_kbps r.
Proof.
  induction table as [| [mask hz] rest IH]; intros v r; cbn [Gui.scan_rates].
  - split; reflexivity.
  - destruct (negb (N.land v mask =? 0)%N); [split; reflexivity | apply IH].
Qed.

Lemma parse_too_short : forall codec_key b,
  Gui.too_short codec_key b = true ->
  Gui.parse_codec_info codec_key b = Gui.empty_info.
Proof.
  intros codec_key b. unfold Gui.too_short, Gui.required_length,
    Gui.parse_codec_info, Gui.parse_body.
  destruct (String.eqb codec_key "SBC") eqn:E1.
  { intros H. apply Nat.ltb_lt in H. apply String.eqb_eq in E1. subst.
    replace (4 <=? List.length b)%nat with false
      by (symmetry; apply Nat.leb_gt; lia).
    reflexivity. }
  destruct (String.eqb codec_key "AAC") eqn:E2.
  { intros H. apply Nat.ltb_lt in H. apply String.eqb_eq in E2. subst.
    replace (2 <=? List.length b)%nat with false
      by (symmetry; apply Nat.leb_gt; lia).
    reflexivity. }
  destruct (String.eqb codec_key "LDAC") eqn:E3.
  { intros H. apply Nat.ltb_lt in H. apply String.eqb_eq in E3. subst.
    replace (8 <=? List.length b)%nat with false
      by (symmetry; apply Nat.leb_gt; lia).
    reflexivity. }
  cbn [andb].
  destruct (String.prefix "LHDC" codec_key) eqn:E4.
  { intros H. apply Nat.ltb_lt in H.
    replace (7 <=? List.length b)%nat with false
      by (symmetry; apply Nat.leb_gt; lia).
    rewrite !andb_false_r. reflexivity. }
  destruct (String.prefix "APTX" codec_key) eqn:E5.
  { intros H. apply Nat.ltb_lt in H.
    replace (7 <=? List.length b)%nat with false
      by (symmetry; apply Nat.leb_gt; lia).
    reflexivity. }
  reflexivity.
Qed.

Lemma parse_long_enough : forall codec_key b,
  Gui.too_short codec_key b = false ->
  Gui.bit_depth (Gui.parse_codec_info codec_key b) <> None
  /\ Gui.max_kbps (Gui.parse_codec_info codec_key b) <> None.
Proof.
  intros codec_key b. unfold Gui.too_short, Gui.required_length,
    Gui.parse_codec_info, Gui.parse_body.
  destruct (String.eqb codec_key "SBC") eqn:E1.
  { intros H. apply Nat.ltb_ge in H.
    replace (4 <=? List.length b)%nat with true
      by (symmetry; apply Nat.leb_le; lia).
    cbn [andb]. getitem_ok b 0%nat. cbn. split; discriminate. }
  destruct (String.eqb codec_key "AAC") eqn:E2.
  { intros H. apply Nat.ltb_ge in H.
    replace (2 <=? List.length b)%nat with true
      by (symmetry; apply Nat.leb_le; lia).
    cbn [andb]. getitem_ok b 0%nat. getitem_ok b 1%nat. cbn.
    split; discriminate. }
  destruct (String.eqb codec_key "LDAC") eqn:E3.
  { intros H. apply Nat.ltb_ge in H.
    replace (8 <=? List.length b)%nat with true
      by (symmetry; apply Nat.leb_le; lia).
    cbn [andb]. getitem_ok b 6%nat. getitem_ok b 7%nat. cbn.
    split; discriminate. }
  cbn [andb].
  destruct (String.prefix "LHDC" codec_key) eqn:E4.
  { intros H. apply Nat.ltb_ge in H.
    replace (7 <=? List.length b)%nat with true
      by (symmetry; apply Nat.leb_le; lia).
    cbn [andb]. getitem_ok b 6%nat. cbn. split; discriminate. }
  destruct (String.prefix "APTX" codec_key) eqn:E5.
  { intros H. apply Nat.ltb_ge in H.
    replace (7 <=? List.length b)%nat with true
      by (symmetry; apply Nat.leb_le; lia).
    cbn [andb]. getitem_ok b 6%nat. cbn. split; discriminate. }
  discriminate.
Qed.

(** C8. For every key and every payload, empty and truncated ones
    included, no statement inside the [try] of [parse_codec_info]
    raises, so a dictionary is always returned.  When the payload is
    shorter than the branch of the key requires (or no branch takes the
    key) the dictionary is empty; otherwise it holds at least the bit
    depth and the bitrate ceiling. *)
Theorem parse_codec_info_never_raises :
  forall (codec_key : string) (payload : bytes),
    snd (Gui.parse_body codec_key payload) = None
    /\ Gui.parse_codec_info codec_key [] = Gui.empty_info
    /\ (Gui.too_short codec_key payload = true ->
        Gui.parse_codec_info codec_key payload = Gui.empty_info)
    /\ (Gui.too_short codec_key payload = false ->
        Gui.bit_depth (Gui.parse_codec_info codec_key payload) <> None
        /\ Gui.max_kbps (Gui.parse_codec_info codec_key payload) <> None).
Proof.
  intros codec_key payload. split; [apply parse_body_no_exception |].
  split; [| split; [apply parse_too_short | apply parse_long_enough]].
  apply parse_too_short. unfold Gui.too_short.
  destruct (Gui.required_length codec_key) as [n |] eqn:Hn; [| reflexivity].
  unfold Gui.required_length in Hn.
  repeat match type of Hn with
  | (if ?c then _ else _) = _ => destruct c
  end; inversion Hn; reflexivity.
Qed.

Lemma parse_truncated_and_full_sbc :
  Gui.parse_codec_info "SBC" [xff; xff; x02] = Gui.empty_info
  /\ Gui.bit_depth (Gui.parse_codec_info "SBC" [xff; xff; x02; x35]) <> None.
Proof.
  split.
  - apply (parse_codec_info_never_raises "SBC" [xff; xff; x02]). reflexivity.
  - apply (parse_codec_info_never_raises "SBC" [xff; xff; x02; x35]). reflexivity.
Defined.

Example parse_truncated_ldac :
  Gui.parse_codec_info "LDAC" (SONY ++ [xaa; x00; x3c]) = Gui.empty_info.
Proof. reflexivity. Qed.

Example parse_ldac_catalogue :
  Gui.parse_codec_info "LDAC" (SONY ++ [xaa; x00; x3c; x07])
  = Gui.mkInfo (Some 44100%N) (Some 24%N) (Some 990%N).
Proof. reflexivity. Qed.

(** ** Acceptance of proposed configurations *)

Lemma to_N_inj : forall x y : byte, Byte.to_N x = Byte.to_N y -> x = y.
Proof.
  intros x y H.
  assert (Hs : Some x = Some y).
  { rewrite <- (Byte.of_to_N x), <- (Byte.of_to_N y). now rewrite H. }
  now inversion Hs.
Qed.

Lemma to_N_lt : forall x : byte, (Byte.to_N x < 256)%N.
Proof. intros x. pose proof (Byte.to_N_bounded x). lia. Qed.

Lemma le_decode_cons : forall x rest,
  le_decode (x :: rest) = (Byte.to_N x + 256 * le_decode rest)%N.
Proof. reflexivity. Qed.

Lemma le_decode_nil : le_decode [] = 0%N.
Proof. reflexivity. Qed.

(** The six leading bytes are determined by the two decoded ids. *)
Lemma vendor_ids_determine_prefix : forall (adv prop : bytes) a p,
  vendor_from_bytes adv = inr a ->
  vendor_from_bytes prop = inr p ->
  (vendor_id p = vendor_id a /\ codec_id p = codec_id a
   <-> firstn 6 prop = firstn 6 adv).
Proof.
  intros adv prop a p Ha Hp. unfold vendor_from_bytes in Ha, Hp.
  destruct (6 <=? List.length adv)%nat eqn:La; [| discriminate].
  destruct (6 <=? List.length prop)%nat eqn:Lp; [| discriminate].
  apply Nat.leb_le in La, Lp.
  injection Ha as <-. injection Hp as <-.
  destruct adv as [| a0 [| a1 [| a2 [| a3 [| a4 [| a5 ta]]]]]]; cbn in La; try lia.
  destruct prop as [| p0 [| p1 [| p2 [| p3 [| p4 [| p5 tp]]]]]]; cbn in Lp; try lia.
  cbn [vendor_id codec_id firstn skipn].
  rewrite !le_decode_cons, !le_decode_nil.
  pose proof (to_N_lt a0). pose proof (to_N_lt a1). pose proof (to_N_lt a2).
  pose proof (to_N_lt a3). pose proof (to_N_lt a4). pose proof (to_N_lt a5).
  pose proof (to_N_lt p0). pose proof (to_N_lt p1). pose proof (to_N_lt p2).
  pose proof (to_N_lt p3). pose proof (to_N_lt p4). pose proof (to_N_lt p5).
  split.
  - intros [Hv Hc].
    assert (Byte.to_N p0 = Byte.to_N a0) by lia.
    assert (Byte.to_N p1 = Byte.to_N a1) by lia.
    assert (Byte.to_N p2 = Byte.to_N a2) by lia.
    assert (Byte.to_N p3 = Byte.to_N a3) by lia.
    assert (Byte.to_N p4 = Byte.to_N a4) by lia.
    assert (Byte.to_N p5 = Byte.to_N a5) by lia.
    repeat match goal with
    | E : Byte.to_N _ = Byte.to_N _ |- _ => apply to_N_inj in E
    end.
    now subst.
  - intros E. inversion E. split; reflexivity.
Qed.

Lemma check_accepts_iff : forall self c,
  accepted (Cli._check self (VendorInformation c)) = true
  <-> vendor_id c = vendor_id self /\ codec_id c = codec_id self.
Proof.
  intros self c. unfold Cli._check.
  destruct (vendor_id c =? vendor_id self)%N eqn:Ev; cbn [negb].
  - destruct (codec_id c =? codec_id self)%N eqn:Ec; cbn [negb accepted].
    + apply N.eqb_eq in Ev, Ec. tauto.
    + apply N.eqb_neq in Ec. split; [discriminate | tauto].
  - apply N.eqb_neq in Ev. cbn [accepted]. split; [discriminate | tauto].
Qed.

(** C1, as stated, fails in the window variant: an [aptX-HD] sink
    accepts a proposal carrying Sony's vendor id and the LDAC codec id. *)
Lemma permissive_check_accepts_foreign_ids :
  let advertised := mkCaps "AUDIO" 0xFF%N (QUALCOMM ++ [x24; x00; xff; x00; x00; x00; x00]) in
  let proposed := SONY ++ [xaa; x00; x3c; x07] in
  let strict := fun (_ : MediaCodecCapabilities) (_ : bytes) =>
                  inl (ValueError "rejected") : exn + unit in
  lookup Gui.CODECS "APTX_HD"
    = Some ("aptX-HD", media_codec_type advertised,
            media_codec_information advertised)
  /\ firstn 4 proposed <> firstn 4 (media_codec_information advertised)
  /\ firstn 2 (skipn 4 proposed)
       <> firstn 2 (skipn 4 (media_codec_information advertised))
  /\ accepted (Gui._permissive_check bytes strict advertised proposed) = true.
Proof.
  cbv zeta. repeat split; try reflexivity; vm_compute; discriminate.
Qed.

(** C1, amended.  On the command line, a vendor descriptor accepts a
    proposed vendor configuration exactly when vendor id and codec id
    are those of the descriptor, that is when the six leading bytes
    coincide; the parameter tail is not looked at, and a proposal that
    has no vendor id attribute at all is accepted.  In the window, a
    descriptor of vendor type accepts every proposal, whatever its
    ids. *)
Theorem vendor_check_policy :
  forall (advertised proposed : bytes) (a p : VendorMediaCodecInformation)
         (Configuration : Type)
         (orig_check : MediaCodecCapabilities -> Configuration -> exn + unit)
         (configuration : Configuration),
    vendor_from_bytes advertised = inr a ->
    vendor_from_bytes proposed = inr p ->
    (accepted (Cli._check a (VendorInformation p)) = true
       <-> vendor_id p = vendor_id a /\ codec_id p = codec_id a)
    /\ (accepted (Cli._check a (VendorInformation p)) = true
       <-> firstn 6 proposed = firstn 6 advertised)
    /\ accepted (Cli._check a (OtherInformation proposed)) = true
    /\ accepted (Gui._permissive_check Configuration orig_check
                   (mkCaps "AUDIO" 0xFF%N advertised) configuration) = true.
Proof.
  intros advertised proposed a p Configuration orig_check configuration Ha Hp.
  split; [apply check_accepts_iff |].
  split; [| split; reflexivity].
  rewrite check_accepts_iff. now apply vendor_ids_determine_prefix.
Qed.

Lemma aptx_hd_accepts_other_tail :
  accepted
    (Cli._check (mkVendor 0xD0%N 0x24%N [xff; x00; x00; x00; x00])
                (VendorInformation (mkVendor 0xD0%N 0x24%N [x11; x22])))
  = true.
Proof.
  apply (vendor_check_policy
           (QUALCOMM ++ [x24; x00; xff; x00; x00; x00; x00])
           (QUALCOMM ++ [x24; x00; x11; x22])
           (mkVendor 0xD0%N 0x24%N [xff; x00; x00; x00; x00])
           (mkVendor 0xD0%N 0x24%N [x11; x22])
           bytes (fun _ _ => inr tt) []); reflexivity.
Defined.

Example check_rejects_other_codec_id :
  Cli._check (mkVendor 0x53A%N 0x4C33%N [x3e; xf0; x00])
             (VendorInformation (mkVendor 0x53A%N 0x4C48%N [x3e; xf0; x00]))
  = inl (ValueError "codec_id mismatch").
Proof. reflexivity. Qed.

(** ** The connection handler is latched *)

Lemma cli_register_keeps_latch : forall p ks seids st,
  Cli.fired (fst (fst (Cli.register p ks seids st))) = Cli.fired st.
Proof.
  intros p ks. induction ks as [| key rest IH]; intros seids st;
    cbn [Cli.register]; [reflexivity |].
  destruct (lookup Cli.CODECS key) as [[[name mct] info] |]; [| reflexivity].
  destruct (add_sink p _ _); rewrite IH; reflexivity.
Qed.

Lemma cli_latch_set : forall ks p st,
  Cli.fired (fst (Cli.on_connection ks p st)) = true.
Proof.
  intros ks p st. unfold Cli.on_connection.
  destruct (Cli.fired st) eqn:Hf; [assumption |].
  destruct (names_of Cli.CODECS ks); [reflexivity |].
  match goal with
  | |- context [Cli.register ?a ?b ?c ?d] =>
      pose proof (cli_register_keeps_latch a b c d) as Hk;
      destruct (Cli.register a b c d) as [[st1 seids] [e |]]
  end; cbn [fst] in Hk |- *; [assumption |].
  destruct (Cli.primary ks); cbn [fst Cli.print Cli.fired]; assumption.
Qed.

Lemma cli_later_connections_ignored : forall ks ps st,
  Cli.fired st = true -> Cli.notify ks ps st = st.
Proof.
  intros ks ps. induction ps as [| p rest IH]; intros st Hf;
    cbn [Cli.notify]; [reflexivity |].
  unfold Cli.on_connection at 1. rewrite Hf. cbn [fst]. now apply IH.
Qed.

Lemma gui_register_keeps : forall p ks st,
  let st' := fst (Gui.register p ks st) in
  Gui.fired st' = Gui.fired st
  /\ Gui.stop_event st' = Gui.stop_event st
  /\ Gui.bytes_recv st' = Gui.bytes_recv st
  /\ Gui.prev st' = Gui.prev st
  /\ Gui._audio st' = Gui._audio st
  /\ Gui._audio_enabled st' = Gui._audio_enabled st
  /\ Gui.world st' = Gui.world st.
Proof.
  intros p ks. induction ks as [| key rest IH]; intros st;
    cbn [Gui.register]; [cbn; tauto |].
  destruct (lookup Gui.CODECS key) as [[[name mct] info] |]; [| cbn; tauto].
  destruct (add_sink p _ _);
    match goal with
    | |- context [Gui.register p rest ?s] => specialize (IH s)
    end; cbn zeta in IH; exact IH.
Qed.

Lemma gui_on_avdtp_keeps : forall ks p st,
  let st' := fst (Gui.on_avdtp ks p st) in
  Gui.stop_event st' = Gui.stop_event st
  /\ Gui.bytes_recv st' = Gui.bytes_recv st
  /\ Gui.prev st' = Gui.prev st
  /\ Gui._audio st' = Gui._audio st
  /\ Gui._audio_enabled st' = Gui._audio_enabled st
  /\ Gui.world st' = Gui.world st.
Proof.
  intros ks p st. unfold Gui.on_avdtp.
  destruct (Gui.fired st); [cbn; tauto |].
  destruct (names_of Gui.CODECS ks); [cbn; tauto |].
  match goal with
  | |- context [Gui.register ?a ?b ?c] =>
      pose proof (gui_register_keeps a b c) as Hk;
      destruct (Gui.register a b c) as [st1 [e |]]
  end; cbn in Hk |- *; tauto.
Qed.

Lemma gui_latch_set : forall ks p st,
  Gui.fired (fst (Gui.on_avdtp ks p st)) = true.
Proof.
  intros ks p st. unfold Gui.on_avdtp.
  destruct (Gui.fired st) eqn:Hf; [assumption |].
  destruct (names_of Gui.CODECS ks); [reflexivity |].
  match goal with
  | |- context [Gui.register ?a ?b ?c] =>
      pose proof (gui_register_keeps a b c) as Hk;
      destruct (Gui.register a b c) as [st1 [e |]]
  end; cbn in Hk |- *; tauto.
Qed.

Lemma gui_register_keeps_loop : forall p ks st,
  let st' := fst (Gui.register p ks st) in
  Gui.loop_closed st' = Gui.loop_closed st
  /\ Gui.sampler_done st' = Gui.sampler_done st.
Proof.
  intros p ks. induction ks as [| key rest IH]; intros st;
    cbn [Gui.register]; [cbn; tauto |].
  destruct (lookup Gui.CODECS key) as [[[name mct] info] |]; [| cbn; tauto].
  destruct (add_sink p _ _);
    match goal with
    | |- context [Gui.register p rest ?s] => specialize (IH s)
    end; cbn zeta in IH; exact IH.
Qed.

Lemma gui_on_avdtp_keeps_loop : forall ks p st,
  let st' := fst (Gui.on_avdtp ks p st) in
  Gui.loop_closed st' = Gui.loop_closed st
  /\ Gui.sampler_done st' = Gui.sampler_done st.
Proof.
  intros ks p st. unfold Gui.on_avdtp.
  destruct (Gui.fired st); [cbn; tauto |].
  destruct (names_of Gui.CODECS ks); [cbn; tauto |].
  match goal with
  | |- context [Gui.register ?a ?b ?c] =>
      pose proof (gui_register_keeps_loop a b c) as Hk;
      destruct (Gui.register a b c) as [st1 [e |]]
  end; cbn in Hk |- *; tauto.
Qed.

Lemma gui_later_connections_ignored : forall ks ps st,
  Gui.fired st = true -> Gui.run ks (map Gui.Connection ps) st = st.
Proof.
  intros ks ps. unfold Gui.run.
  induction ps as [| p rest IH]; intros st Hf; cbn [map fold_left];
    [reflexivity |].
  assert (Hh : Gui.handle ks (Gui.Connection p) st = st).
  { unfold Gui.handle, Gui.on_avdtp. now rewrite Hf. }
  rewrite Hh. now apply IH.
Qed.

(** ** The bitrate sampler *)

Lemma kbps_of_eq : forall delta : Z, (Gui.kbps_of delta == (delta * 8) # 1000)%Q.
Proof.
  intros delta. unfold Gui.kbps_of, Qdiv, Qinv, Qmult, Qeq, inject_Z; cbn.
  lia.
Qed.


Example ten_packets_of_thousand_bytes : (Gui.kbps_of 10000 == 80)%Q.
Proof. reflexivity. Qed.

(** ** The relay: stopping the player *)

Lemma nth_error_alter_same : forall (A : Type) (f : A -> A) (i : nat) (l : list A),
  nth_error (Gui.alter f i l) i = option_map f (nth_error l i).
Proof.
  intros A f i l. revert i.
  induction l as [| x rest IH]; intros [| j]; cbn; try reflexivity.
  apply IH.
Qed.

Lemma stop_releases : forall st : Gui.state,
  let st' := Gui.stop st in
  Gui.active (Gui._audio st') = false
  /\ Gui._proc (Gui._audio st') = None
  /\ Gui.dump_file (Gui._audio st') = None
  /\ Gui._q st' = Gui._q st
  /\ Gui.bytes_recv st' = Gui.bytes_recv st
  /\ (forall p, Gui._proc (Gui._audio st) = Some p ->
        Gui.terminated (Gui.world st') p = true)
  /\ (forall f, Gui.dump_file (Gui._audio st) = Some f ->
        Gui.file_closed (Gui.world st') f = true).
Proof.
  intros [q br [backend pr ac df] ae se fi eps pv w lc sd].
  destruct pr as [p |], df as [f |]; cbn;
    repeat split; try discriminate; intros x Hx; inversion Hx; subst x;
    unfold Gui.terminated, Gui.file_closed; cbn;
    rewrite ?nth_error_alter_same;
    try (destruct (nth_error (Gui.files w) f); reflexivity).
  - destruct (nth_error (Gui.procs w) p); reflexivity.
  - destruct (nth_error (Gui.procs w) p); reflexivity.
Qed.




(** ** The relay: the two sinks *)

Lemma stdin_write_failure_keeps_world : forall w p data e,
  snd (Gui.stdin_write w p data) = inl e -> fst (Gui.stdin_write w p data) = w.
Proof.
  intros w p data e. unfold Gui.stdin_write.
  destruct (nth_error (Gui.procs w) p) as [pr |]; [| reflexivity].
  destruct (Gui.stdin_closed pr); [reflexivity |].
  destruct (Gui.reader_gone pr || negb (Gui.running pr)); [reflexivity |].
  discriminate.
Qed.

Lemma write_keeps_counter : forall data st,
  Gui.bytes_recv (Gui.write data st) = Gui.bytes_recv st
  /\ Gui.stop_event (Gui.write data st) = Gui.stop_event st
  /\ Gui.endpoints (Gui.write data st) = Gui.endpoints st.
Proof.
  intros data st. unfold Gui.write.
  destruct (Gui._proc (Gui._audio st)) as [p |]; [| tauto].
  destruct (Gui.active (Gui._audio st) && Gui.poll_is_None (Gui.world st) p);
    [| tauto].
  destruct (Gui.stdin_write (Gui.world st) p data) as [w [e | u]];
    [cbn; tauto |].
  cbn [Gui.set_world Gui._audio Gui.world].
  destruct (Gui.dump_file (Gui._audio st)) as [f |]; [| cbn; tauto].
  destruct (Gui.file_write w f data) as [w' [e | u']]; cbn; tauto.
Qed.

Lemma write_when_inactive : forall data st,
  Gui.active (Gui._audio st) = false -> Gui.write data st = st.
Proof.
  intros data st Ha. unfold Gui.write. rewrite Ha.
  destruct (Gui._proc (Gui._audio st)); reflexivity.
Qed.

Lemma on_rtp_counts : forall k payload st,
  Gui.bytes_recv (Gui._on_rtp k payload st)
  = (Gui.bytes_recv st + Z.of_nat (List.length payload))%Z.
Proof.
  intros k payload st. unfold Gui._on_rtp. cbn [Gui.set_bytes_recv Gui.bytes_recv].
  destruct (String.eqb k "SBC" && (1 <? List.length payload)%nat);
    [| reflexivity].
  now rewrite (proj1 (write_keeps_counter _ st)).
Qed.

(** C4.  The code where the claim fails: the SBC end point is open with
    live playback on, the dump file is open and empty, and the pipe to
    the player has lost its reader.  The first packet is counted, the
    pipe error is logged and the player is marked inactive, but nothing
    reaches the dump file, neither from this packet nor from the next
    one, although both are counted. *)
Lemma broken_pipe_starves_dump :
  let first := [x9c; x01; x02] in
  let second := [x9c; x03; x04] in
  let st1 := Gui.handle ["SBC"; "AAC"] (Gui.RtpPacket 1 first) reader_gone_state in
  let st2 := Gui.handle ["SBC"; "AAC"] (Gui.RtpPacket 1 second) st1 in
  Gui.dump_file (Gui._audio reader_gone_state) = Some 0%nat
  /\ Gui.file_closed (Gui.world reader_gone_state) 0 = false
  /\ Gui.active (Gui._audio reader_gone_state) = true
  /\ Gui.bytes_recv st1 = 3%Z
  /\ Gui._q st1
       = Gui._q reader_gone_state
           ++ [Gui.LOG "Audio pipe error: Broken pipe" "error"]
  /\ Gui.active (Gui._audio st1) = false
  /\ Gui.dumped (Gui.world st1) 0 = []
  /\ Gui.bytes_recv st2 = 6%Z
  /\ Gui.dumped (Gui.world st2) 0 = []
  /\ Gui._q st2 = Gui._q st1.
Proof. vm_compute. repeat split. Qed.

(** What the failure means for the sinks: neither the pipe nor the dump
    file receives the packet, nor any later one. *)
Lemma playback_failure_starves_both_sinks :
  forall (payload later : bytes) (st : Gui.state) (p : nat) (e : exn),
    Gui._proc (Gui._audio st) = Some p ->
    Gui.active (Gui._audio st) = true ->
    Gui.poll_is_None (Gui.world st) p = true ->
    (1 < List.length payload)%nat ->
    snd (Gui.stdin_write (Gui.world st) p (skipn 1 payload)) = inl e ->
    Gui.world (Gui._on_rtp "SBC" payload st) = Gui.world st
    /\ Gui.world (Gui._on_rtp "SBC" later (Gui._on_rtp "SBC" payload st))
         = Gui.world st.
Proof.
  intros payload later st p e Hp Ha Hpoll Hlen Hw.
  pose proof (stdin_write_failure_keeps_world _ _ _ _ Hw) as Hk.
  assert (Hst : Gui._on_rtp "SBC" payload st
                = Gui.set_bytes_recv
                    (Gui.bytes_recv st + Z.of_nat (List.length payload))%Z
                    (Gui.pipe_error e st)).
  { unfold Gui._on_rtp.
    apply Nat.ltb_lt in Hlen. rewrite Hlen. cbn [String.eqb Ascii.eqb Bool.eqb andb].
    unfold Gui.write. rewrite Hp, Ha, Hpoll. cbn [andb].
    destruct (Gui.stdin_write (Gui.world st) p (skipn 1 payload)) as [w r].
    cbn [fst snd] in Hk, Hw. subst w r.
    destruct st as [q br a ae se fi eps pv w lc sd]. reflexivity. }
  split; [rewrite Hst; reflexivity |].
  unfold Gui._on_rtp at 1.
  destruct (String.eqb "SBC" "SBC" && (1 <? List.length later)%nat);
    [rewrite write_when_inactive |]; rewrite Hst; reflexivity.
Qed.

(** What a failing pipe does not stop: when writing a packet to the
    player's pipe raises, the error is logged, the player is marked
    inactive and the session goes on: nothing else is put on the queue,
    the stop flag is untouched, and the packet is still counted, as is
    every later packet. *)
Lemma playback_failure_degrades :
  forall (payload : bytes) (st : Gui.state) (p : nat) (e : exn),
    Gui._proc (Gui._audio st) = Some p ->
    Gui.active (Gui._audio st) = true ->
    Gui.poll_is_None (Gui.world st) p = true ->
    (1 < List.length payload)%nat ->
    snd (Gui.stdin_write (Gui.world st) p (skipn 1 payload)) = inl e ->
    let st' := Gui._on_rtp "SBC" payload st in
    Gui.active (Gui._audio st') = false
    /\ Gui.bytes_recv st'
         = (Gui.bytes_recv st + Z.of_nat (List.length payload))%Z
    /\ Gui._q st'
         = Gui._q st ++ [Gui.LOG ("Audio pipe error: " ++ str_exn e)%string "error"]
    /\ Gui.stop_event st' = Gui.stop_event st
    /\ (forall later : bytes,
          Gui.bytes_recv (Gui._on_rtp "SBC" later st')
            = (Gui.bytes_recv st' + Z.of_nat (List.length later))%Z).
Proof.
  intros payload st p e Hp Ha Hpoll Hlen Hw st'.
  pose proof (stdin_write_failure_keeps_world _ _ _ _ Hw) as Hk.
  assert (Hst : st' = Gui.set_bytes_recv
                        (Gui.bytes_recv st + Z.of_nat (List.length payload))%Z
                        (Gui.pipe_error e st)).
  { unfold st', Gui._on_rtp.
    apply Nat.ltb_lt in Hlen. rewrite Hlen. cbn [String.eqb Ascii.eqb Bool.eqb andb].
    unfold Gui.write. rewrite Hp, Ha, Hpoll. cbn [andb].
    destruct (Gui.stdin_write (Gui.world st) p (skipn 1 payload)) as [w r].
    cbn [fst snd] in Hk, Hw. subst w r.
    destruct st as [q br a ae se fi eps pv w lc sd]. reflexivity. }
  repeat split; try (rewrite Hst; reflexivity).
  intros later. apply on_rtp_counts.
Qed.

Lemma broken_pipe_is_survived :
  Gui.active
    (Gui._audio (Gui._on_rtp "SBC" [x9c; x01; x02] reader_gone_state)) = false
  /\ Gui.bytes_recv (Gui._on_rtp "SBC" [x9c; x01; x02] reader_gone_state) = 3%Z.
Proof.
  pose proof (playback_failure_degrades [x9c; x01; x02] reader_gone_state 0
                (OSError "Broken pipe") eq_refl eq_refl eq_refl) as H.
  cbv zeta in H.
  destruct H as (Ha & Hb & _); [cbn; lia | reflexivity |].
  split; [exact Ha | exact Hb].
Defined.

(** ** The relay: counting packets *)

Lemma start_keeps : forall sr ch k st,
  Gui.bytes_recv (Gui.start sr ch k st) = Gui.bytes_recv st
  /\ Gui.stop_event (Gui.start sr ch k st) = Gui.stop_event st
  /\ Gui.endpoints (Gui.start sr ch k st) = Gui.endpoints st
  /\ Gui._audio_enabled (Gui.start sr ch k st) = Gui._audio_enabled st.
Proof.
  intros sr ch k st. unfold Gui.start.
  destruct (Gui._backend (Gui._audio st)); [| cbn; tauto].
  destruct (negb (String.eqb k "SBC")); [cbn; tauto |].
  destruct (Gui.Popen (Gui.world st)) as [w [e | p]]; [cbn; tauto |].
  cbn [Gui.set_world Gui.set_audio Gui.world Gui._audio].
  destruct (Gui.open_wb w) as [w' [e | f]]; cbn; tauto.
Qed.

Lemma start_ignores_other_codecs : forall sr ch k st,
  k <> "SBC" ->
  Gui._audio (Gui.start sr ch k st) = Gui._audio st
  /\ Gui.world (Gui.start sr ch k st) = Gui.world st.
Proof.
  intros sr ch k st Hk. unfold Gui.start.
  destruct (Gui._backend (Gui._audio st)); [| cbn; tauto].
  destruct (String.eqb_spec k "SBC") as [E | _]; [contradiction |].
  cbn; tauto.
Qed.

Lemma stop_keeps : forall st,
  Gui.endpoints (Gui.stop st) = Gui.endpoints st
  /\ Gui._audio_enabled (Gui.stop st) = Gui._audio_enabled st
  /\ Gui.stop_event (Gui.stop st) = Gui.stop_event st.
Proof.
  intros [q br [backend pr ac df] ae se fi eps pv w lc sd].
  destruct pr, df; cbn; tauto.
Qed.

Lemma find_after_on_rtp_packet : forall s k eps ep,
  find (fun x => (Gui.seid x =? s)%nat) eps = Some ep ->
  option_map Gui.rtp_listeners
    (find (fun x => (Gui.seid x =? s)%nat)
       (map (fun x =>
               if (Gui.seid x =? s)%nat then
                 Gui.mkEndpoint (Gui.seid x) (Gui.capabilities x)
                   (Gui.configuration x) (Gui.open_listeners x)
                   (Gui.close_listeners x) (Gui.rtp_listeners x ++ [k])
               else x) eps))
  = Some (Gui.rtp_listeners ep ++ [k]).
Proof.
  intros s k eps ep. induction eps as [| x rest IH]; cbn [find map];
    [discriminate |].
  destruct (Gui.seid x =? s)%nat eqn:E; cbn [Gui.seid]; rewrite E.
  - intros H. inversion H. reflexivity.
  - exact IH.
Qed.

Lemma open_attaches_one_listener : forall ks s k n st,
  Gui._audio_enabled st = true ->
  Gui.listeners Gui.open_listeners s st = [(k, n)] ->
  let opened := Gui.handle ks (Gui.Open s) st in
  Gui.bytes_recv opened = Gui.bytes_recv st
  /\ Gui.stop_event opened = Gui.stop_event st
  /\ Gui.listeners Gui.rtp_listeners s opened
       = Gui.listeners Gui.rtp_listeners s st ++ [k]
  /\ (k <> "SBC" ->
      Gui._audio opened = Gui._audio st /\ Gui.world opened = Gui.world st).
Proof.
  intros ks s k n st Ha Hl opened.
  assert (Hfind : exists ep, Gui.find_endpoint s st = Some ep).
  { unfold Gui.listeners in Hl.
    destruct (Gui.find_endpoint s st) as [ep |]; [now exists ep | discriminate]. }
  destruct Hfind as [ep Hep].
  assert (E : opened = Gui._on_open k n s st).
  { unfold opened, Gui.handle. rewrite Hl. reflexivity. }
  rewrite E. clear E opened. unfold Gui._on_open.
  cbn [Gui._emit Gui.set_q Gui._audio_enabled]. rewrite Ha.
  match goal with
  | |- context [Gui.start ?sr ?ch k ?st0] =>
      pose proof (start_keeps sr ch k st0) as (Kb & Ks & Ke & _);
      pose proof (start_ignores_other_codecs sr ch k st0) as Ko;
      remember (Gui.start sr ch k st0) as started eqn:Hstarted
  end.
  cbn [Gui._emit Gui.set_q Gui.bytes_recv Gui.stop_event Gui.endpoints] in Kb, Ks, Ke.
  unfold Gui.on_rtp_packet, Gui.listeners, Gui.find_endpoint.
  cbn [Gui.set_endpoints Gui.bytes_recv Gui.stop_event Gui.endpoints
       Gui._audio Gui.world].
  rewrite Ke. unfold Gui.find_endpoint in Hep. rewrite Hep.
  pose proof (find_after_on_rtp_packet s k _ _ Hep) as Hf.
  repeat split.
  - exact Kb.
  - exact Ks.
  - destruct (find _ (map _ (Gui.endpoints st))) as [ep' |];
      cbn [option_map] in Hf; [now inversion Hf | discriminate].
  - now apply Ko.
  - now apply Ko.
Qed.

Lemma fold_left_preserves : forall (A B : Type) (P : A -> Prop) (f : A -> B -> A)
    (l : list B) (a : A),
  (forall a b, P a -> P (f a b)) -> P a -> P (fold_left f l a).
Proof.
  intros A B P f l. induction l as [| b rest IH]; intros a Hf Ha; cbn [fold_left].
  - exact Ha.
  - apply IH; [exact Hf | now apply Hf].
Qed.

Lemma register_adds_deaf_endpoints : forall p ks st,
  Forall (fun ep => Gui.rtp_listeners ep = []) (Gui.endpoints st) ->
  Forall (fun ep => Gui.rtp_listeners ep = [])
         (Gui.endpoints (fst (Gui.register p ks st))).
Proof.
  intros p ks. induction ks as [| key rest IH]; intros st H;
    cbn [Gui.register]; [exact H |].
  destruct (lookup Gui.CODECS key) as [[[name mct] info] |]; [| exact H].
  destruct (add_sink p _ _); apply IH; cbn; [exact H |].
  apply Forall_app. split; [exact H | now constructor].
Qed.

Lemma deaf_hears_nothing : forall s st,
  deaf st -> Gui.listeners Gui.rtp_listeners s st = [].
Proof.
  intros s st (_ & _ & Hall). unfold Gui.listeners, Gui.find_endpoint.
  destruct (find _ (Gui.endpoints st)) as [ep |] eqn:Hf; [| reflexivity].
  apply find_some in Hf as [Hin _].
  rewrite Forall_forall in Hall. now apply Hall.
Qed.

Lemma handle_keeps_deaf : forall ks nt st, deaf st -> deaf (Gui.handle ks nt st).
Proof.
  intros ks nt st Hd. unfold Gui.handle.
  destruct nt as [p | s cfg | s | s | s payload | | | | raised].
  - destruct Hd as (Ha & Hb & Hall).
    pose proof (gui_on_avdtp_keeps ks p st) as K. cbv zeta in K.
    destruct K as (_ & Kb & _ & _ & Ke & _).
    repeat split; [congruence | congruence |].
    unfold Gui.on_avdtp. destruct (Gui.fired st); [exact Hall |].
    destruct (names_of Gui.CODECS ks); [exact Hall |].
    match goal with
    | |- context [Gui.register ?a ?b ?c] =>
        pose proof (register_adds_deaf_endpoints a b c Hall) as Hr;
        destruct (Gui.register a b c) as [st1 [e |]]
    end; exact Hr.
  - destruct Hd as (Ha & Hb & Hall). repeat split; try assumption.
    cbn. rewrite Forall_forall in *. intros ep Hin.
    apply in_map_iff in Hin as [x [Hx Hin]]. specialize (Hall x Hin).
    destruct (Gui.seid x =? s)%nat; subst ep; [exact Hall | exact Hall].
  - apply fold_left_preserves; [| exact Hd].
    intros a kn (Ha & Hb & Hall). unfold Gui._on_open.
    cbn [Gui._emit Gui.set_q Gui._audio_enabled]. rewrite Ha.
    repeat split; assumption.
  - apply fold_left_preserves; [| exact Hd].
    intros a n (Ha & Hb & Hall). unfold Gui._on_close.
    pose proof (stop_keeps (Gui._emit (Gui.STREAM_CLOSED n) a)) as (Ke & Kae & _).
    pose proof (stop_releases (Gui._emit (Gui.STREAM_CLOSED n) a)) as K.
    cbv zeta in K. destruct K as (_ & _ & _ & _ & Kb & _).
    repeat split; [now rewrite Kae | now rewrite Kb | now rewrite Ke].
  - rewrite (deaf_hears_nothing s st Hd). exact Hd.
  - destruct Hd as (Ha & Hb & Hall). unfold Gui.bitrate_loop, Gui.bitrate_turn.
    destruct (Gui.sampler_done st); [repeat split; assumption |].
    destruct (negb _); repeat split; assumption.
  - destruct Hd as (Ha & Hb & Hall). unfold Gui.request_stop.
    destruct (Gui.loop_closed st); repeat split; assumption.
  - destruct Hd as (Ha & Hb & Hall). repeat split; assumption.
  - destruct Hd as (Ha & Hb & Hall). unfold Gui._thread_main.
    match goal with
    | |- deaf (Gui._emit Gui.DONE (Gui.stop ?s)) =>
        pose proof (stop_keeps s) as (Ke & Kae & _);
        pose proof (stop_releases s) as K;
        assert (Hs : Gui._audio_enabled s = false /\ Gui.bytes_recv s = 0%Z
                     /\ Gui.endpoints s = Gui.endpoints st)
          by (destruct raised; repeat split; assumption)
    end.
    cbv zeta in K. destruct K as (_ & _ & _ & _ & Kb & _).
    destruct Hs as (H1 & H2 & H3).
    repeat split; cbn [Gui._emit Gui.set_q Gui._audio_enabled Gui.bytes_recv
                        Gui.endpoints];
      [now rewrite Kae | now rewrite Kb | now rewrite Ke, H3].
Qed.

Lemma nothing_counted_without_playback : forall ks nts ffplay w,
  Gui.bytes_recv (Gui.run ks nts (Gui.new_worker ffplay false w)) = 0%Z.
Proof.
  intros ks nts ffplay w.
  assert (H : deaf (Gui.run ks nts (Gui.new_worker ffplay false w))).
  { unfold Gui.run. apply fold_left_preserves.
    - intros a nt. apply handle_keeps_deaf.
    - repeat split. constructor. }
  apply H.
Qed.

(** C2.  The code where the claim fails: a session with live playback
    unticked, registered with SBC and AAC.  The SBC end point is opened,
    which is reported, and delivers a packet of three bytes: the end
    point has no packet listener, the counter stays at zero, and the
    sampler, which runs in this session as in any other, has nothing to
    report at its next turn. *)
Lemma packet_not_counted_without_playback :
  let opened := sbc_opened false in
  let fed := Gui.handle ["SBC"; "AAC"] (Gui.RtpPacket 1 [x9c; x01; x02]) opened in
  Gui.listeners Gui.open_listeners 1 (registered accepting ["SBC"; "AAC"] false)
    = [("SBC", "SBC")]
  /\ existsb (fun ev => match ev with
                        | Gui.STREAM_OPENED "SBC" "SBC" _ _ => true
                        | _ => false
                        end) (Gui._q opened) = true
  /\ Gui.listeners Gui.rtp_listeners 1 opened = []
  /\ Gui.bytes_recv fed = 0%Z
  /\ Gui.sampler_done fed = false
  /\ Gui.bitrates (Gui._q (Gui.handle ["SBC"; "AAC"] Gui.Tick fed)) = [].
Proof. vm_compute. repeat split. Qed.

(** With live playback ticked, an end point that has no packet listener
    yet gets one when it is opened, and a packet it then delivers raises
    the counter by the length of its payload, whatever the codec key;
    for a key other than SBC the opening leaves the player and its
    sinks as they were.  A packet listener adds the payload length
    whatever the key and whatever the state of the player. *)
Lemma packets_counted_when_playback_ticked :
  forall (ks : list string) (s : nat) (k n : string) (payload : bytes)
         (st : Gui.state),
    Gui._audio_enabled st = true ->
    Gui.listeners Gui.open_listeners s st = [(k, n)] ->
    Gui.listeners Gui.rtp_listeners s st = [] ->
    let opened := Gui.handle ks (Gui.Open s) st in
    Gui.bytes_recv (Gui.handle ks (Gui.RtpPacket s payload) opened)
      = (Gui.bytes_recv st + Z.of_nat (List.length payload))%Z
    /\ (k <> "SBC" ->
        Gui._audio opened = Gui._audio st /\ Gui.world opened = Gui.world st)
    /\ (forall (k' : string) (st' : Gui.state),
          Gui.bytes_recv (Gui._on_rtp k' payload st')
            = (Gui.bytes_recv st' + Z.of_nat (List.length payload))%Z).
Proof.
  intros ks s k n payload st Ha Hl Hr opened.
  pose proof (open_attaches_one_listener ks s k n st Ha Hl) as H.
  cbv zeta in H. fold opened in H. destruct H as (Hb & Hso & Hlr & Ho).
  rewrite Hr in Hlr. cbn [app] in Hlr.
  split; [| split; [exact Ho |]].
  - unfold Gui.handle at 1. rewrite Hlr. cbn [fold_left].
    rewrite on_rtp_counts. now rewrite Hb.
  - intros k' st'. apply on_rtp_counts.
Qed.

Example aac_packets_are_counted :
  Gui.bytes_recv
    (Gui.handle ["SBC"; "AAC"] (Gui.RtpPacket 2 [x9c; x01; x02])
       (Gui.handle ["SBC"; "AAC"] (Gui.Open 2)
          (registered accepting ["SBC"; "AAC"] true)))
  = 3%Z.
Proof. vm_compute. reflexivity. Qed.

Example reopened_end_point_counts_twice :
  Gui.bytes_recv
    (Gui.run ["SBC"; "AAC"]
       [Gui.Open 1; Gui.Close 1; Gui.Open 1; Gui.RtpPacket 1 [x9c; x01; x02]]
       (registered accepting ["SBC"; "AAC"] true))
  = 6%Z.
Proof. reflexivity. Qed.

(** ** Registration of the end points *)

Lemma names_of_known : forall CODECS ks names,
  names_of CODECS ks = inr names ->
  forall k, In k ks -> exists e, lookup CODECS k = Some e.
Proof.
  intros CODECS ks. induction ks as [| key rest IH]; intros names H k Hin;
    [contradiction |].
  cbn [names_of] in H.
  destruct (lookup CODECS key) as [e |] eqn:El; [| discriminate].
  destruct (names_of CODECS rest) as [x | names'] eqn:En; [discriminate |].
  destruct Hin as [<- | Hin]; [now exists e | now apply (IH names')].
Qed.

Lemma refuses_eq : forall (CODECS : list (string * entry)) p key name mct info,
  @lookup entry CODECS key = Some (name, mct, info) ->
  refuses CODECS p key
  = match add_sink_raises p (mkCaps "AUDIO" mct info) with
    | Some _ => true
    | None => false
    end.
Proof. intros CODECS p key name mct info El. unfold refuses. now rewrite El. Qed.

(** What the loop of [on_avdtp] leaves: the end points of the keys that
    were not refused, in the order of the request, numbered on from the
    end points already there, and one log per key. *)
Lemma gui_register_reports : forall p ks st names,
  names_of Gui.CODECS ks = inr names ->
  exists added logs,
    snd (Gui.register p ks st) = None
    /\ Gui.endpoints (fst (Gui.register p ks st)) = Gui.endpoints st ++ added
    /\ Gui.keys_of added = filter (fun k => negb (refuses Gui.CODECS p k)) ks
    /\ Gui._q (fst (Gui.register p ks st)) = Gui._q st ++ logs
    /\ forallb Gui.is_log logs = true
    /\ List.length (filter Gui.is_warning logs)
         = List.length (filter (refuses Gui.CODECS p) ks)
    /\ map Gui.capabilities added = offered Gui.CODECS p ks
    /\ map Gui.seid added
         = seq (S (List.length (Gui.endpoints st))) (List.length added)
    /\ Forall2 (gui_reports p) ks logs.
Proof.
  intros p ks. induction ks as [| key rest IH]; intros st names H.
  - exists [], []. cbn. rewrite !app_nil_r. repeat split. constructor.
  - cbn [names_of] in H.
    destruct (lookup Gui.CODECS key) as [[[name mct] info] |] eqn:El;
      [| discriminate].
    destruct (names_of Gui.CODECS rest) as [x | names'] eqn:En; [discriminate |].
    cbn [Gui.register offered flat_map]. rewrite El. unfold add_sink.
    cbn [filter]. rewrite (refuses_eq _ p _ _ _ _ El).
    assert (Hrep : forall ev,
              match add_sink_raises p (mkCaps "AUDIO" mct info) with
              | Some e =>
                  ev = Gui.LOG ("  [!] " ++ name ++ " skipped: "
                                  ++ str_exn e)%string "warning"
              | None =>
                  exists n, ev = Gui.LOG ("  [+] " ++ name ++ "  SEID "
                                            ++ str_nat n)%string "normal"
              end -> gui_reports p key ev)
      by (intros ev Hev; unfold gui_reports; now rewrite El).
    destruct (add_sink_raises p (mkCaps "AUDIO" mct info)) as [exc |] eqn:Ea;
      cbn [negb];
      match goal with
      | |- context [Gui.register p rest ?s] =>
          destruct (IH s names' eq_refl)
            as (added & logs & Hn & He & Hk & Hq & Hl & Hw & Hc & Hs & Hr)
      end;
      cbn [Gui._emit_log Gui._emit Gui.set_q Gui.set_endpoints
           Gui.endpoints Gui._q] in He, Hq, Hs.
    + exists added.
      exists (Gui.LOG ("  [!] " ++ name ++ " skipped: " ++ str_exn exc)%string
                      "warning" :: logs).
      split; [exact Hn |]. split; [exact He |]. split; [exact Hk |].
      split; [etransitivity; [exact Hq |]; now rewrite <- app_assoc |].
      split; [exact Hl |].
      split; [cbn [filter Gui.is_warning String.eqb Ascii.eqb Bool.eqb
                   List.length]; now rewrite Hw |].
      split; [exact Hc |]. split; [exact Hs |].
      constructor; [now apply Hrep | exact Hr].
    + exists (Gui.mkEndpoint (S (List.length (Gui.endpoints st)))
                (mkCaps "AUDIO" mct info) None [(key, name)] [name] [] :: added).
      exists (Gui.LOG ("  [+] " ++ name ++ "  SEID "
                         ++ str_nat (S (List.length (Gui.endpoints st))))%string
                      "normal" :: logs).
      split; [exact Hn |].
      split; [etransitivity; [exact He |]; now rewrite <- app_assoc |].
      split; [unfold Gui.keys_of in *;
              cbn [flat_map Gui.open_listeners map fst List.app];
              now rewrite Hk |].
      split; [etransitivity; [exact Hq |]; now rewrite <- app_assoc |].
      split; [exact Hl |].
      split; [cbn [filter Gui.is_warning String.eqb Ascii.eqb Bool.eqb];
              exact Hw |].
      split; [cbn [map Gui.capabilities List.app]; now rewrite Hc |].
      split; [cbn [map Gui.seid List.length seq]; rewrite Hs, length_app;
              cbn [List.length]; now rewrite Nat.add_1_r |].
      constructor; [apply Hrep; now eexists | exact Hr].
Qed.

Lemma gui_register_skips_failures : forall p ks st names,
  names_of Gui.CODECS ks = inr names ->
  exists added logs,
    snd (Gui.register p ks st) = None
    /\ Gui.endpoints (fst (Gui.register p ks st)) = Gui.endpoints st ++ added
    /\ Gui.keys_of added = filter (fun k => negb (refuses Gui.CODECS p k)) ks
    /\ Gui._q (fst (Gui.register p ks st)) = Gui._q st ++ logs
    /\ forallb Gui.is_log logs = true
    /\ List.length (filter Gui.is_warning logs)
         = List.length (filter (refuses Gui.CODECS p) ks).
Proof.
  intros p ks st names H.
  destruct (gui_register_reports p ks st names H)
    as (added & logs & Hn & He & Hk & Hq & Hl & Hw & _).
  exists added, logs. repeat split; assumption.
Qed.

(** What the loop of [on_connection] leaves: the sinks of the keys that
    were not refused, in the order of the request, numbered on from the
    sinks already there, and one line per key. *)
Lemma cli_register_reports : forall p ks seids st names,
  names_of Cli.CODECS ks = inr names ->
  exists added lines,
    snd (Cli.register p ks seids st) = None
    /\ Cli.sinks (fst (fst (Cli.register p ks seids st))) = Cli.sinks st ++ added
    /\ List.length added
         = List.length (filter (fun k => negb (refuses Cli.CODECS p k)) ks)
    /\ map Cli.capabilities added = offered Cli.CODECS p ks
    /\ map Cli.seid added
         = seq (S (List.length (Cli.sinks st))) (List.length added)
    /\ Cli.stdout (fst (fst (Cli.register p ks seids st)))
         = Cli.stdout st ++ lines
    /\ Forall2 (cli_reports p) ks lines.
Proof.
  intros p ks. induction ks as [| key rest IH]; intros seids st names H.
  - exists [], []. cbn. rewrite !app_nil_r. repeat split. constructor.
  - cbn [names_of] in H.
    destruct (lookup Cli.CODECS key) as [[[name mct] info] |] eqn:El;
      [| discriminate].
    destruct (names_of Cli.CODECS rest) as [x | names'] eqn:En; [discriminate |].
    cbn [Cli.register offered flat_map]. rewrite El. unfold add_sink.
    cbn [filter]. rewrite (refuses_eq _ p _ _ _ _ El).
    assert (Hrep : forall line,
              match add_sink_raises p (mkCaps "AUDIO" mct info) with
              | Some e =>
                  line = ("  [!] " ++ name ++ " skipped - " ++ str_exn e)%string
              | None =>
                  exists n, line = ("  [+] " ++ name ++ "  ("
                                      ++ str_nat (List.length info)
                                      ++ " bytes)  SEID " ++ str_nat n)%string
              end -> cli_reports p key line)
      by (intros line Hline; unfold cli_reports; now rewrite El).
    destruct (add_sink_raises p (mkCaps "AUDIO" mct info)) as [exc |] eqn:Ea;
      cbn [negb];
      match goal with
      | |- context [Cli.register p rest ?sd ?s] =>
          destruct (IH sd s names' eq_refl)
            as (added & lines & Hn & He & Hl & Hc & Hs & Ho & Hr)
      end;
      cbn [Cli.print Cli.sinks Cli.stdout] in He, Hs, Ho.
    + exists added.
      exists (("  [!] " ++ name ++ " skipped - " ++ str_exn exc)%string :: lines).
      split; [exact Hn |]. split; [exact He |]. split; [exact Hl |].
      split; [exact Hc |]. split; [exact Hs |].
      split; [etransitivity; [exact Ho |]; now rewrite <- app_assoc |].
      constructor; [now apply Hrep | exact Hr].
    + exists (Cli.mkEndpoint (S (List.length (Cli.sinks st)))
                (mkCaps "AUDIO" mct info) [name] :: added).
      exists (("  [+] " ++ name ++ "  (" ++ str_nat (List.length info)
                 ++ " bytes)  SEID "
                 ++ str_nat (S (List.length (Cli.sinks st))))%string :: lines).
      split; [exact Hn |].
      split; [etransitivity; [exact He |]; now rewrite <- app_assoc |].
      split; [cbn [List.length]; now rewrite Hl |].
      split; [cbn [map Cli.capabilities List.app]; now rewrite Hc |].
      split; [cbn [map Cli.seid List.length seq]; rewrite Hs, length_app;
              cbn [List.length]; now rewrite Nat.add_1_r |].
      split; [etransitivity; [exact Ho |]; now rewrite <- app_assoc |].
      constructor; [apply Hrep; now eexists | exact Hr].
Qed.

Lemma cli_register_skips_failures : forall p ks seids st names,
  names_of Cli.CODECS ks = inr names ->
  exists added,
    snd (Cli.register p ks seids st) = None
    /\ Cli.sinks (fst (fst (Cli.register p ks seids st))) = Cli.sinks st ++ added
    /\ List.length added
         = List.length (filter (fun k => negb (refuses Cli.CODECS p k)) ks).
Proof.
  intros p ks seids st names H.
  destruct (cli_register_reports p ks seids st names H)
    as (added & lines & Hn & He & Hl & _).
  exists added. repeat split; assumption.
Qed.

Lemma cli_primary_known : forall ks names,
  names_of Cli.CODECS ks = inr names -> exists name, Cli.primary ks = inr name.
Proof.
  intros ks names H. unfold Cli.primary.
  destruct (find _ ks) as [k |] eqn:Hf; [| now exists "SBC"].
  apply find_some in Hf as [Hin _].
  destruct (names_of_known _ _ _ H k Hin) as [e He]. rewrite He.
  now exists (entry_name e).
Qed.

(** What the first notification does to the window's worker. *)
Lemma gui_first_connection : forall ks names p st,
  Gui.fired st = false ->
  names_of Gui.CODECS ks = inr names ->
  let r := Gui.on_avdtp ks p st in
  snd r = None
  /\ Gui.fired (fst r) = true
  /\ exists added logs,
       Gui.endpoints (fst r) = Gui.endpoints st ++ added
       /\ Gui.keys_of added = filter (fun k => negb (refuses Gui.CODECS p k)) ks
       /\ map Gui.capabilities added = offered Gui.CODECS p ks
       /\ map Gui.seid added
            = seq (S (List.length (Gui.endpoints st))) (List.length added)
       /\ Gui._q (fst r)
            = Gui._q st
                ++ [Gui.LOG ("[AVDTP] Connected - registering: "
                               ++ String.concat ", " names)%string "normal"]
                ++ logs ++ [Gui.CONNECTED]
       /\ Forall2 (gui_reports p) ks logs
       /\ List.length (filter Gui.is_warning logs)
            = List.length (filter (refuses Gui.CODECS p) ks).
Proof.
  intros ks names p st Hf Hn r.
  split; [| split; [apply gui_latch_set |]];
    unfold r, Gui.on_avdtp; rewrite Hf, Hn;
    match goal with
    | |- context [Gui.register p ks ?s] =>
        destruct (gui_register_reports p ks s names Hn)
          as (added & logs & Hx & He & Hk & Hq & Hl & Hw & Hc & Hs & Hr);
        destruct (Gui.register p ks s) as [st1 [e |]]
    end; cbn [fst snd] in Hx, He, Hq; try discriminate; cbn [fst snd].
  - reflexivity.
  - exists added, logs.
    cbn [Gui._emit_log Gui._emit Gui.set_q Gui.set_fired Gui._q Gui.endpoints]
      in He, Hq, Hs.
    split; [exact He |]. split; [exact Hk |]. split; [exact Hc |].
    split; [exact Hs |].
    split; [cbn [Gui._emit Gui.set_q Gui._q]; rewrite Hq;
            now rewrite <- !app_assoc |].
    split; [exact Hr | exact Hw].
Qed.

(** What the first notification does to the command line handler. *)
Lemma cli_first_connection : forall ks names p h,
  Cli.fired h = false ->
  names_of Cli.CODECS ks = inr names ->
  let c := Cli.on_connection ks p h in
  snd c = None
  /\ Cli.fired (fst c) = true
  /\ exists added lines footer,
       Cli.sinks (fst c) = Cli.sinks h ++ added
       /\ List.length added
            = List.length (filter (fun k => negb (refuses Cli.CODECS p k)) ks)
       /\ map Cli.capabilities added = offered Cli.CODECS p ks
       /\ map Cli.seid added
            = seq (S (List.length (Cli.sinks h))) (List.length added)
       /\ Cli.stdout (fst c)
            = Cli.stdout h
                ++ [("[!] AVDTP connected - registering: "
                       ++ String.concat ", " names)%string]
                ++ lines ++ [footer]
       /\ Forall2 (cli_reports p) ks lines.
Proof.
  intros ks names p h Hf Hn c.
  split; [| split; [apply cli_latch_set |]];
    unfold c, Cli.on_connection; rewrite Hf, Hn;
    match goal with
    | |- context [Cli.register p ks ?sd ?s] =>
        destruct (cli_register_reports p ks sd s names Hn)
          as (added & lines & Hx & He & Hl & Hc & Hs & Ho & Hr);
        destruct (Cli.register p ks sd s) as [[st1 seids] [e |]]
    end; cbn [fst snd] in Hx, He, Ho; try discriminate;
    destruct (cli_primary_known ks names Hn) as [name Hp]; rewrite Hp;
    cbn [fst snd Cli.print Cli.sinks Cli.stdout].
  - reflexivity.
  - exists added, lines.
    eexists.
    cbn [Cli.print Cli.sinks Cli.stdout] in He, Ho, Hs.
    split; [exact He |]. split; [exact Hl |]. split; [exact Hc |].
    split; [exact Hs |].
    split; [rewrite Ho; rewrite <- !app_assoc; reflexivity | exact Hr].
Qed.

(** C5.  The last part of the claim fails: when the stack refuses every
    sink the handler skips each key with a warning and still reports
    [CONNECTED]; no exception leaves it, the stop flag stays clear, the
    loop stays open and no [DONE] is put on the queue.  The command line
    handler likewise returns normally with no sink at all. *)
Lemma no_sink_registered_is_not_fatal :
  let r := Gui.on_avdtp ["SBC"; "AAC"] refusing (Gui.new_worker true false machine) in
  let c := Cli.on_connection ["SBC"; "AAC"] refusing Cli.initial in
  snd r = None
  /\ Gui.endpoints (fst r) = []
  /\ Gui.stop_event (fst r) = false
  /\ Gui._q (fst r)
       = [ Gui.LOG "[AVDTP] Connected - registering: SBC, AAC" "normal";
           Gui.LOG "  [!] SBC skipped: no free end point" "warning";
           Gui.LOG "  [!] AAC skipped: no free end point" "warning";
           Gui.CONNECTED ]
  /\ snd c = None
  /\ Cli.sinks (fst c) = [].
Proof. cbv zeta. repeat split. Qed.

(** C5, amended.  When the connection arrives, a key whose sink the
    stack refuses is skipped and logged, and the loop goes on with the
    remaining keys.  In the window: the end points added are those of
    the keys that were not refused, in the order of the request, each
    with the capabilities of its catalogue entry and the next free
    SEID; the queue receives the header, then one log per key in the
    order of the request, a warning with the text of the exception for
    a refused key and the SEID for an added one, then [CONNECTED]; the
    handler returns normally and neither sets the stop flag nor closes
    the loop, however many sinks were added, none included.  On the
    command line: the same sinks with the same capabilities and SEIDs
    are added, the header, one line per key (skipped with the text of
    the exception, or added) and the summary are printed, and the
    handler returns normally. *)
Theorem failed_registrations_are_skipped :
  forall (ks names : list string) (p : Protocol)
         (st : Gui.state) (h : Cli.handler_state),
    Gui.fired st = false ->
    Cli.fired h = false ->
    names_of Gui.CODECS ks = inr names ->
    names_of Cli.CODECS ks = inr names ->
    let r := Gui.on_avdtp ks p st in
    let c := Cli.on_connection ks p h in
    snd r = None
    /\ Gui.stop_event (fst r) = Gui.stop_event st
    /\ Gui.loop_closed (fst r) = Gui.loop_closed st
    /\ (exists added logs,
          Gui.endpoints (fst r) = Gui.endpoints st ++ added
          /\ Gui.keys_of added
               = filter (fun k => negb (refuses Gui.CODECS p k)) ks
          /\ map Gui.capabilities added = offered Gui.CODECS p ks
          /\ map Gui.seid added
               = seq (S (List.length (Gui.endpoints st))) (List.length added)
          /\ Gui._q (fst r)
               = Gui._q st
                   ++ [Gui.LOG ("[AVDTP] Connected - registering: "
                                  ++ String.concat ", " names)%string "normal"]
                   ++ logs ++ [Gui.CONNECTED]
          /\ Forall2 (gui_reports p) ks logs
          /\ List.length (filter Gui.is_warning logs)
               = List.length (filter (refuses Gui.CODECS p) ks))
    /\ snd c = None
    /\ (exists added lines footer,
          Cli.sinks (fst c) = Cli.sinks h ++ added
          /\ List.length added
               = List.length
                   (filter (fun k => negb (refuses Cli.CODECS p k)) ks)
          /\ map Cli.capabilities added = offered Cli.CODECS p ks
          /\ map Cli.seid added
               = seq (S (List.length (Cli.sinks h))) (List.length added)
          /\ Cli.stdout (fst c)
               = Cli.stdout h
                   ++ [("[!] AVDTP connected - registering: "
                          ++ String.concat ", " names)%string]
                   ++ lines ++ [footer]
          /\ Forall2 (cli_reports p) ks lines).
Proof.
  intros ks names p st h Hf Hc Hn Hn' r c.
  destruct (gui_first_connection ks names p st Hf Hn) as (G1 & _ & G3).
  destruct (cli_first_connection ks names p h Hc Hn') as (C1 & _ & C3).
  pose proof (gui_on_avdtp_keeps ks p st) as K. cbv zeta in K.
  destruct K as (Ks & _).
  pose proof (gui_on_avdtp_keeps_loop ks p st) as L. cbv zeta in L.
  destruct L as (Kl & _).
  split; [exact G1 |]. split; [exact Ks |]. split; [exact Kl |].
  split; [exact G3 |]. split; [exact C1 | exact C3].
Qed.

Lemma refused_ldac_is_skipped :
  Gui.keys_of
    (Gui.endpoints
       (fst (Gui.on_avdtp ["LDAC"; "SBC"; "AAC"] refusing_ldac
               (Gui.new_worker true false machine))))
  = ["SBC"; "AAC"]
  /\ snd (Gui.on_avdtp ["LDAC"; "SBC"; "AAC"] refusing_ldac
            (Gui.new_worker true false machine)) = None
  /\ List.length
       (Cli.sinks
          (fst (Cli.on_connection ["LDAC"; "SBC"; "AAC"] refusing_ldac
                  Cli.initial)))
     = 2%nat.
Proof.
  pose proof (failed_registrations_are_skipped
                ["LDAC"; "SBC"; "AAC"] ["LDAC"; "SBC"; "AAC"] refusing_ldac
                (Gui.new_worker true false machine) Cli.initial
                eq_refl eq_refl eq_refl eq_refl) as H.
  cbv zeta in H.
  destruct H as (Hnone & _ & _ & (added & logs & He & Hk & _) & _
                 & (sinks & lines & footer & Hs & Hl & _)).
  split; [| split; [exact Hnone |]].
  - rewrite He. cbn [Gui.new_worker Gui.endpoints app]. rewrite Hk. reflexivity.
  - rewrite Hs. cbn [Cli.initial Cli.sinks app]. rewrite Hl. reflexivity.
Defined.

Example refused_ldac_is_reported :
  Cli.stdout (fst (Cli.on_connection ["LDAC"; "SBC"; "AAC"] refusing_ldac
                     Cli.initial))
  = [ "[!] AVDTP connected - registering: LDAC, SBC, AAC";
      "  [!] LDAC skipped - unsupported";
      "  [+] SBC  (4 bytes)  SEID 1";
      "  [+] AAC  (6 bytes)  SEID 2";
      "  [v] Endpoints: SBC(SEID 1), AAC(SEID 2) / select 'LDAC'" ]
  /\ Gui._q (fst (Gui.on_avdtp ["LDAC"; "SBC"; "AAC"] refusing_ldac
                    (Gui.new_worker true false machine)))
     = [ Gui.LOG "[AVDTP] Connected - registering: LDAC, SBC, AAC" "normal";
         Gui.LOG "  [!] LDAC skipped: unsupported" "warning";
         Gui.LOG "  [+] SBC  SEID 1" "normal";
         Gui.LOG "  [+] AAC  SEID 2" "normal";
         Gui.CONNECTED ].
Proof. vm_compute. split; reflexivity. Qed.

(** C7. In both programs the handler runs its registration exactly once
    per session.  Whatever the state, a series of two or more
    connection notifications leaves exactly what its first notification
    leaves: the later ones change nothing.  And on a handler that has
    not fired yet the first notification does register: the latch is
    set, and the sinks added are those that the stack of the first
    notification accepts for the keys of the session, once each and in
    the order of the request, whatever the stacks of the later
    notifications would accept.  A handler that has fired already
    ignores the whole series. *)
Theorem connection_handler_fires_once :
  forall (ks : list string) (p : Protocol) (ps : list Protocol)
         (h : Cli.handler_state) (st : Gui.state),
    Cli.notify ks (p :: ps) h = Cli.notify ks [p] h
    /\ Gui.run ks (map Gui.Connection (p :: ps)) st
         = Gui.run ks [Gui.Connection p] st
    /\ (forall names,
          Cli.fired h = false ->
          names_of Cli.CODECS ks = inr names ->
          let h' := Cli.notify ks (p :: ps) h in
          Cli.fired h' = true
          /\ exists added,
               Cli.sinks h' = Cli.sinks h ++ added
               /\ map Cli.capabilities added = offered Cli.CODECS p ks
               /\ map Cli.seid added
                    = seq (S (List.length (Cli.sinks h))) (List.length added))
    /\ (forall names,
          Gui.fired st = false ->
          names_of Gui.CODECS ks = inr names ->
          let st' := Gui.run ks (map Gui.Connection (p :: ps)) st in
          Gui.fired st' = true
          /\ exists added,
               Gui.endpoints st' = Gui.endpoints st ++ added
               /\ map Gui.capabilities added = offered Gui.CODECS p ks
               /\ map Gui.seid added
                    = seq (S (List.length (Gui.endpoints st)))
                          (List.length added)
               /\ Gui.keys_of added
                    = filter (fun k => negb (refuses Gui.CODECS p k)) ks)
    /\ (Cli.fired h = true -> Cli.notify ks (p :: ps) h = h)
    /\ (Gui.fired st = true ->
        Gui.run ks (map Gui.Connection (p :: ps)) st = st).
Proof.
  intros ks p ps h st.
  assert (Hc : Cli.notify ks (p :: ps) h = fst (Cli.on_connection ks p h)).
  { cbn [Cli.notify]. apply cli_later_connections_ignored, cli_latch_set. }
  assert (Hg : Gui.run ks (map Gui.Connection (p :: ps)) st
               = fst (Gui.on_avdtp ks p st)).
  { unfold Gui.run at 1. cbn [map fold_left]. fold (Gui.run ks).
    apply gui_later_connections_ignored. apply gui_latch_set. }
  split; [rewrite Hc; reflexivity |].
  split; [rewrite Hg; reflexivity |].
  split; [| split; [| split]].
  - intros names Hf Hn h'. unfold h'. rewrite Hc.
    destruct (cli_first_connection ks names p h Hf Hn)
      as (_ & Hl & added & lines & footer & Hs & _ & Hcaps & Hseid & _).
    split; [exact Hl |]. exists added. repeat split; assumption.
  - intros names Hf Hn st'. unfold st'. rewrite Hg.
    destruct (gui_first_connection ks names p st Hf Hn)
      as (_ & Hl & added & logs & He & Hk & Hcaps & Hseid & _).
    split; [exact Hl |]. exists added. repeat split; assumption.
  - intros Hf. now apply cli_later_connections_ignored.
  - intros Hf. now apply gui_later_connections_ignored.
Qed.

Lemma second_stack_registers_nothing :
  map Cli.seid
    (Cli.sinks (Cli.notify ["SBC"; "AAC"] [refusing_ldac; accepting] Cli.initial))
  = [1; 2]%nat
  /\ map Gui.seid
       (Gui.endpoints
          (Gui.run ["LDAC"; "SBC"; "AAC"]
             (map Gui.Connection [refusing_ldac; accepting])
             (Gui.new_worker true false machine)))
     = [1; 2]%nat.
Proof.
  split.
  - destruct (connection_handler_fires_once ["SBC"; "AAC"] refusing_ldac
                [accepting] Cli.initial (Gui.new_worker true false machine))
      as (_ & _ & Hcli & _).
    destruct (Hcli ["SBC"; "AAC"] eq_refl eq_refl)
      as (_ & added & Hs & Hcaps & Hseid).
    rewrite Hs. cbn [Cli.initial Cli.sinks List.app List.length] in *.
    rewrite Hseid.
    replace (List.length added) with (List.length (map Cli.capabilities added))
      by apply length_map.
    rewrite Hcaps. reflexivity.
  - destruct (connection_handler_fires_once ["LDAC"; "SBC"; "AAC"] refusing_ldac
                [accepting] Cli.initial (Gui.new_worker true false machine))
      as (_ & _ & _ & Hgui & _).
    destruct (Hgui ["LDAC"; "SBC"; "AAC"] eq_refl eq_refl)
      as (_ & added & Hs & Hcaps & Hseid & _).
    rewrite Hs. cbn [Gui.new_worker Gui.endpoints List.app List.length] in *.
    rewrite Hseid.
    replace (List.length added) with (List.length (map Gui.capabilities added))
      by apply length_map.
    rewrite Hcaps. reflexivity.
Defined.

Example two_notifications_register_three_sinks :
  map Gui.seid
    (Gui.endpoints
       (Gui.run ["APTX_HD"; "SBC"; "AAC"]
          [Gui.Connection accepting; Gui.Connection accepting]
          (Gui.new_worker true false machine)))
  = [1; 2; 3]%nat
  /\ List.length
       (Cli.sinks
          (Cli.notify (Cli.resolve ["APTX_HD"]) [accepting; accepting] Cli.initial))
     = 3%nat.
Proof. split; reflexivity. Qed.

(** ** The listeners of reachable states *)

Lemma wired_same_endpoints : forall st st',
  Gui.endpoints st' = Gui.endpoints st -> wired st -> wired st'.
Proof. intros st st' E H. unfold wired in *. now rewrite E. Qed.

Lemma wired_map : forall (g : Gui.endpoint -> Gui.endpoint) st,
  (forall ep, Gui.open_listeners (g ep) = Gui.open_listeners ep
              /\ Gui.close_listeners (g ep) = Gui.close_listeners ep) ->
  wired st -> wired (Gui.set_endpoints (map g (Gui.endpoints st)) st).
Proof.
  intros g st Hg H. unfold wired in *. cbn [Gui.set_endpoints Gui.endpoints].
  rewrite Forall_forall in *. intros ep Hin.
  apply in_map_iff in Hin as [x [<- Hin]].
  destruct (H x Hin) as (k & n & Ho & Hc). exists k, n.
  destruct (Hg x) as [-> ->]. now split.
Qed.

Lemma register_keeps_wired : forall p ks st,
  wired st -> wired (fst (Gui.register p ks st)).
Proof.
  intros p ks. induction ks as [| key rest IH]; intros st H;
    cbn [Gui.register]; [exact H |].
  destruct (lookup Gui.CODECS key) as [[[name mct] info] |]; [| exact H].
  destruct (add_sink p _ _); apply IH; [exact H |].
  unfold wired in *. cbn [Gui.set_endpoints Gui.endpoints Gui._emit_log
                          Gui._emit Gui.set_q].
  apply Forall_app. split; [exact H |].
  constructor; [| constructor]. now exists key, name.
Qed.

Lemma handle_keeps_wired : forall ks nt st, wired st -> wired (Gui.handle ks nt st).
Proof.
  intros ks nt st H. unfold Gui.handle.
  destruct nt as [p | s cfg | s | s | s payload | | | | raised].
  - unfold Gui.on_avdtp. destruct (Gui.fired st); [exact H |].
    destruct (names_of Gui.CODECS ks); [exact H |].
    match goal with
    | |- context [Gui.register ?a ?b ?c] =>
        pose proof (register_keeps_wired a b c H) as Hr;
        destruct (Gui.register a b c) as [st1 [e |]]
    end; exact Hr.
  - unfold Gui.set_configuration. apply wired_map; [| exact H].
    intros ep. destruct (Gui.seid ep =? s)%nat; split; reflexivity.
  - apply fold_left_preserves; [| exact H].
    intros a kn Ha. unfold Gui._on_open.
    cbn [Gui._emit Gui.set_q Gui._audio_enabled].
    destruct (Gui._audio_enabled a); [| exact Ha].
    match goal with
    | |- context [Gui.start ?sr ?ch ?k ?st0] =>
        pose proof (start_keeps sr ch k st0) as (_ & _ & Ke & _);
        assert (Hw : wired (Gui.start sr ch k st0))
          by (apply (wired_same_endpoints a); [exact Ke | exact Ha])
    end.
    unfold Gui.on_rtp_packet. apply wired_map; [| exact Hw].
    intros ep. destruct (Gui.seid ep =? s)%nat; split; reflexivity.
  - apply fold_left_preserves; [| exact H].
    intros a n Ha. unfold Gui._on_close.
    apply (wired_same_endpoints a); [| exact Ha].
    now rewrite (proj1 (stop_keeps _)).
  - apply fold_left_preserves; [| exact H].
    intros a k Ha. unfold Gui._on_rtp.
    apply (wired_same_endpoints a); [| exact Ha].
    cbn [Gui.set_bytes_recv Gui.endpoints].
    destruct (String.eqb k "SBC" && (1 <? List.length payload)%nat);
      [| reflexivity].
    apply write_keeps_counter.
  - unfold Gui.bitrate_loop, Gui.bitrate_turn.
    destruct (Gui.sampler_done st); [exact H |]. destruct (negb _); exact H.
  - unfold Gui.request_stop. destruct (Gui.loop_closed st); exact H.
  - exact H.
  - apply (wired_same_endpoints st); [| exact H].
    unfold Gui._thread_main. cbn [Gui._emit Gui.set_q Gui.endpoints].
    rewrite (proj1 (stop_keeps _)). now destruct raised.
Qed.

(** X17. Whatever has happened in a session, an end point of the stack
    has exactly the ['open'] and the ['close'] listener of its
    registration: opening, closing and streaming attach no further ones,
    so each open notification is reported by one [STREAM_OPENED] and
    each close notification by one [STREAM_CLOSED]. *)
Lemma reachable_listeners : forall ks nts ffplay audio w s ep,
  let st := Gui.run ks nts (Gui.new_worker ffplay audio w) in
  Gui.find_endpoint s st = Some ep ->
  exists k n,
    Gui.listeners Gui.open_listeners s st = [(k, n)]
    /\ Gui.listeners Gui.close_listeners s st = [n].
Proof.
  intros ks nts ffplay audio w s ep st Hf.
  assert (H : wired st).
  { unfold st, Gui.run. apply fold_left_preserves.
    - intros a nt. apply handle_keeps_wired.
    - constructor. }
  unfold Gui.listeners. rewrite Hf.
  unfold Gui.find_endpoint in Hf. apply find_some in Hf as [Hin _].
  unfold wired in H. rewrite Forall_forall in H.
  destruct (H ep Hin) as (k & n & Ho & Hc). now exists k, n.
Qed.

(** * Further properties of the two programs *)

(** ** Selections *)

Lemma missing_mandatory_none : forall l,
  filter (fun m => negb (mem m l)) MANDATORY = [] <-> incl MANDATORY l.
Proof.
  intros l. unfold MANDATORY. cbn [filter]. split.
  - intros H m Hm.
    destruct (mem "SBC" l) eqn:Hs; destruct (mem "AAC" l) eqn:Ha;
      cbn [negb] in H; try discriminate.
    destruct Hm as [<- | [<- | []]]; now apply mem_In.
  - intros H.
    assert (Hs : mem "SBC" l = true) by (apply mem_In, H; cbn; tauto).
    assert (Ha : mem "AAC" l = true) by (apply mem_In, H; cbn; tauto).
    now rewrite Hs, Ha.
Qed.

Lemma missing_mandatory_short : forall l,
  (List.length (filter (fun m => negb (mem m l)) MANDATORY) <= 2)%nat.
Proof.
  intros l. unfold MANDATORY. cbn [filter].
  destruct (negb (mem "SBC" l)), (negb (mem "AAC" l)); cbn; lia.
Qed.

(** X1. Resolving a selection twice is resolving it once; resolving
    adds at most two keys, and adds none exactly when both mandatory
    keys were requested. *)
Theorem resolve_is_idempotent :
  forall ks : list string,
    Cli.resolve (Cli.resolve ks) = Cli.resolve ks
    /\ (List.length ks <= List.length (Cli.resolve ks) <= List.length ks + 2)%nat
    /\ (Cli.resolve ks = ks <-> incl MANDATORY ks).
Proof.
  intros ks. unfold Cli.resolve. split; [| split].
  - rewrite (append_mandatory_eq (append_mandatory ks)).
    rewrite (proj2 (missing_mandatory_none _) (append_mandatory_incl ks)).
    apply app_nil_r.
  - rewrite append_mandatory_eq, length_app.
    pose proof (missing_mandatory_short ks). lia.
  - rewrite append_mandatory_eq, <- missing_mandatory_none. split.
    + intros H. rewrite <- (app_nil_r ks) in H at 2.
      now apply app_inv_head in H.
    + intros ->. apply app_nil_r.
Qed.

Lemma lookup_mandatory_known : forall m,
  In m MANDATORY -> lookup Cli.CODECS m <> None /\ lookup Gui.CODECS m <> None.
Proof.
  intros m [<- | [<- | []]]; split; discriminate.
Qed.

Lemma append_mandatory_nodup : forall l, NoDup l -> NoDup (append_mandatory l).
Proof.
  intros l H. rewrite append_mandatory_eq. apply NoDup_app.
  - exact H.
  - apply NoDup_filter. unfold MANDATORY.
    repeat constructor; cbn; intuition discriminate.
  - intros a Ha Hf. apply filter_In in Hf as [_ Hf].
    apply mem_In in Ha. now rewrite Ha in Hf.
Qed.

Lemma append_mandatory_in : forall l k,
  In k (append_mandatory l) -> In k l \/ In k MANDATORY.
Proof.
  intros l k H. rewrite append_mandatory_eq in H.
  apply in_app_or in H as [H | H]; [now left |].
  right. now apply filter_In in H.
Qed.

(** X2. Resolving keeps a selection free of repetitions and within the
    catalogue: if no key is requested twice no key is registered twice,
    and if every requested key is in [CODECS] so is every resolved
    key. *)
Theorem resolve_keeps_distinct_known_keys :
  forall ks : list string,
    NoDup ks ->
    (forall k, In k ks -> lookup Cli.CODECS k <> None) ->
    NoDup (Cli.resolve ks)
    /\ (forall k, In k (Cli.resolve ks) -> lookup Cli.CODECS k <> None).
Proof.
  intros ks Hnd Hk. unfold Cli.resolve. split.
  - now apply append_mandatory_nodup.
  - intros k Hin. apply append_mandatory_in in Hin as [Hin | Hin].
    + now apply Hk.
    + now apply lookup_mandatory_known.
Qed.

Lemma resolve_ldac_distinct_known :
  NoDup (Cli.resolve ["LDAC"])
  /\ (forall k, In k (Cli.resolve ["LDAC"]) -> lookup Cli.CODECS k <> None).
Proof.
  apply (resolve_keeps_distinct_known_keys ["LDAC"]).
  - repeat constructor. cbn. tauto.
  - intros k [<- | []]. discriminate.
Defined.

Lemma preset_selection : forall ks vars,
  map fst (filter (fun kv => snd kv) (Gui._preset ks vars))
  = filter (fun k => mem k ks) (keys vars).
Proof.
  intros ks vars. unfold Gui._preset, keys.
  induction vars as [| [k v] rest IH]; cbn [map filter fst snd]; [reflexivity |].
  destruct (mem k ks); cbn [map fst]; now rewrite IH.
Qed.

(** X3. In the window, applying a preset and reading the selection back
    gives the keys of the preset that have a check box, in the order of
    the check boxes, followed by the mandatory keys the preset left
    out; whatever is ticked, the selection is never empty, so [_start]
    never shows its "No codecs" warning, and it starts the worker with
    a selection that holds both mandatory keys and with an emptied
    bitrate history. *)
Theorem window_selection_is_never_empty :
  forall (ks : list string) (app : Gui.App),
    let chosen := filter (fun k => mem k ks) (keys (Gui._codec_vars app)) in
    Gui._get_keys (Gui._preset ks (Gui._codec_vars app))
      = chosen ++ filter (fun m => negb (mem m chosen)) MANDATORY
    /\ Gui._get_keys (Gui._codec_vars app) <> []
    /\ snd (Gui._start app) = false
    /\ Gui._worker (fst (Gui._start app))
         = Some (Gui._get_keys (Gui._codec_vars app), "hci-socket:0",
                 Gui._audio_var app)
    /\ incl MANDATORY (Gui._get_keys (Gui._codec_vars app))
    /\ Gui._bitrate_history (fst (Gui._start app)) = []
    /\ Gui._running (fst (Gui._start app)) = true.
Proof.
  intros ks app chosen.
  assert (Hne : Gui._get_keys (Gui._codec_vars app) <> []).
  { intros E. pose proof (append_mandatory_incl
      (map fst (filter (fun kv => snd kv) (Gui._codec_vars app)))) as Hi.
    unfold Gui._get_keys in E. rewrite E in Hi.
    apply (Hi "SBC"). cbn. tauto. }
  split.
  { unfold Gui._get_keys. rewrite preset_selection. apply append_mandatory_eq. }
  split; [exact Hne |].
  unfold Gui._start.
  destruct (Gui._get_keys (Gui._codec_vars app)) as [| k rest] eqn:E;
    [contradiction |].
  repeat split.
  rewrite <- E. apply append_mandatory_incl.
Qed.

Example clear_preset_still_registers_the_mandatory_keys :
  Gui._get_keys (Gui._preset [] Gui.initial_vars) = ["SBC"; "AAC"].
Proof. reflexivity. Qed.

Lemma find_app : forall (A : Type) (f : A -> bool) (l1 l2 : list A),
  find f (l1 ++ l2)
  = match find f l1 with
    | Some x => Some x
    | None => find f l2
    end.
Proof.
  intros A f l1 l2. induction l1 as [| a rest IH]; cbn [app find];
    [reflexivity |].
  destruct (f a); [reflexivity | exact IH].
Qed.

Lemma find_none_of_mandatory : forall l,
  (forall x, In x l -> mem x MANDATORY = true) ->
  find (fun k => negb (mem k MANDATORY)) l = None.
Proof.
  intros l H. destruct (find _ l) as [x |] eqn:Hf; [| reflexivity].
  apply find_some in Hf as [Hin Hx]. rewrite (H x Hin) in Hx. discriminate.
Qed.

Lemma primary_resolve : forall ks, Cli.primary (Cli.resolve ks) = Cli.primary ks.
Proof.
  intros ks. unfold Cli.primary, Cli.resolve.
  rewrite append_mandatory_eq, find_app.
  destruct (find _ ks) as [k |]; [reflexivity |].
  rewrite find_none_of_mandatory; [reflexivity |].
  intros x Hin. apply filter_In in Hin as [Hin _]. now apply mem_In.
Qed.

(** X4. The codec the user is told to select on the phone is the
    display name of the first requested key that is not mandatory,
    wherever it stands in the selection; when only mandatory keys are
    registered it is SBC, also when AAC was the key asked for.  The
    mandatory keys that [resolve] appends never change it.  When the
    first key that is not mandatory is not in the catalogue, the look-up
    raises. *)
Theorem primary_is_first_optional_key :
  forall (pre : list string) (k : string) (post ks : list string),
    ((forall x, In x pre -> mem x MANDATORY = true) ->
     mem k MANDATORY = false ->
     match lookup Cli.CODECS k with
     | Some e =>
         Cli.primary (pre ++ k :: post) = inr (entry_name e)
         /\ Cli.primary (Cli.resolve (pre ++ k :: post)) = inr (entry_name e)
     | None => Cli.primary (pre ++ k :: post) = inl (KeyError k)
     end)
    /\ ((forall x, In x ks -> mem x MANDATORY = true) ->
        Cli.primary ks = inr "SBC" /\ Cli.primary (Cli.resolve ks) = inr "SBC")
    /\ Cli.primary (Cli.resolve ks) = Cli.primary ks
    /\ Cli.primary (Cli.resolve ["AAC"]) = inr "SBC".
Proof.
  intros pre k post ks.
  split; [| split; [| split; [apply primary_resolve | reflexivity]]].
  - intros Hpre Hk.
    assert (Hf : find (fun x => negb (mem x MANDATORY)) (pre ++ k :: post)
                 = Some k).
    { rewrite find_app, (find_none_of_mandatory pre Hpre). cbn [find].
      now rewrite Hk. }
    assert (Hp : Cli.primary (pre ++ k :: post)
                 = match lookup Cli.CODECS k with
                   | Some e => inr (entry_name e)
                   | None => inl (KeyError k)
                   end)
      by (unfold Cli.primary; now rewrite Hf).
    destruct (lookup Cli.CODECS k) as [e |]; [| exact Hp].
    split; [exact Hp | now rewrite primary_resolve].
  - intros Hall.
    assert (Hp : Cli.primary ks = inr "SBC")
      by (unfold Cli.primary; now rewrite (find_none_of_mandatory ks Hall)).
    split; [exact Hp | now rewrite primary_resolve].
Qed.

Lemma primary_of_ldac_and_of_aac_selection :
  Cli.primary (Cli.resolve ["LDAC"; "SBC"]) = inr "LDAC"
  /\ Cli.primary (Cli.resolve ["AAC"; "SBC"]) = inr "SBC"
  /\ Cli.primary (Cli.resolve Cli.ALL) = inr "aptX".
Proof.
  split; [| split].
  - destruct (primary_is_first_optional_key [] "LDAC" ["SBC"] []) as (H & _).
    apply H; [intros x [] | reflexivity].
  - destruct (primary_is_first_optional_key [] "SBC" [] ["AAC"; "SBC"])
      as (_ & H & _).
    apply H. intros x [<- | [<- | []]]; reflexivity.
  - destruct (primary_is_first_optional_key ["SBC"; "AAC"] "APTX"
                ["APTX_HD"; "APTX_ADAPTIVE"; "APTX_TWS_PLUS"; "LDAC";
                 "LHDC_V2"; "LHDC_V3"; "LHDC_V4"; "LHDC_V5"] [])
      as (H & _).
    apply H; [intros x [<- | [<- | []]]; reflexivity | reflexivity].
Defined.

(** ** Parsed configurations *)

Lemma getitem_firstn : forall (b : bytes) (n i : nat),
  (i < n)%nat -> getitem (firstn n b) i = getitem b i.
Proof.
  intros b n i H. unfold getitem. rewrite nth_error_firstn.
  apply Nat.ltb_lt in H. now rewrite H.
Qed.

Lemma leb_length_firstn : forall (b : bytes) (m n : nat),
  (m <= n)%nat ->
  (m <=? List.length (firstn n b))%nat = (m <=? List.length b)%nat.
Proof.
  intros b m n H. rewrite length_firstn.
  destruct (m <=? List.length b)%nat eqn:E.
  - apply Nat.leb_le in E. apply Nat.leb_le. lia.
  - apply Nat.leb_gt in E. apply Nat.leb_gt. lia.
Qed.

(** X5. Only the first eight bytes of a negotiated configuration are
    ever looked at: whatever follows them changes nothing in the parsed
    fields, for any key. *)
Theorem parse_reads_eight_bytes :
  forall (codec_key : string) (b tail : bytes),
    Gui.parse_codec_info codec_key b
      = Gui.parse_codec_info codec_key (firstn 8 b)
    /\ ((8 <= List.length b)%nat ->
        Gui.parse_codec_info codec_key (b ++ tail)
          = Gui.parse_codec_info codec_key b).
Proof.
  assert (H8 : forall codec_key b,
    Gui.parse_codec_info codec_key b
      = Gui.parse_codec_info codec_key (firstn 8 b)).
  { intros codec_key b. unfold Gui.parse_codec_info, Gui.parse_body.
    rewrite !leb_length_firstn by lia.
    rewrite !getitem_firstn by lia. reflexivity. }
  intros codec_key b tail. split; [apply H8 |].
  intros Hlen. rewrite (H8 codec_key (b ++ tail)), (H8 codec_key b).
  rewrite firstn_app.
  replace (8 - List.length b)%nat with 0%nat by lia.
  cbn [firstn]. now rewrite app_nil_r.
Qed.

Lemma ldac_tail_is_ignored :
  Gui.parse_codec_info "LDAC" ((SONY ++ [xaa; x00; x3c; x07]) ++ [xde; xad])
  = Gui.parse_codec_info "LDAC" (SONY ++ [xaa; x00; x3c; x07]).
Proof.
  apply (parse_reads_eight_bytes "LDAC" (SONY ++ [xaa; x00; x3c; x07]) [xde; xad]).
  cbn. lia.
Defined.

Lemma scan_rates_result : forall table v r,
  Gui.sample_rate (Gui.scan_rates table v r) = Gui.sample_rate r
  \/ exists mask hz,
       In (mask, hz) table /\ N.land v mask <> 0%N
       /\ Gui.sample_rate (Gui.scan_rates table v r) = Some hz.
Proof.
  induction table as [| [mask hz] rest IH]; intros v r; cbn [Gui.scan_rates].
  - now left.
  - destruct (N.land v mask =? 0)%N eqn:E; cbn [negb].
    + destruct (IH v r) as [H | (m & h & Hin & Hl & Hs)]; [now left |].
      right. exists m, h. split; [now right | now split].
    + right. exists mask, hz. apply N.eqb_neq in E.
      split; [now left | now split].
Qed.

Lemma scan_rates_between : forall lo hi table v hz,
  every_rate_between lo hi table = true ->
  Gui.sample_rate (Gui.scan_rates table v Gui.empty_info) = Some hz ->
  (lo <= hz <= hi)%N.
Proof.
  intros lo hi table v hz Hall Hs.
  destruct (scan_rates_result table v Gui.empty_info)
    as [H | (m & h & Hin & _ & Hh)].
  - rewrite H in Hs. discriminate.
  - rewrite Hh in Hs. inversion Hs; subst h.
    unfold every_rate_between in Hall. rewrite forallb_forall in Hall.
    specialize (Hall _ Hin). cbn [snd] in Hall.
    apply andb_prop in Hall as [H1 H2].
    apply N.leb_le in H1, H2. lia.
Qed.

Lemma ldac_kbps_range : forall q, (330 <= Gui.ldac_kbps q <= 990)%N.
Proof.
  intros [| [p | p |]]; cbn; try lia; destruct p; cbn; lia.
Qed.

Lemma set_fields_sample_rate : forall d k r,
  Gui.sample_rate (Gui.set_max_kbps k (Gui.set_bit_depth d r)) = Gui.sample_rate r.
Proof. reflexivity. Qed.

(** X6. The fields that [parse_codec_info] reports are never zero and
    stay in the range of its tables: a sample rate lies between 8000
    and 192000 Hz, a bit depth is 16 or 24, a bitrate ceiling lies
    between 320 and 990 kbps; so the truth tests of the window
    ([if sr], [if bd], [if mk]) let every reported field through. *)
Theorem parsed_fields_are_in_range :
  forall (codec_key : string) (b : bytes) (hz d k : N),
    let r := Gui.parse_codec_info codec_key b in
    (Gui.sample_rate r = Some hz -> (8000 <= hz <= 192000)%N)
    /\ (Gui.bit_depth r = Some d -> d = 16%N \/ d = 24%N)
    /\ (Gui.max_kbps r = Some k -> (320 <= k <= 990)%N).
Proof.
  intros codec_key b hz d k r. subst r.
  unfold Gui.parse_codec_info, Gui.parse_body.
  repeat match goal with
  | |- context [if ?c && ?l then _ else _] => destruct (c && l)
  | |- context [match getitem ?x ?i with _ => _ end] => destruct (getitem x i)
  end; cbn [fst]; (split; [| split]);
  cbn [Gui.sample_rate Gui.bit_depth Gui.max_kbps Gui.set_max_kbps
       Gui.set_bit_depth];
  rewrite ?(fun t v r => proj1 (scan_rates_keeps_rest t v r)),
          ?(fun t v r => proj2 (scan_rates_keeps_rest t v r));
  cbn [Gui.sample_rate Gui.bit_depth Gui.max_kbps Gui.empty_info];
  intros H; try discriminate H.
  all: try (eapply scan_rates_between; [| exact H]; reflexivity).
  all: try (match type of H with
            | context [Gui.ldac_kbps ?q] => pose proof (ldac_kbps_range q)
            end).
  all: try (destruct (contains "HD" codec_key)).
  all: inversion H; subst; auto; lia.
Qed.

Lemma sbc_catalogue_fields_in_range :
  (8000 <= 16000 <= 192000)%N /\ (16 = 16 \/ 16 = 24)%N /\ (320 <= 320 <= 990)%N.
Proof.
  destruct (parsed_fields_are_in_range "SBC" [xff; xff; x02; x35] 16000 16 320)
    as (A & B & C).
  split; [apply A; reflexivity | split; [apply B | apply C]; reflexivity].
Defined.

(** ** The menu of the command line tester *)

Lemma lookup_some_in : forall (V : Type) (d : list (string * V)) k v,
  lookup d k = Some v -> In v (map snd d).
Proof.
  intros V d k v. induction d as [| [k' v'] rest IH]; cbn [lookup map snd];
    [discriminate |].
  destruct (String.eqb k k'); [intros H; inversion H; now left |].
  intros H. right. now apply IH.
Qed.

Lemma registrable_names : forall CODECS ks,
  registrable CODECS ks = true ->
  exists names, names_of CODECS ks = inr names.
Proof.
  intros CODECS ks H. unfold registrable in H.
  apply andb_prop in H as [_ H].
  induction ks as [| k rest IH]; [now exists [] |].
  cbn [forallb] in H. apply andb_prop in H as [Hk Hr].
  cbn [names_of]. destruct (lookup CODECS k) as [e |]; [| discriminate].
  destruct (IH Hr) as [names ->]. now eexists.
Qed.

Lemma distinct_resolve : forall ks,
  distinct ks = true -> distinct (append_mandatory ks) = true.
Proof.
  assert (Happ : forall l1 l2, distinct l1 = true -> distinct l2 = true ->
            (forall k, In k l2 -> mem k l1 = false) ->
            distinct (l1 ++ l2) = true).
  { induction l1 as [| a l1 IH]; intros l2 H1 H2 Hd; [exact H2 |].
    cbn [app distinct] in *. apply andb_prop in H1 as [Ha H1].
    apply andb_true_intro. split.
    - rewrite mem_app. apply negb_true_iff in Ha. rewrite Ha. cbn [orb].
      apply negb_true_iff. destruct (mem a l2) eqn:E; [| reflexivity].
      apply mem_In in E. specialize (Hd a E). cbn [mem existsb] in Hd.
      rewrite String.eqb_refl in Hd. discriminate.
    - apply IH; [exact H1 | exact H2 |].
      intros k Hk. specialize (Hd k Hk). cbn [mem existsb] in Hd.
      now apply orb_false_elim in Hd as [_ Hd]. }
  intros ks H. rewrite append_mandatory_eq. apply Happ; [exact H | |].
  - unfold MANDATORY. cbn [filter].
    destruct (negb (mem "SBC" ks)), (negb (mem "AAC" ks)); reflexivity.
  - intros k Hk. apply filter_In in Hk as [_ Hk]. now apply negb_true_iff.
Qed.

Lemma resolve_registrable : forall ks,
  distinct ks = true ->
  forallb (fun k => match lookup Cli.CODECS k with
                    | Some _ => true
                    | None => false
                    end) ks = true ->
  registrable Cli.CODECS (Cli.resolve ks) = true.
Proof.
  intros ks Hd Hk. unfold registrable, Cli.resolve.
  apply andb_true_intro. split; [apply andb_true_intro; split |].
  - apply forallb_forall. intros m Hm. apply mem_In.
    now apply append_mandatory_incl.
  - now apply distinct_resolve.
  - apply forallb_forall. intros k Hin.
    apply append_mandatory_in in Hin as [Hin | Hin].
    + rewrite forallb_forall in Hk. now apply Hk.
    + destruct (lookup_mandatory_known k Hin) as [H _].
      destruct (lookup Cli.CODECS k); [reflexivity | contradiction].
Qed.

Lemma menu_entries_resolve : forall raw chosen,
  lookup Cli.MENU_MAP raw = Some chosen ->
  registrable Cli.CODECS (Cli.resolve chosen) = true.
Proof.
  intros raw chosen H. apply lookup_some_in in H.
  assert (Hall : forallb (fun ks => registrable Cli.CODECS (Cli.resolve ks))
                         (map snd Cli.MENU_MAP) = true) by (vm_compute; reflexivity).
  rewrite forallb_forall in Hall. now apply Hall.
Qed.

Lemma codec_key_resolves : forall up e,
  lookup Cli.CODECS up = Some e ->
  registrable Cli.CODECS (Cli.resolve [up]) = true.
Proof.
  intros up e H. apply resolve_registrable.
  - reflexivity.
  - cbn [forallb]. now rewrite H.
Qed.

Lemma cli_on_connection_returns : forall ks p h,
  registrable Cli.CODECS ks = true -> snd (Cli.on_connection ks p h) = None.
Proof.
  intros ks p h Hr. destruct (registrable_names _ _ Hr) as [names Hn].
  unfold Cli.on_connection. destruct (Cli.fired h); [reflexivity |].
  rewrite Hn.
  match goal with
  | |- context [Cli.register p ks ?sd ?s] =>
      destruct (cli_register_skips_failures p ks sd s names Hn)
        as (added & Hx & _);
      destruct (Cli.register p ks sd s) as [[st1 seids] [e |]]
  end; cbn [fst snd] in Hx; [discriminate |].
  destruct (cli_primary_known ks names Hn) as [name ->]. reflexivity.
Qed.

Lemma pick_loop_spec : forall strip lower upper inputs out,
  let pk := Cli.pick_loop strip lower upper inputs out in
  (exists consumed, inputs = consumed ++ Cli.unread pk)
  /\ match Cli.outcome pk with
     | inl _ => False
     | inr None => True
     | inr (Some ks) =>
         registrable Cli.CODECS ks = true
         /\ (List.length (Cli.unread pk) < List.length inputs)%nat
     end.
Proof.
  intros strip lower upper inputs.
  induction inputs as [| line rest IH]; intros out; cbn zeta.
  - cbn. split; [now exists [] | exact I].
  - cbn [Cli.pick_loop].
    assert (Hskip : forall out',
      let pk := Cli.pick_loop strip lower upper rest out' in
      (exists consumed, line :: rest = consumed ++ Cli.unread pk)
      /\ match Cli.outcome pk with
         | inl _ => False
         | inr None => True
         | inr (Some ks) =>
             registrable Cli.CODECS ks = true
             /\ (List.length (Cli.unread pk) < List.length (line :: rest))%nat
         end).
    { intros out'. destruct (IH out') as [[consumed Hc] Ho]. split.
      - exists (line :: consumed). cbn [app]. now rewrite <- Hc.
      - destruct (Cli.outcome _) as [e | [ks |]]; try exact Ho.
        destruct Ho as [Hr Hl]. split; [exact Hr | cbn [List.length]; lia]. }
    destruct (String.eqb (strip line) ""); [apply Hskip |].
    destruct (contains Cli.ESC (strip line) || String.prefix "^[" (strip line));
      [apply Hskip |].
    destruct (mem (lower (strip line)) ["0"; "q"; "exit"; "quit"]).
    { cbn. split; [now exists [line] | exact I]. }
    destruct (lookup Cli.MENU_MAP (strip line)) as [chosen |] eqn:Em.
    { pose proof (menu_entries_resolve _ _ Em) as Hr.
      destruct (registrable_names _ _ Hr) as [names ->]. cbn.
      split; [now exists [line] | split; [exact Hr | lia]]. }
    destruct (lookup Cli.CODECS (Cli.replace_dash (upper (strip line))))
      as [e |] eqn:Ec; [| apply Hskip].
    pose proof (codec_key_resolves _ _ Ec) as Hr.
    destruct (registrable_names _ _ Hr) as [names ->]. cbn.
    split; [now exists [line] | split; [exact Hr | lia]].
Qed.

(** X7. Whatever is typed, and whatever the interpreter's [strip],
    [lower] and [upper] do to it, [pick_codecs] raises nothing and
    reads the lines in order; when it returns a selection, the
    selection holds SBC and AAC, repeats no key and stays within the
    catalogue, at least one line has been read for it, and the
    connection handler made for it returns normally on any stack. *)
Theorem pick_codecs_returns_registrable :
  forall (strip lower upper : string -> string) (inputs : list string)
         (p : Protocol),
    let pk := Cli.pick_codecs strip lower upper inputs in
    (exists consumed, inputs = consumed ++ Cli.unread pk)
    /\ match Cli.outcome pk with
       | inl _ => False
       | inr None => True
       | inr (Some ks) =>
           registrable Cli.CODECS ks = true
           /\ (List.length (Cli.unread pk) < List.length inputs)%nat
           /\ snd (Cli.on_connection ks p Cli.initial) = None
       end.
Proof.
  intros strip lower upper inputs p pk.
  destruct (pick_loop_spec strip lower upper inputs ["MENU"]) as [Hc Ho].
  fold (Cli.pick_codecs strip lower upper inputs) in Hc, Ho. fold pk in Hc, Ho.
  split; [exact Hc |].
  destruct (Cli.outcome pk) as [e | [ks |]]; try exact Ho.
  destruct Ho as [Hr Hl]. repeat split; try assumption.
  now apply cli_on_connection_returns.
Qed.

Example typing_a_codec_name_after_noise :
  Cli.outcome
    (Cli.pick_codecs (fun s => s) (fun s => s) (fun s => s)
       [""; "^[[A"; "99"; "LHDC-V3"; "7"])
  = inr (Some ["LHDC_V3"; "SBC"; "AAC"])
  /\ Cli.unread
       (Cli.pick_codecs (fun s => s) (fun s => s) (fun s => s)
          [""; "^[[A"; "99"; "LHDC-V3"; "7"])
     = ["7"].
Proof. split; reflexivity. Qed.

Lemma sessions_app : forall a b, sessions (a ++ b) = sessions a ++ sessions b.
Proof. intros. unfold sessions. apply flat_map_app. Qed.

Lemma resets_app : forall a b, resets (a ++ b) = (resets a + resets b)%nat.
Proof. intros. unfold resets. now rewrite filter_app, length_app. Qed.

Lemma said_nothing_else : forall lines,
  sessions (map Cli.Say lines) = [] /\ resets (map Cli.Say lines) = 0%nat.
Proof.
  induction lines as [| l rest [IHs IHr]]; [split; reflexivity |].
  split; [exact IHs | exact IHr].
Qed.

Lemma run_session_runs : forall patch_ok ks transport raised,
  registrable Cli.CODECS ks = true ->
  exists ran,
    Cli.run_session patch_ok ks transport raised = (ran, raised)
    /\ sessions ran = [(ks, transport)] /\ resets ran = 0%nat.
Proof.
  intros patch_ok ks transport raised Hr.
  destruct (registrable_names _ _ Hr) as [names Hn].
  unfold Cli.run_session. rewrite Hn. eexists. repeat split.
Qed.

Lemma ends_as_said : forall h n lines acts e,
  ends_as h n acts e -> ends_as h n (map Cli.Say lines ++ acts) e.
Proof.
  intros h n lines acts e H. destruct (said_nothing_else lines) as [Ss Sr].
  unfold ends_as in *. rewrite sessions_app, resets_app, Ss, Sr. exact H.
Qed.

(** One session that returned and was reset, before the rest of a run. *)
Lemma ends_as_next : forall h n kt acts e,
  Cli.session_raises h n = None ->
  Cli.reset_raises h n = None ->
  ends_as h (S n) acts e ->
  forall this,
    sessions this = [kt] -> resets this = 1%nat ->
    ends_as h n (this ++ acts) e.
Proof.
  intros h n kt acts e Hs Hr H this Ts Tr.
  assert (Hshift : forall m,
            (forall i, (i < m)%nat ->
               Cli.session_raises h (S n + i) = None
               /\ Cli.reset_raises h (S n + i) = None) ->
            forall i, (i < S m)%nat ->
              Cli.session_raises h (n + i) = None
              /\ Cli.reset_raises h (n + i) = None).
  { intros m Hm [| i] Hi.
    - rewrite Nat.add_0_r. now split.
    - replace (n + S i)%nat with (S n + i)%nat by lia. apply Hm. lia. }
  unfold ends_as in *. rewrite sessions_app, resets_app, Ts, Tr.
  cbn [app List.length]. destruct e as [x |].
  - destruct H as (m & Hlen & Hbefore & Hlast). exists (S m).
    split; [now rewrite Hlen |]. split; [now apply Hshift |].
    replace (n + S m)%nat with (S n + m)%nat by lia.
    destruct Hlast as [[Hx Hres] | (Hn & Hx & Hres)]; [left | right];
      repeat split; try assumption; lia.
  - destruct H as [Hres Hnone]. split; [now rewrite Hres |].
    now apply Hshift.
Qed.

(** What the menu loop promises about the actions it takes. *)
Lemma menu_loop_spec :
  forall strip lower upper h patch_ok transport fuel n inputs,
  (List.length inputs < fuel)%nat ->
  exists acts e,
    Cli.menu_loop strip lower upper fuel h n patch_ok transport inputs
      = (Some acts, e)
    /\ Forall (fun kt => registrable Cli.CODECS (fst kt) = true
                         /\ snd kt = transport) (sessions acts)
    /\ (List.length (sessions acts) <= List.length inputs)%nat
    /\ ends_as h n acts e.
Proof.
  intros strip lower upper h patch_ok transport fuel.
  induction fuel as [| fuel IH]; intros n inputs Hlt; [lia |].
  cbn [Cli.menu_loop].
  destruct (pick_loop_spec strip lower upper inputs ["MENU"]) as [_ Ho].
  fold (Cli.pick_codecs strip lower upper inputs) in Ho.
  set (pk := Cli.pick_codecs strip lower upper inputs) in *.
  destruct (said_nothing_else (Cli.printed pk)) as [Ss Sr].
  destruct (Cli.outcome pk) as [e | [ks |]]; [contradiction | |].
  - destruct Ho as [Hr Hl].
    destruct (run_session_runs patch_ok ks transport
                (Cli.session_raises h n) Hr) as (ran & -> & Rs & Rr).
    destruct (Cli.session_raises h n) as [x |] eqn:Es.
    { exists (map Cli.Say (Cli.printed pk) ++ ran), (Some x).
      split; [reflexivity |].
      rewrite sessions_app, Ss, Rs. cbn [app List.length].
      split; [constructor; [now split | constructor] |].
      split; [lia |].
      apply ends_as_said. exists 0%nat. rewrite Rs, Rr, Nat.add_0_r.
      split; [reflexivity |]. split; [intros i Hi; lia |]. now left. }
    assert (Ts : sessions (ran ++ [Cli.Say "  [!] Session ended."; Cli.ResetHci])
                 = [(ks, transport)])
      by (rewrite sessions_app, Rs; reflexivity).
    assert (Tr : resets (ran ++ [Cli.Say "  [!] Session ended."; Cli.ResetHci])
                 = 1%nat)
      by (rewrite resets_app, Rr; reflexivity).
    destruct (Cli.reset_raises h n) as [x |] eqn:Er.
    { eexists _, (Some x). split; [reflexivity |].
      rewrite sessions_app, Ss, Ts. cbn [app List.length].
      split; [constructor; [now split | constructor] |].
      split; [lia |].
      apply ends_as_said. exists 0%nat. rewrite Ts, Tr, Nat.add_0_r.
      split; [reflexivity |]. split; [intros i Hi; lia |]. now right. }
    destruct (IH (S n) (Cli.unread pk)) as (more & e & -> & Hall & Hlen & He);
      [lia |].
    exists ((map Cli.Say (Cli.printed pk)
               ++ ran ++ [Cli.Say "  [!] Session ended."; Cli.ResetHci]) ++ more), e.
    split; [reflexivity |].
    rewrite <- app_assoc.
    rewrite sessions_app, Ss, sessions_app, Ts. cbn [app List.length].
    split; [constructor; [now split | exact Hall] |].
    split; [lia |].
    apply ends_as_said. now apply (ends_as_next h n (ks, transport)).
  - eexists _, None. split; [reflexivity |].
    split; [rewrite sessions_app, Ss; constructor |].
    split; [rewrite sessions_app, Ss; cbn; lia |].
    apply ends_as_said. split; [reflexivity |]. intros i Hi. cbn in Hi. lia.
Qed.

(** X8. [main] comes to an end for every command line, every standard
    input and every host: the turns of its menu loop never outnumber
    the lines typed.  Every session it runs uses the transport of the
    command line (or the default one) and a selection that holds SBC
    and AAC, repeats no key and stays within the catalogue.  [main]
    itself raises nothing and catches nothing: when it ends without an
    exception, no session and no reset has raised and the radio has
    been reset once per session; when it ends with an exception, that
    exception left its last session, which was then not followed by a
    reset, or the reset of its last session, and nothing was raised
    before. *)
Theorem main_runs_registrable_sessions :
  forall (strip lower upper : string -> string) (h : Cli.host)
         (patch_ok : bool) (argv inputs : list string),
  exists acts e,
    Cli.main strip lower upper h patch_ok argv inputs = (Some acts, e)
    /\ Forall (fun kt => registrable Cli.CODECS (fst kt) = true
                         /\ snd kt = nth 1 argv Cli.DEFAULT_TRANSPORT)
              (sessions acts)
    /\ (List.length (sessions acts) <= S (List.length inputs))%nat
    /\ ends_as h 0 acts e.
Proof.
  intros strip lower upper h patch_ok argv inputs.
  destruct (menu_loop_spec strip lower upper h patch_ok
              (nth 1 argv Cli.DEFAULT_TRANSPORT) (S (List.length inputs)) 0 inputs)
    as (acts & e & Hm & Hall & Hlen & He); [lia |].
  unfold Cli.main. rewrite Hm.
  assert (Hmenu : exists acts0 e0,
    (Some acts, e) = (Some acts0, e0)
    /\ Forall (fun kt => registrable Cli.CODECS (fst kt) = true
                         /\ snd kt = nth 1 argv Cli.DEFAULT_TRANSPORT)
              (sessions acts0)
    /\ (List.length (sessions acts0) <= S (List.length inputs))%nat
    /\ ends_as h 0 acts0 e0).
  { exists acts, e. repeat split; try assumption. lia. }
  assert (Hfall : forall line, exists acts0 e0,
    (Some (Cli.Say line :: acts), e) = (Some acts0, e0)
    /\ Forall (fun kt => registrable Cli.CODECS (fst kt) = true
                         /\ snd kt = nth 1 argv Cli.DEFAULT_TRANSPORT)
              (sessions acts0)
    /\ (List.length (sessions acts0) <= S (List.length inputs))%nat
    /\ ends_as h 0 acts0 e0).
  { intros line. exists (Cli.Say line :: acts), e.
    split; [reflexivity |].
    change (sessions (Cli.Say line :: acts)) with (sessions acts).
    split; [exact Hall |]. split; [lia |].
    apply (ends_as_said h 0 [line]). exact He. }
  destruct argv as [| a0 [| a1 [| given more]]]; try exact Hmenu.
  set (arg := Cli.replace_dash (upper given)).
  assert (Hdirect : forall ks,
    registrable Cli.CODECS ks = true ->
    exists acts0 e0,
      match ks with
      | [] => (Some (Cli.Say ("[!] Unknown codec '" ++ given
                                ++ "' - falling to menu.")%string :: acts), e)
      | k :: rest =>
          match Cli.run_session patch_ok (k :: rest)
                  (nth 1 (a0 :: a1 :: given :: more) Cli.DEFAULT_TRANSPORT)
                  (Cli.session_raises h 0) with
          | (ran, Some x) => (Some ran, Some x)
          | (ran, None) => (Some (ran ++ [Cli.ResetHci]), Cli.reset_raises h 0)
          end
      end = (Some acts0, e0)
      /\ Forall (fun kt => registrable Cli.CODECS (fst kt) = true
                           /\ snd kt = nth 1 (a0 :: a1 :: given :: more)
                                         Cli.DEFAULT_TRANSPORT)
                (sessions acts0)
      /\ (List.length (sessions acts0) <= S (List.length inputs))%nat
      /\ ends_as h 0 acts0 e0).
  { intros ks Hr. destruct ks as [| k rest]; [discriminate |].
    destruct (run_session_runs patch_ok (k :: rest)
                (nth 1 (a0 :: a1 :: given :: more) Cli.DEFAULT_TRANSPORT)
                (Cli.session_raises h 0) Hr)
      as (ran & -> & Rs & Rr).
    destruct (Cli.session_raises h 0) as [x |] eqn:Es.
    - exists ran, (Some x). split; [reflexivity |]. rewrite Rs.
      split; [constructor; [now split | constructor] |].
      split; [cbn; lia |].
      exists 0%nat. rewrite Rs, Rr. split; [reflexivity |].
      split; [intros i Hi; lia |]. now left.
    - exists (ran ++ [Cli.ResetHci]), (Cli.reset_raises h 0).
      split; [reflexivity |].
      assert (Ts : sessions (ran ++ [Cli.ResetHci])
                   = [(k :: rest, nth 1 (a0 :: a1 :: given :: more)
                                      Cli.DEFAULT_TRANSPORT)])
        by (rewrite sessions_app, Rs; reflexivity).
      assert (Tr : resets (ran ++ [Cli.ResetHci]) = 1%nat)
        by (rewrite resets_app, Rr; reflexivity).
      rewrite Ts.
      split; [constructor; [now split | constructor] |].
      split; [cbn; lia |].
      unfold ends_as. rewrite Ts, Tr.
      destruct (Cli.reset_raises h 0) as [x |] eqn:Er.
      + exists 0%nat. split; [reflexivity |].
        split; [intros i Hi; lia |]. now right.
      + split; [reflexivity |]. cbn [List.length]. intros i Hi.
        replace i with 0%nat by lia. now split. }
  destruct (lookup Cli.CODECS arg) as [c |] eqn:Ec.
  - apply Hdirect. now apply (codec_key_resolves arg c).
  - destruct (lookup Cli.MENU_MAP arg) as [preset |] eqn:Em.
    + apply Hdirect. now apply (menu_entries_resolve arg).
    + apply Hfall.
Qed.

Example direct_argument_runs_one_session :
  Cli.main (fun s => s) (fun s => s) (fun s => s) quiet true
           ["codec_tester.py"; "usb:0"; "LDAC"] ["3"; "q"]
  = (Some [ Cli.Say "  LDAC + SBC + AAC"; Cli.Say "  Transport : usb:0";
            Cli.Say "  Patch     : active";
            Cli.Session ["LDAC"; "SBC"; "AAC"] "usb:0"; Cli.ResetHci ],
     None).
Proof. reflexivity. Qed.

Example failed_session_ends_main_without_reset :
  let r := Cli.main (fun s => s) (fun s => s) (fun s => s) second_fails true
                    ["codec_tester.py"] ["7"; "3"; "1"; "q"] in
  option_map sessions (fst r)
    = Some [ (["LDAC"; "SBC"; "AAC"], "hci-socket:0");
             (["APTX"; "SBC"; "AAC"], "hci-socket:0") ]
  /\ option_map resets (fst r) = Some 1%nat
  /\ snd r = Some (OSError "No such device").
Proof. vm_compute. repeat split. Qed.

(** ** Steps of the worker that the sampler does not see *)

Lemma calm_refl : forall st, calm st st.
Proof.
  intros st. unfold calm. repeat split; try lia.
  exists []. split; [now rewrite app_nil_r | reflexivity].
Qed.

Lemma calm_trans : forall a b c, calm a b -> calm b c -> calm a c.
Proof.
  intros a b c (P1 & S1 & L1 & D1 & B1 & x & Q1 & F1)
             (P2 & S2 & L2 & D2 & B2 & y & Q2 & F2).
  unfold calm. repeat split; try congruence; try lia.
  exists (x ++ y). split.
  - now rewrite Q2, Q1, app_assoc.
  - rewrite forallb_app. now rewrite F1, F2.
Qed.

Lemma calm_fold : forall (B : Type) (f : Gui.state -> B -> Gui.state)
    (l : list B) (st : Gui.state),
  (forall a b, calm a (f a b)) -> calm st (fold_left f l st).
Proof.
  intros B f l. induction l as [| b rest IH]; intros st Hf; cbn [fold_left].
  - apply calm_refl.
  - eapply calm_trans; [apply Hf | now apply IH].
Qed.

Ltac calm_close :=
  unfold calm; cbn; repeat split; try lia;
  first [ exists []; split; [now rewrite app_nil_r | reflexivity]
        | eexists; split; [reflexivity | reflexivity]
        | eexists; split; [rewrite <- app_assoc; reflexivity | reflexivity] ].

Lemma calm_start : forall sr ch k st, calm st (Gui.start sr ch k st).
Proof.
  intros sr ch k st. unfold Gui.start.
  destruct (Gui._backend (Gui._audio st)); [| calm_close].
  destruct (negb (String.eqb k "SBC")); [calm_close |].
  destruct (Gui.Popen (Gui.world st)) as [w [e | p]]; [calm_close |].
  cbn [Gui.set_world Gui.set_audio Gui.world Gui._audio].
  destruct (Gui.open_wb w) as [w' [e | f]]; calm_close.
Qed.

Lemma calm_write : forall data st, calm st (Gui.write data st).
Proof.
  intros data st. unfold Gui.write.
  destruct (Gui._proc (Gui._audio st)) as [p |]; [| apply calm_refl].
  destruct (Gui.active (Gui._audio st) && Gui.poll_is_None (Gui.world st) p);
    [| apply calm_refl].
  destruct (Gui.stdin_write (Gui.world st) p data) as [w [e | u]];
    [calm_close |].
  cbn [Gui.set_world Gui._audio Gui.world].
  destruct (Gui.dump_file (Gui._audio st)) as [f |]; [| calm_close].
  destruct (Gui.file_write w f data) as [w' [e | u']]; calm_close.
Qed.

Lemma calm_stop : forall st, calm st (Gui.stop st).
Proof.
  intros [q br [backend pr ac df] ae se fi eps pv w lc sd].
  destruct pr, df; calm_close.
Qed.

Lemma calm_on_rtp : forall k payload st, calm st (Gui._on_rtp k payload st).
Proof.
  intros k payload st. unfold Gui._on_rtp.
  destruct (String.eqb k "SBC" && (1 <? List.length payload)%nat).
  - destruct (calm_write (skipn 1 payload) st) as (P & S & L & D & B & x & Q & F).
    unfold calm. cbn [Gui.set_bytes_recv Gui.prev Gui.stop_event
                      Gui.loop_closed Gui.sampler_done
                      Gui.bytes_recv Gui._q].
    repeat split; try assumption; try lia. now exists x.
  - calm_close.
Qed.

Lemma calm_on_open : forall k n s st, calm st (Gui._on_open k n s st).
Proof.
  intros k n s st. unfold Gui._on_open.
  match goal with
  | |- context [Gui._emit ?ev st] =>
      assert (He : calm st (Gui._emit ev st)) by calm_close;
      remember (Gui._emit ev st) as st1 eqn:E1
  end.
  destruct (Gui._audio_enabled st1); [| exact He].
  match goal with
  | |- context [Gui.start ?sr ?ch k st1] =>
      pose proof (calm_start sr ch k st1) as Hs;
      remember (Gui.start sr ch k st1) as st2 eqn:E2
  end.
  eapply calm_trans; [exact He |]. eapply calm_trans; [exact Hs |].
  calm_close.
Qed.

Lemma calm_on_close : forall n st, calm st (Gui._on_close n st).
Proof.
  intros n st. unfold Gui._on_close.
  eapply calm_trans; [| apply calm_stop]. calm_close.
Qed.

Lemma calm_register : forall p ks st, calm st (fst (Gui.register p ks st)).
Proof.
  intros p ks. induction ks as [| key rest IH]; intros st;
    cbn [Gui.register]; [apply calm_refl |].
  destruct (lookup Gui.CODECS key) as [[[name mct] info] |]; [| apply calm_refl].
  destruct (add_sink p _ _);
    (eapply calm_trans; [| apply IH]); calm_close.
Qed.

Lemma calm_on_avdtp : forall ks p st, calm st (fst (Gui.on_avdtp ks p st)).
Proof.
  intros ks p st. unfold Gui.on_avdtp.
  destruct (Gui.fired st); [apply calm_refl |].
  destruct (names_of Gui.CODECS ks); [calm_close |].
  match goal with
  | |- context [Gui.register p ks ?s] =>
      pose proof (calm_register p ks s) as Hr;
      assert (H0 : calm st s) by calm_close;
      destruct (Gui.register p ks s) as [st1 [e |]]
  end; cbn [fst] in Hr |- *.
  - eapply calm_trans; eassumption.
  - eapply calm_trans; [exact H0 |]. eapply calm_trans; [exact Hr |]. calm_close.
Qed.

(** Every call of a listener by the stack is calm. *)
Lemma calm_handle : forall ks nt st,
  is_callback nt = true -> calm st (Gui.handle ks nt st).
Proof.
  intros ks nt st Hc. unfold Gui.handle.
  destruct nt as [p | s cfg | s | s | s payload | | | | raised];
    try discriminate.
  - apply calm_on_avdtp.
  - calm_close.
  - apply calm_fold. intros a kn. apply calm_on_open.
  - apply calm_fold. intros a n. apply calm_on_close.
  - apply calm_fold. intros a k. apply calm_on_rtp.
Qed.

(** ** The sampler's books *)

Lemma bitrates_app : forall q1 q2,
  Gui.bitrates (q1 ++ q2) = Gui.bitrates q1 ++ Gui.bitrates q2.
Proof. intros. unfold Gui.bitrates. apply flat_map_app. Qed.

Lemma bitrates_of_listeners : forall added,
  forallb Gui.from_listener added = true -> Gui.bitrates added = [].
Proof.
  induction added as [| ev rest IH]; [reflexivity |].
  cbn [forallb]. intros H. apply andb_prop in H as [He Hr].
  destruct ev; try discriminate; cbn; now apply IH.
Qed.

Lemma Qsum_snoc : forall l k, (Gui.Qsum (l ++ [k]) == Gui.Qsum l + k)%Q.
Proof.
  induction l as [| x rest IH]; intros k; cbn [app Gui.Qsum fold_right].
  - ring.
  - fold (Gui.Qsum (rest ++ [k])). fold (Gui.Qsum rest). rewrite IH. ring.
Qed.

Lemma accounted_calm : forall st st', accounted st -> calm st st' -> accounted st'.
Proof.
  intros st st' ((P0 & P1) & Hpos & Hsum) (P & S & L & D & B & added & Q & F).
  unfold accounted. rewrite Q, bitrates_app, (bitrates_of_listeners _ F),
    app_nil_r, P.
  repeat split; try assumption; lia.
Qed.

Lemma accounted_same : forall st st',
  Gui.prev st' = Gui.prev st ->
  Gui.bytes_recv st' = Gui.bytes_recv st ->
  Gui._q st' = Gui._q st ->
  accounted st -> accounted st'.
Proof.
  intros st st' P B Q H. unfold accounted in *. now rewrite P, B, Q.
Qed.

Lemma accounted_done : forall st, accounted st -> accounted (Gui._emit Gui.DONE st).
Proof.
  intros st ((P0 & P1) & Hpos & Hsum). unfold accounted.
  cbn [Gui._emit Gui.set_q Gui._q Gui.prev Gui.bytes_recv].
  rewrite bitrates_app. cbn [Gui.bitrates flat_map]. rewrite app_nil_r.
  repeat split; assumption.
Qed.

Lemma accounted_turn : forall st, accounted st -> accounted (Gui.bitrate_turn st).
Proof.
  intros st ((P0 & P1) & Hpos & Hsum). unfold Gui.bitrate_turn.
  destruct (Gui.bytes_recv st - Gui.prev st =? 0)%Z eqn:E; cbn [negb].
  - apply Z.eqb_eq in E. unfold accounted.
    cbn [Gui.set_prev Gui._q Gui.prev Gui.bytes_recv].
    assert (Heq : Gui.bytes_recv st = Gui.prev st) by lia.
    rewrite Heq. repeat split; try assumption; lia.
  - apply Z.eqb_neq in E. unfold accounted.
    cbn [Gui._emit Gui.set_q Gui.set_prev Gui._q Gui.prev Gui.bytes_recv].
    rewrite bitrates_app. cbn [Gui.bitrates flat_map app].
    split; [lia |]. split.
    + apply Forall_app. split; [exact Hpos |].
      constructor; [| constructor].
      unfold Gui.kbps_of, Qdiv, Qinv, Qmult, Qlt, inject_Z; cbn. lia.
    + rewrite Qsum_snoc, Hsum, kbps_of_eq.
      unfold Qeq, Qplus; cbn. lia.
Qed.

Lemma accounted_handle : forall ks nt st, accounted st -> accounted (Gui.handle ks nt st).
Proof.
  intros ks nt st H.
  destruct nt as [p | s cfg | s | s | s payload | | | | raised];
    try (apply (accounted_calm st); [exact H |];
         apply calm_handle; reflexivity).
  - unfold Gui.handle, Gui.bitrate_loop.
    destruct (Gui.sampler_done st); [exact H |].
    exact (accounted_turn st H).
  - unfold Gui.handle, Gui.request_stop.
    destruct (Gui.loop_closed st); exact H.
  - exact H.
  - unfold Gui.handle, Gui._thread_main.
    apply accounted_done.
    match goal with
    | |- accounted (Gui.stop ?s) =>
        apply (accounted_calm s); [| apply calm_stop]
    end.
    match goal with
    | |- accounted (Gui.set_loop_closed true ?s) =>
        apply (accounted_same s); [reflexivity | reflexivity | reflexivity |]
    end.
    destruct raised as [e |]; [| exact H].
    apply (accounted_calm st); [exact H | calm_close].
Qed.

Lemma accounted_run : forall ks nts ffplay audio w,
  accounted (Gui.run ks nts (Gui.new_worker ffplay audio w)).
Proof.
  intros ks nts ffplay audio w. unfold Gui.run.
  apply fold_left_preserves.
  - intros a nt. apply accounted_handle.
  - unfold accounted. cbn. repeat split; try lia. constructor.
Qed.

(** X9. In every session the sampler's books balance: whatever the
    notifications and their order, the previous reading never exceeds
    the counter and neither is negative, every [BITRATE] event on the
    queue carries a positive bitrate, and the bitrates reported add up
    to eight thousandths of the bytes sampled so far, so that each
    counted byte is reported at most once. *)
Theorem sampler_accounts_for_counted_bytes :
  forall (ks : list string) (nts : list Gui.notification)
         (ffplay audio : bool) (w : Gui.os),
    let st := Gui.run ks nts (Gui.new_worker ffplay audio w) in
    (0 <= Gui.prev st <= Gui.bytes_recv st)%Z
    /\ Forall (fun kbps => (0 < kbps)%Q) (Gui.bitrates (Gui._q st))
    /\ (Gui.Qsum (Gui.bitrates (Gui._q st)) == (Gui.prev st * 8) # 1000)%Q.
Proof.
  intros ks nts ffplay audio w. apply accounted_run.
Qed.

Lemma Qsum_positive : forall l,
  Forall (fun kbps => (0 < kbps)%Q) l -> l <> [] -> (0 < Gui.Qsum l)%Q.
Proof.
  induction l as [| x rest IH]; intros H Hne; [contradiction |].
  inversion H as [| y ys Hx Hr]; subst. cbn [Gui.Qsum fold_right].
  fold (Gui.Qsum rest). destruct rest as [| z zs].
  - cbn [Gui.Qsum fold_right]. rewrite Qplus_0_r. exact Hx.
  - assert (Hp : (0 < Gui.Qsum (z :: zs))%Q) by (apply IH; [exact Hr | discriminate]).
    replace 0%Q with (0 + 0)%Q by reflexivity.
    apply Qplus_lt_le_compat; [exact Hx | now apply Qlt_le_weak].
Qed.

(** ** The end of a session *)

Lemma not_done_of_listeners : forall added,
  forallb Gui.from_listener added = true -> no_done added = true.
Proof.
  unfold no_done. induction added as [| ev rest IH]; [reflexivity |].
  cbn [forallb]. intros H. apply andb_prop in H as [He Hr].
  rewrite (IH Hr). destruct ev; try discriminate; reflexivity.
Qed.

Lemma no_done_app : forall q1 q2,
  no_done (q1 ++ q2) = no_done q1 && no_done q2.
Proof. intros. unfold no_done. apply forallb_app. Qed.

(** Until [_run] ends, the loop stays open and no [DONE] is reported,
    whatever is asked of the worker. *)
Lemma handle_before_end : forall ks nt st,
  is_end nt = false ->
  Gui.loop_closed st = false ->
  no_done (Gui._q st) = true ->
  Gui.loop_closed (Gui.handle ks nt st) = false
  /\ no_done (Gui._q (Gui.handle ks nt st)) = true.
Proof.
  intros ks nt st Hn Hl Hq.
  destruct nt as [p | s cfg | s | s | s payload | | | | raised];
    try discriminate;
    try (match goal with
         | |- context [Gui.handle ks ?n st] =>
             destruct (calm_handle ks n st eq_refl)
               as (_ & _ & L & _ & _ & added & Q & F);
             rewrite L, Q, no_done_app, Hq;
             split; [exact Hl | now apply not_done_of_listeners]
         end).
  - unfold Gui.handle, Gui.bitrate_loop, Gui.bitrate_turn.
    destruct (Gui.sampler_done st); [now split |].
    destruct (negb _);
      cbn [Gui.set_sampler_done Gui._emit Gui.set_q Gui.set_prev
           Gui.loop_closed Gui._q];
      (split; [exact Hl |]); [| exact Hq].
    rewrite no_done_app, Hq. reflexivity.
  - unfold Gui.handle, Gui.request_stop. rewrite Hl. now split.
  - now split.
Qed.

(** The end of [_run]: the loop is closed, the player is released and
    [DONE] is the last event, after the error when [_run] raised. *)
Lemma thread_main_finishes : forall raised st,
  no_done (Gui._q st) = true ->
  let st' := Gui._thread_main raised st in
  Gui.loop_closed st' = true
  /\ released st'
  /\ Gui.stop_event st' = Gui.stop_event st
  /\ Gui._q st'
       = Gui._q st
           ++ match raised with
              | Some e => [Gui.LOG ("[ERROR] " ++ str_exn e)%string "error"]
              | None => []
              end ++ [Gui.DONE].
Proof.
  intros raised st Hq st'. unfold st', Gui._thread_main.
  match goal with
  | |- context [Gui.stop ?s] =>
      pose proof (stop_releases s) as R; cbv zeta in R;
      destruct R as (Ra & Rp & Rd & Rq & _);
      pose proof (stop_keeps s) as (_ & _ & Rs);
      pose proof (calm_stop s) as (_ & _ & Rl & _)
  end.
  cbn [Gui._emit Gui.set_q Gui.loop_closed Gui.stop_event Gui._q Gui._audio].
  unfold released. cbn [Gui._emit Gui.set_q Gui._audio].
  rewrite Ra, Rp, Rd, Rq, Rs, Rl.
  destruct raised as [e |];
    cbn [Gui.set_loop_closed Gui._emit_log Gui._emit Gui.set_q Gui.loop_closed
         Gui.stop_event Gui._q];
    repeat split.
  now rewrite <- app_assoc.
Qed.

(** With the loop closed a call of [stop()] does nothing. *)
Lemma stops_after_end : forall ks nts st,
  Gui.loop_closed st = true ->
  forallb is_stop nts = true ->
  Gui.run ks nts st = st.
Proof.
  intros ks nts. unfold Gui.run.
  induction nts as [| nt rest IH]; intros st Hl Hs; cbn [fold_left];
    [reflexivity |].
  cbn [forallb] in Hs. apply andb_prop in Hs as [Hn Hr].
  destruct nt; try discriminate.
  unfold Gui.handle, Gui.request_stop. rewrite Hl. now apply IH.
Qed.

(** The end of [_run] among a series of notifications, if any. *)
Lemma thread_of_worker : forall ks nts st,
  orderly nts = true ->
  Gui.loop_closed st = false ->
  no_done (Gui._q st) = true ->
  let st' := Gui.run ks nts st in
  Gui.loop_closed st' = existsb is_end nts
  /\ finished_once st'
  /\ (forall e, find is_end nts = Some (Gui.Ended (Some e)) ->
        exists before,
          Gui._q st'
            = before ++ [Gui.LOG ("[ERROR] " ++ str_exn e)%string "error";
                         Gui.DONE]).
Proof.
  intros ks nts. induction nts as [| nt rest IH]; intros st Ho Hl Hq.
  - cbn. unfold finished_once. rewrite Hl.
    repeat split; [exact Hq | discriminate].
  - assert (Hstep : is_end nt = false ->
              let st' := Gui.run ks (nt :: rest) st in
              Gui.loop_closed st' = existsb is_end (nt :: rest)
              /\ finished_once st'
              /\ (forall e, find is_end (nt :: rest) = Some (Gui.Ended (Some e)) ->
                    exists before,
                      Gui._q st'
                        = before ++ [Gui.LOG ("[ERROR] " ++ str_exn e)%string
                                             "error"; Gui.DONE])).
    { intros Hn. cbn [existsb find]. rewrite Hn. cbn [orb].
      destruct (handle_before_end ks nt st Hn Hl Hq) as [Hl' Hq'].
      apply (IH (Gui.handle ks nt st)); [| exact Hl' | exact Hq'].
      destruct nt; try exact Ho. discriminate. }
    destruct nt as [p | s cfg | s | s | s payload | | | | raised];
      try (apply Hstep; reflexivity).
    cbn [orderly] in Ho. cbv zeta.
    pose proof (thread_main_finishes raised st Hq) as T. cbv zeta in T.
    destruct T as (Tl & Tr & _ & Tq).
    assert (E : Gui.run ks (Gui.Ended raised :: rest) st
                = Gui._thread_main raised st)
      by apply (stops_after_end ks rest _ Tl Ho).
    rewrite E. cbn [existsb find is_end orb].
    split; [exact Tl |]. split.
    + unfold finished_once. rewrite Tl. split; [exact Tr |].
      exists (Gui._q st ++ match raised with
                           | Some e => [Gui.LOG ("[ERROR] " ++ str_exn e)%string
                                                "error"]
                           | None => []
                           end).
      split; [now rewrite Tq, app_assoc |].
      rewrite no_done_app, Hq. now destruct raised.
    + intros e He. inversion He; subst raised. exists (Gui._q st).
      now rewrite Tq.
Qed.

(** X11. In the life of a worker's thread, whatever reaches the worker
    until [_run] ends and however many calls of [stop()] follow, [DONE]
    is on the queue exactly when [_run] has ended, by returning or by
    raising: before that the loop is open and no [DONE] is reported,
    stop requests included; from then on the loop is closed, the queue
    ends in the one [DONE], which follows the error when [_run] raised,
    the player holds neither process nor dump file, and a call of
    [stop()] changes nothing. *)
Theorem done_is_reported_once_and_last :
  forall (ks : list string) (nts : list Gui.notification)
         (ffplay audio : bool) (w : Gui.os),
    orderly nts = true ->
    let st := Gui.run ks nts (Gui.new_worker ffplay audio w) in
    Gui.loop_closed st = existsb is_end nts
    /\ finished_once st
    /\ (forall e, find is_end nts = Some (Gui.Ended (Some e)) ->
          exists before,
            Gui._q st
              = before ++ [Gui.LOG ("[ERROR] " ++ str_exn e)%string "error";
                           Gui.DONE])
    /\ (forall more, forallb is_stop more = true ->
          existsb is_end nts = true ->
          Gui.run ks more st = st).
Proof.
  intros ks nts ffplay audio w Ho st.
  destruct (thread_of_worker ks nts (Gui.new_worker ffplay audio w) Ho
              eq_refl eq_refl) as (Hl & Hf & He).
  fold st in Hl, Hf, He.
  split; [exact Hl |]. split; [exact Hf |]. split; [exact He |].
  intros more Hm Hend. apply stops_after_end; [| exact Hm].
  now rewrite Hl.
Qed.

Lemma failed_transport_reports_done_unasked :
  let nts := [Gui.Ended (Some (OSError "No such device")); Gui.Stop] in
  let st := Gui.run ["SBC"; "AAC"] nts (Gui.new_worker true true machine) in
  Gui._q st = [Gui.LOG "[ERROR] No such device" "error"; Gui.DONE]
  /\ Gui.stop_event st = false
  /\ Gui.loop_closed st = true.
Proof.
  pose proof (done_is_reported_once_and_last ["SBC"; "AAC"]
                [Gui.Ended (Some (OSError "No such device")); Gui.Stop]
                true true machine eq_refl) as H.
  cbv zeta in H. destruct H as (Hl & _ & _ & _).
  cbv zeta. split; [reflexivity |]. split; [reflexivity | exact Hl].
Defined.

Example unopened_transport_ends_the_session :
  Gui._q (Gui._run (inl (OSError "No such device"))
            (Gui.new_worker true true machine))
  = [Gui.LOG "[ERROR] No such device" "error"; Gui.DONE]
  /\ Gui.stop_event (Gui._run (inl (OSError "No such device"))
                       (Gui.new_worker true true machine)) = false
  /\ Gui._q (Gui._run (inr tt) (Gui.new_worker true true machine))
     = [Gui.DISCOVERABLE]
  /\ Gui.endpoints (Gui._run (inr tt) (Gui.new_worker true true machine)) = [].
Proof. vm_compute. repeat split. Qed.

Example packets_between_stop_and_end_are_counted :
  let st := Gui.run ["SBC"; "AAC"]
              [Gui.Stop; Gui.RtpPacket 1 [x9c; x01]; Gui.Tick; Gui.Tick;
               Gui.Cancel; Gui.RtpPacket 1 [x9c; x01]; Gui.Tick;
               Gui.Ended None; Gui.Stop]
              (sbc_opened true) in
  Gui.bytes_recv st = 4%Z
  /\ Gui.bitrates (Gui._q st) = [Gui.kbps_of 2]
  /\ Gui.sampler_done st = true
  /\ last (Gui._q st) Gui.CONNECTED = Gui.DONE
  /\ no_done (removelast (Gui._q st)) = true.
Proof. vm_compute. repeat split. Qed.

(** ** Packets and listeners *)

Lemma fold_on_rtp_counts : forall (ls : list string) payload st,
  Gui.bytes_recv (fold_left (fun st k => Gui._on_rtp k payload st) ls st)
  = (Gui.bytes_recv st
     + Z.of_nat (List.length ls) * Z.of_nat (List.length payload))%Z.
Proof.
  induction ls as [| k rest IH]; intros payload st; cbn [fold_left List.length].
  - lia.
  - rewrite IH, on_rtp_counts. lia.
Qed.

Lemma fold_same_endpoints : forall (B : Type) (f : Gui.state -> B -> Gui.state)
    (l : list B) (st : Gui.state),
  (forall a b, Gui.endpoints (f a b) = Gui.endpoints a) ->
  Gui.endpoints (fold_left f l st) = Gui.endpoints st.
Proof.
  intros B f l. induction l as [| b rest IH]; intros st Hf; cbn [fold_left];
    [reflexivity |].
  now rewrite IH, Hf.
Qed.

Lemma run_keeps_audio_enabled : forall ks nts st,
  Gui._audio_enabled (Gui.run ks nts st) = Gui._audio_enabled st.
Proof.
  intros ks nts. unfold Gui.run.
  assert (Hfold : forall (B : Type) (f : Gui.state -> B -> Gui.state) l st,
            (forall a b, Gui._audio_enabled (f a b) = Gui._audio_enabled a) ->
            Gui._audio_enabled (fold_left f l st) = Gui._audio_enabled st).
  { intros B f l. induction l as [| b rest IH]; intros st Hf; cbn [fold_left];
      [reflexivity |]. now rewrite IH, Hf. }
  intros st. apply Hfold. clear st. intros st nt. unfold Gui.handle.
  destruct nt as [p | s cfg | s | s | s payload | | | | raised].
  - pose proof (gui_on_avdtp_keeps ks p st) as K. cbv zeta in K. apply K.
  - reflexivity.
  - apply Hfold. intros a kn. unfold Gui._on_open.
    cbn [Gui._emit Gui.set_q Gui._audio_enabled].
    destruct (Gui._audio_enabled a) eqn:Ea; [| exact Ea].
    cbn [Gui.on_rtp_packet Gui.set_endpoints Gui._audio_enabled].
    match goal with
    | |- context [Gui.start ?sr ?ch ?k ?st0] =>
        pose proof (start_keeps sr ch k st0) as (_ & _ & _ & Kae)
    end.
    rewrite Kae. exact Ea.
  - apply Hfold. intros a n. unfold Gui._on_close.
    now rewrite (proj1 (proj2 (stop_keeps _))).
  - apply Hfold. intros a k. unfold Gui._on_rtp.
    cbn [Gui.set_bytes_recv Gui._audio_enabled].
    destruct (String.eqb k "SBC" && (1 <? List.length payload)%nat);
      [| reflexivity].
    unfold Gui.write.
    destruct (Gui._proc (Gui._audio a)) as [pr |]; [| reflexivity].
    destruct (Gui.active (Gui._audio a) && Gui.poll_is_None (Gui.world a) pr);
      [| reflexivity].
    destruct (Gui.stdin_write (Gui.world a) pr (skipn 1 payload)) as [w [e | u]];
      [reflexivity |].
    cbn [Gui.set_world Gui._audio Gui.world].
    destruct (Gui.dump_file (Gui._audio a)) as [f |]; [| reflexivity].
    destruct (Gui.file_write w f (skipn 1 payload)) as [w' [e | u']]; reflexivity.
  - unfold Gui.bitrate_loop, Gui.bitrate_turn.
    destruct (Gui.sampler_done st); [reflexivity |].
    destruct (negb _); reflexivity.
  - unfold Gui.request_stop. destruct (Gui.loop_closed st); reflexivity.
  - reflexivity.
  - unfold Gui._thread_main. cbn [Gui._emit Gui.set_q Gui._audio_enabled].
    rewrite (proj1 (proj2 (stop_keeps _))). now destruct raised.
Qed.

(** X12. A media packet raises the counter by the length of its payload
    once for every packet listener its end point has, whether or not a
    stop has been asked for.  In a session with live playback ticked
    every opening of an end point attaches one more packet listener to
    it, and closing removes none: an end point opened [n] times counts
    each packet [n] times. *)
Theorem packet_is_counted_once_per_listener :
  forall (ks : list string) (s : nat) (payload : bytes) (st : Gui.state),
    Gui.bytes_recv (Gui.handle ks (Gui.RtpPacket s payload) st)
    = (Gui.bytes_recv st
       + Z.of_nat (List.length (Gui.listeners Gui.rtp_listeners s st))
         * Z.of_nat (List.length payload))%Z
    /\ Gui.listeners Gui.rtp_listeners s (Gui.handle ks (Gui.Close s) st)
       = Gui.listeners Gui.rtp_listeners s st
    /\ (forall (nts : list Gui.notification) (ffplay : bool) (w : Gui.os)
               (ep : Gui.endpoint),
          st = Gui.run ks nts (Gui.new_worker ffplay true w) ->
          Gui.find_endpoint s st = Some ep ->
          List.length
            (Gui.listeners Gui.rtp_listeners s (Gui.handle ks (Gui.Open s) st))
          = S (List.length (Gui.listeners Gui.rtp_listeners s st))).
Proof.
  intros ks s payload st. split; [| split].
  - unfold Gui.handle. apply fold_on_rtp_counts.
  - unfold Gui.handle, Gui.listeners at 1 3, Gui.find_endpoint.
    rewrite fold_same_endpoints; [reflexivity |].
    intros a n. unfold Gui._on_close. now rewrite (proj1 (stop_keeps _)).
  - intros nts ffplay w ep -> Hf.
    assert (Hw : wired (Gui.run ks nts (Gui.new_worker ffplay true w))).
    { unfold Gui.run. apply fold_left_preserves.
      - intros a nt. apply handle_keeps_wired.
      - constructor. }
    assert (Hl : exists k n,
              Gui.listeners Gui.open_listeners s
                (Gui.run ks nts (Gui.new_worker ffplay true w)) = [(k, n)]).
    { unfold Gui.listeners. rewrite Hf.
      unfold Gui.find_endpoint in Hf. apply find_some in Hf as [Hin _].
      unfold wired in Hw. rewrite Forall_forall in Hw.
      destruct (Hw ep Hin) as (k & n & Ho & _). now exists k, n. }
    destruct Hl as (k & n & Hl).
    pose proof (open_attaches_one_listener ks s k n _
                  (run_keeps_audio_enabled ks nts
                     (Gui.new_worker ffplay true w)) Hl) as H.
    cbv zeta in H. destruct H as (_ & _ & Hr & _).
    rewrite Hr, length_app. cbn [List.length]. lia.
Qed.

Lemma sbc_end_point_opened_twice_has_two_listeners :
  Gui.bytes_recv
    (Gui.handle ["SBC"; "AAC"] (Gui.RtpPacket 1 [x9c; x01; x02])
       (Gui.handle ["SBC"; "AAC"] (Gui.Open 1) (sbc_opened true)))
  = 6%Z.
Proof.
  unfold sbc_opened.
  set (st := Gui.run ["SBC"; "AAC"] [Gui.Connection accepting; Gui.Open 1]
               (Gui.new_worker true true machine)).
  assert (Hf : Gui.find_endpoint 1 st
               = Some (Gui.mkEndpoint 1 (mkCaps "AUDIO" 0%N [xff; xff; x02; x35])
                         None [("SBC", "SBC")] ["SBC"] ["SBC"]))
    by (vm_compute; reflexivity).
  assert (Hb : Gui.bytes_recv (Gui.handle ["SBC"; "AAC"] (Gui.Open 1) st) = 0%Z)
    by (vm_compute; reflexivity).
  assert (Hn : List.length (Gui.listeners Gui.rtp_listeners 1 st) = 1%nat)
    by (vm_compute; reflexivity).
  destruct (packet_is_counted_once_per_listener ["SBC"; "AAC"] 1
              [x9c; x01; x02] st) as (_ & _ & Hopen).
  pose proof (Hopen [Gui.Connection accepting; Gui.Open 1] true machine _
                    (eq_refl st) Hf) as Hopened.
  destruct (packet_is_counted_once_per_listener ["SBC"; "AAC"] 1
              [x9c; x01; x02] (Gui.handle ["SBC"; "AAC"] (Gui.Open 1) st))
    as (Hcount & _).
  rewrite Hcount, Hopened, Hb, Hn. reflexivity.
Defined.

(** ** What reaches the player and the dump file *)

Lemma nth_error_alter_other : forall (A : Type) (f : A -> A) (i j : nat) (l : list A),
  i <> j -> nth_error (Gui.alter f i l) j = nth_error l j.
Proof.
  intros A f i j l. revert i j.
  induction l as [| x rest IH]; intros [| i] [| j] H; cbn; try reflexivity.
  - contradiction.
  - apply IH. lia.
Qed.

(** X13. [write] hands the dump file only what it has handed to the
    pipe, byte for byte: either nothing is written anywhere, or the
    data go to the pipe and to the dump file alike, or they go to the
    pipe only, the dump file could not take them, and playback is
    switched off. *)
Theorem dump_receives_only_what_the_pipe_received :
  forall (data : bytes) (st : Gui.state) (p f : nat),
    Gui._proc (Gui._audio st) = Some p ->
    Gui.dump_file (Gui._audio st) = Some f ->
    let st' := Gui.write data st in
    Gui.world st' = Gui.world st
    \/ (Gui.piped (Gui.world st') p = Gui.piped (Gui.world st) p ++ data
        /\ Gui.dumped (Gui.world st') f = Gui.dumped (Gui.world st) f ++ data
        /\ Gui._audio st' = Gui._audio st)
    \/ (Gui.piped (Gui.world st') p = Gui.piped (Gui.world st) p ++ data
        /\ Gui.dumped (Gui.world st') f = Gui.dumped (Gui.world st) f
        /\ Gui.active (Gui._audio st') = false).
Proof.
  intros data st p f Hp Hf st'. subst st'. unfold Gui.write. rewrite Hp.
  destruct (Gui.active (Gui._audio st) && Gui.poll_is_None (Gui.world st) p);
    [| now left].
  unfold Gui.stdin_write.
  destruct (nth_error (Gui.procs (Gui.world st)) p) as [pr |] eqn:En;
    [| now left].
  destruct (Gui.stdin_closed pr); [now left |].
  destruct (Gui.reader_gone pr || negb (Gui.running pr)); [now left |].
  cbn [Gui.set_world Gui._audio Gui.world]. rewrite Hf.
  right.
  assert (Hpipe : forall fs,
    Gui.piped (Gui.mkOs (Gui.can_spawn (Gui.world st)) (Gui.can_open (Gui.world st))
                 (Gui.alter (fun pr0 => Gui.mkProcess (Gui.running pr0)
                                          (Gui.stdin_closed pr0) (Gui.reader_gone pr0)
                                          (Gui.stdin_data pr0 ++ data))
                            p (Gui.procs (Gui.world st))) fs) p
    = Gui.piped (Gui.world st) p ++ data).
  { intros fs. unfold Gui.piped. cbn [Gui.procs].
    rewrite nth_error_alter_same, En. reflexivity. }
  unfold Gui.file_write, Gui.set_procs. cbn [Gui.files].
  destruct (nth_error (Gui.files (Gui.world st)) f) as [fl |] eqn:Ef.
  - destruct (Gui.closed fl); [right |].
    { unfold Gui.pipe_error.
      cbn [Gui.set_world Gui.set_audio Gui._emit_log Gui._emit Gui.set_q
           Gui.world Gui._audio Gui.set_active Gui.active].
      split; [apply Hpipe | split; [| reflexivity]].
      unfold Gui.dumped. cbn [Gui.files]. reflexivity. }
    destruct (List.length data <=? Gui.buffer_size fl - Gui.pending fl)%nat;
      [left |].
    { cbn [Gui.set_world Gui.world Gui._audio Gui.set_files Gui.files
           Gui.procs Gui.can_spawn Gui.can_open].
      split; [apply Hpipe | split].
      + unfold Gui.dumped, Gui.set_files. cbn [Gui.files].
        rewrite nth_error_alter_same, Ef. reflexivity.
      + now destruct st as [q br a ae se fi eps pv w lc sd]. }
    destruct (Gui.device_full fl); [right | left].
    { unfold Gui.pipe_error.
      cbn [Gui.set_world Gui.set_audio Gui._emit_log Gui._emit Gui.set_q
           Gui.world Gui._audio Gui.set_active Gui.active].
      split; [apply Hpipe | split; [| reflexivity]].
      unfold Gui.dumped. cbn [Gui.files]. reflexivity. }
    cbn [Gui.set_world Gui.world Gui._audio Gui.set_files Gui.files
         Gui.procs Gui.can_spawn Gui.can_open].
    split; [apply Hpipe | split].
    + unfold Gui.dumped, Gui.set_files. cbn [Gui.files].
      rewrite nth_error_alter_same, Ef. reflexivity.
    + now destruct st as [q br a ae se fi eps pv w lc sd].
  - right. unfold Gui.pipe_error.
    cbn [Gui.set_world Gui.set_audio Gui._emit_log Gui._emit Gui.set_q
         Gui.world Gui._audio Gui.set_active Gui.active].
    split; [apply Hpipe | split; [| reflexivity]].
    unfold Gui.dumped. cbn [Gui.files]. reflexivity.
Qed.

Lemma playing_write_outcomes :
  Gui.world (Gui.write [x01; x02] playing) = Gui.world playing
  \/ (Gui.piped (Gui.world (Gui.write [x01; x02] playing)) 0
        = Gui.piped (Gui.world playing) 0 ++ [x01; x02]
      /\ Gui.dumped (Gui.world (Gui.write [x01; x02] playing)) 0
           = Gui.dumped (Gui.world playing) 0 ++ [x01; x02]
      /\ Gui._audio (Gui.write [x01; x02] playing) = Gui._audio playing)
  \/ (Gui.piped (Gui.world (Gui.write [x01; x02] playing)) 0
        = Gui.piped (Gui.world playing) 0 ++ [x01; x02]
      /\ Gui.dumped (Gui.world (Gui.write [x01; x02] playing)) 0
           = Gui.dumped (Gui.world playing) 0
      /\ Gui.active (Gui._audio (Gui.write [x01; x02] playing)) = false).
Proof.
  exact (dump_receives_only_what_the_pipe_received
           [x01; x02] playing 0 0 eq_refl eq_refl).
Defined.

(** X14. While the player is active, its process runs with an open
    pipe and the dump file can be written, an SBC packet of more than
    one byte is forwarded without its first byte, the same bytes to the
    pipe and to the dump file, and counted with its full length, header
    byte included; neither the player nor the queue changes.  A payload
    of at most one byte, or a packet of another codec, is counted and
    reaches neither sink. *)
Theorem relay_forwards_payload_without_header :
  forall (k : string) (payload : bytes) (st : Gui.state) (p f : nat)
         (pr : Gui.process) (fl : Gui.file),
    Gui._proc (Gui._audio st) = Some p ->
    Gui.dump_file (Gui._audio st) = Some f ->
    Gui.active (Gui._audio st) = true ->
    nth_error (Gui.procs (Gui.world st)) p = Some pr ->
    Gui.running pr = true ->
    Gui.stdin_closed pr = false ->
    Gui.reader_gone pr = false ->
    nth_error (Gui.files (Gui.world st)) f = Some fl ->
    Gui.closed fl = false ->
    Gui.device_full fl = false ->
    let st' := Gui._on_rtp k payload st in
    Gui.bytes_recv st' = (Gui.bytes_recv st + Z.of_nat (List.length payload))%Z
    /\ Gui._audio st' = Gui._audio st
    /\ Gui._q st' = Gui._q st
    /\ (if String.eqb k "SBC" && (1 <? List.length payload)%nat then
          Gui.piped (Gui.world st') p
            = Gui.piped (Gui.world st) p ++ skipn 1 payload
          /\ Gui.dumped (Gui.world st') f
               = Gui.dumped (Gui.world st) f ++ skipn 1 payload
        else Gui.world st' = Gui.world st).
Proof.
  intros k payload st p f pr fl Hp Hf Ha En Hr Hc Hg Ef Hfc Hfd st'.
  split; [apply on_rtp_counts |]. subst st'. unfold Gui._on_rtp.
  destruct (String.eqb k "SBC" && (1 <? List.length payload)%nat);
    [| repeat split].
  unfold Gui.write, Gui.poll_is_None, Gui.stdin_write.
  rewrite Hp, Ha, En, Hr, Hc, Hg. cbn [andb orb negb].
  cbn [Gui.set_world Gui._audio Gui.world]. rewrite Hf.
  unfold Gui.file_write, Gui.set_procs. cbn [Gui.files].
  rewrite Ef, Hfc, Hfd.
  destruct (List.length (skipn 1 payload)
              <=? Gui.buffer_size fl - Gui.pending fl)%nat;
    cbn [Gui.set_world Gui.set_bytes_recv Gui.world Gui._audio Gui._q];
    unfold Gui.piped, Gui.dumped, Gui.set_files; cbn [Gui.files Gui.procs];
    rewrite !nth_error_alter_same, En, Ef;
    repeat split; try now destruct st as [q br a ae se fi eps pv w lc sd].
Qed.

Lemma playing_forwards_two_of_three_bytes :
  Gui.piped (Gui.world (Gui._on_rtp "SBC" [x9c; x01; x02] playing)) 0 = [x01; x02]
  /\ Gui.dumped (Gui.world (Gui._on_rtp "SBC" [x9c; x01; x02] playing)) 0
       = [x01; x02]
  /\ Gui.bytes_recv (Gui._on_rtp "SBC" [x9c; x01; x02] playing) = 3%Z.
Proof.
  destruct (relay_forwards_payload_without_header "SBC" [x9c; x01; x02] playing
              0 0 (Gui.mkProcess true false false []) (Gui.mkFile false false Gui.DEFAULT_BUFFER_SIZE 0 [])
              eq_refl eq_refl eq_refl eq_refl eq_refl eq_refl eq_refl
              eq_refl eq_refl eq_refl) as (Hb & _ & _ & Hw).
  cbn [String.eqb Ascii.eqb Bool.eqb andb Nat.ltb Nat.leb List.length] in Hw.
  destruct Hw as [Hpipe Hdump].
  split; [exact Hpipe | split; [exact Hdump | exact Hb]].
Defined.

Example full_device_is_noticed_when_the_buffer_is_emptied :
  let w0 := Gui.mkOs true true [] [Gui.mkFile false true 4 0 []] in
  let w1 := fst (Gui.file_write w0 0 [x01; x02]) in
  snd (Gui.file_write w0 0 [x01; x02]) = inr tt
  /\ Gui.dumped w1 0 = [x01; x02]
  /\ snd (Gui.file_write w1 0 [x03; x04; x05])
       = inl (OSError "No space left on device")
  /\ fst (Gui.file_write w1 0 [x03; x04; x05]) = w1
  /\ snd (Gui.file_close w1 0) = inl (OSError "No space left on device")
  /\ Gui.file_closed (fst (Gui.file_close w1 0)) 0 = true.
Proof. vm_compute. repeat split. Qed.

(** ** What a start and a stop leave behind *)

Lemma alter_fresh : forall (A : Type) (g : A -> A) (l : list A) (x : A),
  Gui.alter g (List.length l) (l ++ [x]) = l ++ [g x].
Proof.
  intros A g l x. induction l as [| y rest IH]; cbn; [reflexivity |].
  now rewrite IH.
Qed.

Lemma nth_error_snoc : forall (A : Type) (l : list A) (x y : A) (p : nat),
  nth_error (l ++ [x]) p = Some y -> nth_error l p = Some y \/ y = x.
Proof.
  intros A l x y p H.
  destruct (Nat.lt_ge_cases p (List.length l)) as [Hlt | Hge].
  - left. now rewrite nth_error_app1 in H.
  - right. rewrite nth_error_app2 in H by exact Hge.
    destruct (p - List.length l)%nat as [| n]; cbn in H.
    + now inversion H.
    + destruct n; discriminate.
Qed.

(** X15. Starting a player that holds nothing and stopping it again
    leaves nothing behind, whatever went wrong in between: the player
    holds neither process nor dump file, every process of the machine
    is either one that was there before, untouched, or has been
    terminated with its pipe closed, and every file object is either
    one that was there before, untouched, or has been closed. *)
Theorem start_then_stop_leaves_nothing_behind :
  forall (sr ch : N) (k : string) (st : Gui.state),
    Gui._proc (Gui._audio st) = None ->
    Gui.dump_file (Gui._audio st) = None ->
    let st' := Gui.stop (Gui.start sr ch k st) in
    released st'
    /\ (forall p pr,
          nth_error (Gui.procs (Gui.world st')) p = Some pr ->
          nth_error (Gui.procs (Gui.world st)) p = Some pr
          \/ (Gui.running pr = false /\ Gui.stdin_closed pr = true))
    /\ (forall f fl,
          nth_error (Gui.files (Gui.world st')) f = Some fl ->
          nth_error (Gui.files (Gui.world st)) f = Some fl
          \/ Gui.closed fl = true).
Proof.
  intros sr ch k [q br [backend pr ac df] ae se fi eps pv [cs co ps fs] lc sd] Hp Hd.
  cbn in Hp, Hd. subst pr df. cbv zeta.
  unfold Gui.start. cbn [Gui._audio Gui._backend Gui.world].
  destruct backend as [b |];
    [| cbn; split; [repeat split | split; intros; now left]].
  destruct (negb (String.eqb k "SBC"));
    [cbn; split; [repeat split | split; intros; now left] |].
  unfold Gui.Popen. cbn [Gui.can_spawn Gui.procs].
  destruct cs; [| cbn; split; [repeat split | split; intros; now left]].
  cbn [Gui.set_world Gui.set_audio Gui.set_proc Gui.set_active Gui.world
       Gui._audio Gui.set_procs Gui.can_spawn Gui.can_open Gui.procs Gui.files
       Gui._backend Gui._proc Gui.active Gui.dump_file].
  unfold Gui.open_wb. cbn [Gui.can_open Gui.files].
  destruct co.
  - unfold Gui.stop, Gui.stdin_close, Gui.terminate, Gui.file_close, released.
    cbn [Gui.set_audio Gui.set_active Gui.set_proc Gui.set_dump_file
         Gui.set_world Gui._audio Gui._proc Gui.dump_file Gui.active Gui.world
         Gui.set_procs Gui.set_files Gui.procs Gui.files Gui.can_spawn
         Gui.can_open Gui._emit_log Gui._emit Gui.set_q].
    rewrite !alter_fresh.
    split; [repeat split | split].
    + intros p pr H. apply nth_error_snoc in H as [H | ->];
        [now left | right; now split].
    + intros f fl H. apply nth_error_snoc in H as [H | ->];
        [now left | now right].
  - unfold Gui.stop, Gui.stdin_close, Gui.terminate, Gui.file_close, released.
    cbn [Gui.set_audio Gui.set_active Gui.set_proc Gui.set_dump_file
         Gui.set_world Gui._audio Gui._proc Gui.dump_file Gui.active Gui.world
         Gui.set_procs Gui.set_files Gui.procs Gui.files Gui.can_spawn
         Gui.can_open Gui._emit_log Gui._emit Gui.set_q].
    rewrite !alter_fresh.
    split; [repeat split | split].
    + intros p pr H. apply nth_error_snoc in H as [H | ->];
        [now left | right; now split].
    + intros f fl H. now left.
Qed.

Lemma fresh_worker_start_stop_is_clean :
  released (Gui.stop (Gui.start 44100 2 "SBC" (Gui.new_worker true true machine))).
Proof.
  apply (start_then_stop_leaves_nothing_behind 44100 2 "SBC"
           (Gui.new_worker true true machine)); reflexivity.
Defined.

Example second_start_leaks_the_first_process :
  let st := Gui.stop (Gui.start 44100 2 "SBC"
                        (Gui.start 44100 2 "SBC"
                           (Gui.new_worker true true machine))) in
  Gui.terminated (Gui.world st) 0 = false
  /\ Gui.terminated (Gui.world st) 1 = true
  /\ Gui.file_closed (Gui.world st) 0 = false.
Proof. vm_compute. repeat split. Qed.

(** ** The bitrate history of the window *)

Lemma lastn_all : forall (A : Type) (n : nat) (l : list A),
  (List.length l <= n)%nat -> Gui.lastn n l = l.
Proof.
  intros A n l H. unfold Gui.lastn.
  replace (List.length l - n)%nat with 0%nat by lia. reflexivity.
Qed.

Lemma lastn_length : forall (A : Type) (n : nat) (l : list A),
  (List.length (Gui.lastn n l) <= n)%nat.
Proof. intros A n l. unfold Gui.lastn. rewrite length_skipn. lia. Qed.

Lemma lastn_app_lastn : forall (A : Type) (n : nat) (l r : list A),
  Gui.lastn n (Gui.lastn n l ++ r) = Gui.lastn n (l ++ r).
Proof.
  intros A n l r.
  destruct (Nat.le_gt_cases (List.length l) n) as [Hle | Hgt].
  - now rewrite (lastn_all A n l Hle).
  - unfold Gui.lastn. rewrite !length_app, length_skipn.
    rewrite (skipn_app (List.length l + List.length r - n)).
    rewrite (skipn_app (List.length l - (List.length l - n)
                        + List.length r - n)).
    rewrite length_skipn, skipn_skipn.
    replace (List.length l - (List.length l - n) + List.length r - n
             + (List.length l - n))%nat
      with (List.length l + List.length r - n)%nat by lia.
    f_equal. f_equal. lia.
Qed.

Lemma handle_history : forall ev w,
  Gui._bitrate_history (Gui._handle ev w)
  = Gui.lastn (Nat.max 200 (List.length (Gui._bitrate_history w)))
              (Gui._bitrate_history w ++ Gui.bitrates [ev])
    \/ Gui._bitrate_history (Gui._handle ev w)
       = Gui.lastn 200 (Gui._bitrate_history w ++ Gui.bitrates [ev]).
Proof.
  intros ev w. destruct ev; cbn [Gui._handle Gui.bitrates flat_map List.app];
    try (left; rewrite app_nil_r; cbn [Gui._bitrate_history];
         symmetry; apply lastn_all; lia).
  - left. rewrite app_nil_r.
    destruct (Gui.max_kbps info) as [mk |]; [destruct (mk =? 0)%N |];
      cbn [Gui._bitrate_history]; symmetry; apply lastn_all; lia.
  - right. cbn [Gui._bitrate_history].
    destruct (200 <? List.length (Gui._bitrate_history w ++ [kbps]))%nat eqn:E;
      [reflexivity |].
    apply Nat.ltb_ge in E. symmetry. now apply lastn_all.
Qed.

Lemma poll_history : forall queue app,
  (List.length (Gui._bitrate_history app) <= 200)%nat ->
  Gui._bitrate_history (Gui._poll queue app)
  = Gui.lastn 200 (Gui._bitrate_history app ++ Gui.bitrates queue).
Proof.
  unfold Gui._poll. induction queue as [| ev rest IH]; intros app Hlen;
    cbn [fold_left].
  - cbn [Gui.bitrates flat_map]. rewrite app_nil_r. symmetry.
    now apply lastn_all.
  - assert (Hstep : Gui._bitrate_history (Gui._handle ev app)
              = Gui.lastn 200 (Gui._bitrate_history app ++ Gui.bitrates [ev])).
    { destruct (handle_history ev app) as [H | H]; [| exact H].
      rewrite H. now rewrite Nat.max_l by exact Hlen. }
    rewrite IH by (rewrite Hstep; apply lastn_length).
    rewrite Hstep, lastn_app_lastn, <- app_assoc.
    change (ev :: rest) with ([ev] ++ rest). now rewrite bitrates_app.
Qed.

(** X16. The window keeps the last two hundred bitrates and no more:
    after any batch of events has been polled, the history is the last
    200 of the bitrates it held followed by those just reported, in
    order; other events leave it as it is.  A history that [_start] has
    emptied therefore holds the last 200 bitrates of the session. *)
Theorem history_keeps_the_last_200_bitrates :
  forall (queue : list Gui.event) (app : Gui.App),
    (List.length (Gui._bitrate_history app) <= 200)%nat ->
    Gui._bitrate_history (Gui._poll queue app)
      = Gui.lastn 200 (Gui._bitrate_history app ++ Gui.bitrates queue)
    /\ (List.length (Gui._bitrate_history (Gui._poll queue app)) <= 200)%nat
    /\ Gui._bitrate_history (Gui._poll queue (fst (Gui._start app)))
         = Gui.lastn 200 (Gui.bitrates queue).
Proof.
  intros queue app Hlen. split; [now apply poll_history |]. split.
  - rewrite poll_history by exact Hlen. apply lastn_length.
  - rewrite poll_history.
    + unfold Gui._start.
      destruct (Gui._get_keys (Gui._codec_vars app)) as [| k ks] eqn:E.
      * exfalso. pose proof (append_mandatory_incl
          (map fst (filter (fun kv => snd kv) (Gui._codec_vars app)))) as Hi.
        unfold Gui._get_keys in E. rewrite E in Hi. apply (Hi "SBC"). cbn. tauto.
      * reflexivity.
    + unfold Gui._start.
      destruct (Gui._get_keys (Gui._codec_vars app)); cbn; [exact Hlen | lia].
Qed.

Lemma three_samples_are_kept_in_order :
  Gui._bitrate_history
    (Gui._poll [Gui.BITRATE 80; Gui.CONNECTED; Gui.BITRATE 96; Gui.BITRATE 64]
               Gui.new_app)
  = [80; 96; 64]%Q.
Proof.
  destruct (history_keeps_the_last_200_bitrates
              [Gui.BITRATE 80; Gui.CONNECTED; Gui.BITRATE 96; Gui.BITRATE 64]
              Gui.new_app) as (H & _); [cbn; lia |].
  rewrite H. reflexivity.
Defined.

(** ** Listeners in a session *)

Lemma first_end_point_has_its_listeners :
  exists k n,
    Gui.listeners Gui.open_listeners 1
      (Gui.run ["SBC"] [Gui.Connection accepting]
               (Gui.new_worker true false machine)) = [(k, n)]
    /\ Gui.listeners Gui.close_listeners 1
         (Gui.run ["SBC"] [Gui.Connection accepting]
                  (Gui.new_worker true false machine)) = [n].
Proof.
  apply (reachable_listeners ["SBC"] [Gui.Connection accepting] true false
           machine 1
           (Gui.mkEndpoint 1 (mkCaps "AUDIO" 0%N [xff; xff; x02; x35]) None
              [("SBC", "SBC")] ["SBC"] [])).
  vm_compute. reflexivity.
Defined.

(** ** A session without live playback, seen from the window *)

(** X10. With live playback unticked the bitrate display stays dead: in
    every session the counter stays at zero and no [BITRATE] event is
    ever put on the queue, whatever is opened and streamed, so the
    history behind the chart of a window that has started such a
    session stays empty. *)
Theorem no_bitrate_without_playback :
  forall (ks : list string) (nts : list Gui.notification)
         (ffplay : bool) (w : Gui.os) (window : Gui.App),
    let st := Gui.run ks nts (Gui.new_worker ffplay false w) in
    Gui.bytes_recv st = 0%Z
    /\ Gui.bitrates (Gui._q st) = []
    /\ Gui._bitrate_history (Gui._poll (Gui._q st) (fst (Gui._start window))) = [].
Proof.
  intros ks nts ffplay w window st.
  assert (Hd : deaf st).
  { unfold st, Gui.run. apply fold_left_preserves.
    - intros a nt. apply handle_keeps_deaf.
    - repeat split. constructor. }
  destruct Hd as (_ & Hb & _).
  destruct (accounted_run ks nts ffplay false w) as ((P0 & P1) & Hpos & Hsum).
  fold st in P0, P1, Hpos, Hsum.
  assert (Hnone : Gui.bitrates (Gui._q st) = []).
  { destruct (Gui.bitrates (Gui._q st)) as [| x rest] eqn:E; [reflexivity |].
    exfalso.
    assert (Hp : (0 < Gui.Qsum (x :: rest))%Q)
      by (apply Qsum_positive; [exact Hpos | discriminate]).
    rewrite Hsum in Hp. replace (Gui.prev st) with 0%Z in Hp by lia.
    discriminate Hp. }
  split; [exact Hb |]. split; [exact Hnone |].
  rewrite poll_history.
  - rewrite Hnone, app_nil_r. unfold Gui._start.
    destruct (Gui._get_keys (Gui._codec_vars window)) as [| k rest] eqn:E.
    + exfalso. pose proof (append_mandatory_incl
        (map fst (filter (fun kv => snd kv) (Gui._codec_vars window)))) as Hi.
      unfold Gui._get_keys in E. rewrite E in Hi. apply (Hi "SBC"). cbn. tauto.
    + reflexivity.
  - unfold Gui._start.
    destruct (Gui._get_keys (Gui._codec_vars window)) as [| k rest] eqn:E.
    + exfalso. pose proof (append_mandatory_incl
        (map fst (filter (fun kv => snd kv) (Gui._codec_vars window)))) as Hi.
      unfold Gui._get_keys in E. rewrite E in Hi. apply (Hi "SBC"). cbn. tauto.
    + cbn. lia.
Qed.

(** ** What the window starts *)

Lemma distinct_NoDup : forall l, distinct l = true <-> NoDup l.
Proof.
  induction l as [| k rest IH]; cbn [distinct].
  - split; [constructor | reflexivity].
  - split.
    + intros H. apply andb_prop in H as [Hk Hr]. constructor.
      * intros Hin. apply mem_In in Hin. rewrite Hin in Hk. discriminate.
      * now apply IH.
    + intros H. inversion H as [| x xs Hn Hd]; subst.
      apply andb_true_intro. split; [| now apply IH].
      apply negb_true_iff. destruct (mem k rest) eqn:E; [| reflexivity].
      apply mem_In in E. contradiction.
Qed.

Lemma ticked_keys_distinct : forall vars : list (string * bool),
  NoDup (keys vars) -> NoDup (map fst (filter (fun kv => snd kv) vars)).
Proof.
  unfold keys. induction vars as [| [k v] rest IH]; cbn [map filter fst snd];
    intros H; [constructor |].
  inversion H as [| x xs Hn Hd]; subst.
  destruct v; [| now apply IH].
  cbn [map fst]. constructor; [| now apply IH].
  intros Hin. apply Hn. apply in_map_iff in Hin as [[k' v'] [Hk Hin]].
  cbn in Hk. subst k'. apply filter_In in Hin as [Hin _].
  apply in_map_iff. now exists (k, v').
Qed.

Lemma gui_on_avdtp_returns : forall ks p st,
  registrable Gui.CODECS ks = true -> snd (Gui.on_avdtp ks p st) = None.
Proof.
  intros ks p st Hr. destruct (registrable_names _ _ Hr) as [names Hn].
  unfold Gui.on_avdtp. destruct (Gui.fired st); [reflexivity |].
  rewrite Hn.
  match goal with
  | |- context [Gui.register p ks ?s] =>
      destruct (gui_register_skips_failures p ks s names Hn)
        as (added & logs & Hx & _);
      destruct (Gui.register p ks s) as [st1 [e |]]
  end; cbn [snd] in Hx; [discriminate | reflexivity].
Qed.

(** X18. Whatever boxes are ticked and whatever presets were applied,
    the selection the window starts a session with holds SBC and AAC,
    repeats no key and stays within the catalogue, so the connection
    handler of that session never fails on an unknown key: it returns
    normally on every stack. *)
Theorem window_starts_registrable_selection :
  forall (vars : list (string * bool)) (p : Protocol) (st : Gui.state),
    keys vars = keys Gui.initial_vars ->
    registrable Gui.CODECS (Gui._get_keys vars) = true
    /\ snd (Gui.on_avdtp (Gui._get_keys vars) p st) = None
    /\ forall ks, keys (Gui._preset ks vars) = keys Gui.initial_vars.
Proof.
  intros vars p st Hk.
  assert (Hr : registrable Gui.CODECS (Gui._get_keys vars) = true).
  { unfold registrable, Gui._get_keys.
    apply andb_true_intro. split; [apply andb_true_intro; split |].
    - apply forallb_forall. intros m Hm. apply mem_In.
      now apply append_mandatory_incl.
    - apply distinct_NoDup, append_mandatory_nodup, ticked_keys_distinct.
      rewrite Hk. apply distinct_NoDup. vm_compute. reflexivity.
    - apply forallb_forall. intros k Hin.
      apply append_mandatory_in in Hin as [Hin | Hin].
      + assert (Hin' : In k (keys Gui.initial_vars)).
        { rewrite <- Hk. unfold keys.
          apply in_map_iff in Hin as [kv [<- Hf]].
          apply filter_In in Hf as [Hf _]. now apply in_map. }
        assert (Hall : forallb (fun k => match lookup Gui.CODECS k with
                                         | Some _ => true
                                         | None => false
                                         end) (keys Gui.initial_vars) = true)
          by (vm_compute; reflexivity).
        rewrite forallb_forall in Hall. now apply Hall.
      + destruct (lookup_mandatory_known k Hin) as [_ H].
        destruct (lookup Gui.CODECS k); [reflexivity | contradiction]. }
  split; [exact Hr |]. split; [now apply gui_on_avdtp_returns |].
  intros ks. rewrite <- Hk. unfold Gui._preset, keys.
  rewrite map_map. reflexivity.
Qed.

Lemma fresh_window_starts_registrable_selection :
  registrable Gui.CODECS (Gui._get_keys Gui.initial_vars) = true.
Proof.
  apply (window_starts_registrable_selection Gui.initial_vars accepting
           (Gui.new_worker true false machine)).
  reflexivity.
Defined.
